(** * simple_bench.c: the Paragon CPU/GPU micro-benchmark harness

    A shallow embedding of [simple_bench.c].  C strings are lists of
    characters (the bytes before the terminating NUL), a [char*] into a string
    is the suffix it points at, [int] values are [Z] with the overflow points written out,
    [float] and [double] are IEEE 754 binary32 and binary64 values of the
    standard library's [SpecFloat], and the calls into the engine, the clock
    and the C library's generator are explicit oracles threaded through a
    trace of events. *)

From Stdlib Require Import ZArith List String Ascii Bool Lia QArith Qpower Qabs.
From Stdlib Require Import Floats.SpecFloat.
Import ListNotations.

Local Open Scope list_scope.
Local Open Scope Z_scope.

(** ** The C library functions the harness calls *)

Module CLib.

(** A C string: the bytes before its terminating NUL. *)
Abbreviation cstring := (list ascii).

(** A string literal of the source. *)
Definition str (s : string) : cstring := list_ascii_of_string s.
Arguments str s%_string.

Definition INT_MAX : Z := 2147483647.
Definition INT_MIN : Z := -2147483648.
Definition LLONG_MAX : Z := 9223372036854775807.
Definition LLONG_MIN : Z := -9223372036854775808.
(** [size_t] of the LP64 and LLP64 targets the harness is built for. *)
Definition SIZE_MAX : Z := 18446744073709551615.

Definition in_int (z : Z) : Prop := INT_MIN <= z <= INT_MAX.
Definition to_size_t (z : Z) : Z := z mod (SIZE_MAX + 1).

Definition strlen (s : cstring) : Z := Z.of_nat (List.length s).

(** [starts_with p s]: the bytes at [s] begin with [p]. *)
Fixpoint starts_with (p s : cstring) : bool :=
  match p, s with
  | [], _ => true
  | _ :: _, [] => false
  | a :: p', b :: s' => Ascii.eqb a b && starts_with p' s'
  end.

(** [strstr hay needle]: the suffix of [hay] at the first occurrence of
    [needle], [None] for the null pointer. *)
Fixpoint strstr (hay needle : cstring) : option cstring :=
  if starts_with needle hay then Some hay
  else match hay with
       | [] => None
       | _ :: rest => strstr rest needle
       end.

(** [strchr s c] for a character other than NUL. *)
Fixpoint strchr (s : cstring) (c : ascii) : option cstring :=
  match s with
  | [] => None
  | a :: rest => if Ascii.eqb a c then Some s else strchr rest c
  end.

Definition isspace (c : ascii) : bool :=
  let n := Z.of_nat (nat_of_ascii c) in
  (n =? 32) || ((9 <=? n) && (n <=? 13)).

Definition isdigit (c : ascii) : bool :=
  let n := Z.of_nat (nat_of_ascii c) in (48 <=? n) && (n <=? 57).

Definition digit_val (c : ascii) : Z := Z.of_nat (nat_of_ascii c) - 48.

Fixpoint skip_space (s : cstring) : cstring :=
  match s with
  | a :: rest => if isspace a then skip_space rest else s
  | [] => s
  end.

(** The decimal digits at the start of [s], accumulated onto [acc]. *)
Fixpoint read_digits (s : cstring) (acc : Z) : Z :=
  match s with
  | a :: rest => if isdigit a then read_digits rest (10 * acc + digit_val a) else acc
  | [] => acc
  end.

(** [strtoll(s, NULL, 10)]: white space, an optional sign, decimal digits;
    zero when there are no digits, clamped to the range of [long long]. *)
Definition strtoll (s : cstring) : Z :=
  let s1 := skip_space s in
  let '(neg, s2) :=
    match s1 with
    | "-"%char :: r => (true, r)
    | "+"%char :: r => (false, r)
    | _ => (false, s1)
    end in
  let v := read_digits s2 0 in
  let v := if neg then - v else v in
  Z.max LLONG_MIN (Z.min LLONG_MAX v).

Definition digit_char (d : Z) : ascii := ascii_of_nat (Z.to_nat (48 + d)).

Fixpoint fmt_digits (fuel : nat) (n : Z) (acc : cstring) : cstring :=
  match fuel with
  | O => acc
  | S f =>
      let acc' := digit_char (n mod 10) :: acc in
      if n <? 10 then acc' else fmt_digits f (n / 10) acc'
  end.

(** The decimal digits of a natural number; it has no more decimal digits
    than binary ones. *)
Definition fmt_u (n : Z) : cstring := fmt_digits (S (Z.to_nat (Z.log2 n))) n [].

(** The text [printf] writes for ["%d"]. *)
Definition fmt_d (z : Z) : cstring :=
  if z <? 0 then "-"%char :: fmt_u (- z) else fmt_u z.

(** A [malloc]ed character buffer being filled by the idiom
    [len += snprintf(buf+len, cap-len, ...)]: the capacity, the bytes stored
    before the terminating NUL, and the running [len].  The builders do not
    test what [malloc] returned; their buffer is taken to be allocated. *)
Record cbuf : Type := mk_cbuf { buf_cap : Z; buf_data : cstring; buf_len : Z }.

Definition malloc_buf (cap : Z) : cbuf := mk_cbuf cap [] 0.

Definition take (n : Z) (s : cstring) : cstring := firstn (Z.to_nat n) s.

(** [len += snprintf(buf+len, cap-len, "%s", text)].  When [len] has run past
    the capacity, [cap-len] wraps around as a [size_t] and the call writes
    outside the buffer: [None].  Otherwise at most [cap-len-1] bytes and a NUL
    are stored at offset [len], and the full length of the text is added. *)
Definition snprintf_at (b : cbuf) (text : cstring) : option cbuf :=
  let room := buf_cap b - buf_len b in
  if room <? 0 then None
  else if room =? 0 then Some (mk_cbuf (buf_cap b) (buf_data b) (buf_len b + strlen text))
  else if strlen (buf_data b) <? buf_len b then None
  else Some (mk_cbuf (buf_cap b)
                     (take (buf_len b) (buf_data b) ++ take (room - 1) text)
                     (buf_len b + strlen text)).

(** [buf[i]]: a stored byte, the terminating NUL, or outside what was
    written. *)
Definition buf_get (b : cbuf) (i : Z) : option ascii :=
  if i <? 0 then None
  else match nth_error (buf_data b) (Z.to_nat i) with
       | Some c => Some c
       | None => if (i =? strlen (buf_data b)) && (i <? buf_cap b) then Some zero else None
       end.

Fixpoint set_nth (n : nat) (c : ascii) (s : cstring) : cstring :=
  match s, n with
  | [], _ => []
  | _ :: r, O => c :: r
  | a :: r, S n' => a :: set_nth n' c r
  end.

(** [buf[i] = c] for a byte inside the stored text. *)
Definition buf_set (b : cbuf) (i : Z) (c : ascii) : cbuf :=
  mk_cbuf (buf_cap b) (set_nth (Z.to_nat i) c (buf_data b)) (buf_len b).

End CLib.
Import CLib.

(** A small option monad for the steps that can leave defined behaviour. *)
Definition obind {A B : Type} (x : option A) (f : A -> option B) : option B :=
  match x with Some a => f a | None => None end.

Notation "'do' x <- c1 ; c2" := (obind c1 (fun x => c2))
  (at level 60, x name, c1 at next level, right associativity).

Fixpoint repeat_m {A : Type} (n : nat) (f : A -> option A) (a : A) : option A :=
  match n with
  | O => Some a
  | S n' => do a' <- f a; repeat_m n' f a'
  end.

(** [for (i=0; i<n; i++) body]: the body runs [n] times, none for [n <= 0]. *)
Definition for_n {A : Type} (n : Z) (body : A -> option A) (a : A) : option A :=
  repeat_m (Z.to_nat n) body a.

(** ** ConfigBuilder: the three descriptors *)

(** A text between double quotes. *)
Definition quoted (s : string) : cstring := "034"%char :: str s ++ ["034"%char].
Arguments quoted s%_string.

(** [{"Width":%d,"Height":1}], the text of one layer shape. *)
Definition shape_text (w : Z) : cstring :=
  str "{" ++ quoted "Width" ++ str ":" ++ fmt_d w ++ str "," ++ quoted "Height" ++ str ":1}".

(** The last loop of [build_layers_json]:
    [for (i=1; i<len; i++) if (buf[i-1]==']' && buf[i]==',') buf[i]=' ';]
    from index [i], for [n] more indices. *)
Fixpoint fix_commas (n : nat) (i : Z) (b : cbuf) : option cbuf :=
  match n with
  | O => Some b
  | S n' =>
      do prev <- buf_get b (i - 1);
      if Ascii.eqb prev "]"%char then
        do cur <- buf_get b i;
        fix_commas n' (i + 1) (if Ascii.eqb cur ","%char then buf_set b i " "%char else b)
      else fix_commas n' (i + 1) b
  end.

Definition build_layers_json (in_dim hidden hidden_layers out_dim : Z) : option cstring :=
  if INT_MAX <? hidden_layers + 2 then None else
  let cap := to_size_t (64 + to_size_t (hidden_layers + 2) * 40) in
  let buf := malloc_buf cap in
  do b <- snprintf_at buf (str "[");
  do b <- snprintf_at b (shape_text in_dim ++ str ",");
  do b <- for_n hidden_layers (fun b => snprintf_at b (shape_text hidden ++ str ",")) b;
  do last <- buf_get b (buf_len b - 1);
  let b := if Ascii.eqb last ","%char then mk_cbuf (buf_cap b) (buf_data b) (buf_len b - 1) else b in
  do b <- snprintf_at b (str "," ++ shape_text out_dim ++ str "]");
  do b <- fix_commas (Z.to_nat (buf_len b - 1)) 1 b;
  Some (buf_data b).

(** The loop shared by [build_activ_json] and [build_fully_json]: entry [i]
    writes the item, and a comma unless it is the last. *)
Fixpoint items_loop (item : cstring) (total_layers : Z) (n : nat) (i : Z) (b : cbuf)
  : option cbuf :=
  match n with
  | O => Some b
  | S n' =>
      do b <- snprintf_at b item;
      do b <- (if i <? total_layers - 1 then snprintf_at b (str ",") else Some b);
      items_loop item total_layers n' (i + 1) b
  end.

Definition build_items_json (per_item : Z) (item : cstring) (total_layers : Z)
  : option cstring :=
  let cap := to_size_t (32 + to_size_t total_layers * per_item) in
  let buf := malloc_buf cap in
  do b <- snprintf_at buf (str "[");
  do b <- items_loop item total_layers (Z.to_nat total_layers) 0 b;
  do b <- snprintf_at b (str "]");
  Some (buf_data b).

Definition build_activ_json (total_layers : Z) : option cstring :=
  build_items_json 8 (quoted "relu") total_layers.

Definition build_fully_json (total_layers : Z) : option cstring :=
  build_items_json 6 (str "true") total_layers.

(** The text of a JSON array with the given items. *)
Fixpoint join_items (items : list cstring) : cstring :=
  match items with
  | [] => []
  | [x] => x
  | x :: rest => x ++ str "," ++ join_items rest
  end.

Definition json_array (items : list cstring) : cstring :=
  str "[" ++ join_items items ++ str "]".

(** The layer widths of a case: input, the hidden layers, output. *)
Definition layer_widths (in_dim hidden hidden_layers out_dim : Z) : list Z :=
  in_dim :: repeat hidden (Z.to_nat hidden_layers) ++ [out_dim].

(** ** Floating point: IEEE 754 binary32 ([float]) and binary64 ([double])

    An expression of type [float] is evaluated in binary32 and one of type
    [double] in binary64, rounding to nearest with ties to even. *)

Module B32.
Definition prec : Z := 24.
Definition emax : Z := 128.
Definition zero : spec_float := S754_zero false.
(** [(float)n] of an integer: round to nearest, ties to even. *)
Definition of_int (n : Z) : spec_float := binary_normalize prec emax n 0 false.
Definition sub : spec_float -> spec_float -> spec_float := SFsub prec emax.
Definition div : spec_float -> spec_float -> spec_float := SFdiv prec emax.
Definition ltb : spec_float -> spec_float -> bool := SFltb.
Definition leb : spec_float -> spec_float -> bool := SFleb.
Definition one : spec_float := S754_finite false 8388608 (-23).
End B32.

Module B64.
Definition prec : Z := 53.
Definition emax : Z := 1024.
Definition zero : spec_float := S754_zero false.
(** [(double)n] of an integer. *)
Definition of_int (n : Z) : spec_float := binary_normalize prec emax n 0 false.
Definition add : spec_float -> spec_float -> spec_float := SFadd prec emax.
Definition sub : spec_float -> spec_float -> spec_float := SFsub prec emax.
Definition mul : spec_float -> spec_float -> spec_float := SFmul prec emax.
Definition div : spec_float -> spec_float -> spec_float := SFdiv prec emax.
End B64.

(** The rational number a finite floating-point value stands for. *)
Definition SF2Q (f : spec_float) : option Q :=
  match f with
  | S754_zero _ => Some 0%Q
  | S754_finite s m e =>
      Some (inject_Z (if s then Z.neg m else Z.pos m) * Qpower 2 e)%Q
  | S754_infinity _ | S754_nan => None
  end.

(** The float of precision [prec] that stands for [N * 2^x], for [N] of at
    most [prec] digits. *)
Definition dyadic (prec : Z) (N : positive) (x : Z) : spec_float :=
  S754_finite false (Z.to_pos (Z.pos N * 2 ^ (prec - Z.pos (digits2_pos N))))
              (x + Z.pos (digits2_pos N) - prec).

(** The binary64 value of a natural number below [2^53]. *)
Definition exact64 (n : Z) : spec_float :=
  match n with
  | Z.pos p => dyadic 53 p 0
  | _ => S754_zero false
  end.

(** The constants of the source. *)
Definition lit_4_0 : spec_float := S754_finite false 4503599627370496 (-50).
Definition lit_1024_0 : spec_float := S754_finite false 4503599627370496 (-42).
Definition lit_0_1 : spec_float := S754_finite false 7205759403792794 (-56).
(** [1e-4f], the binary32 value nearest to one ten-thousandth. *)
Definition lit_1e_4f : spec_float := S754_finite false 13743895 (-37).

(** ** ConfigBuilder: the VRAM estimate *)

Definition est_vram_mb_fc (in_dim hidden hidden_layers out_dim : Z) : spec_float :=
  let params := B64.mul (B64.of_int in_dim) (B64.of_int hidden) in
  let params :=
    if 1 <? hidden_layers
    then B64.add params
           (B64.mul (B64.mul (B64.of_int (hidden_layers - 1)) (B64.of_int hidden))
                    (B64.of_int hidden))
    else params in
  let params := B64.add params (B64.mul (B64.of_int hidden) (B64.of_int out_dim)) in
  let params :=
    B64.add params
      (B64.add (B64.mul (B64.of_int hidden_layers) (B64.of_int hidden)) (B64.of_int out_dim)) in
  B64.div (B64.mul params lit_4_0) (B64.mul lit_1024_0 lit_1024_0).

(** The parameter count the estimate is about, in exact arithmetic. *)
Definition param_count (in_dim hidden hidden_layers out_dim : Z) : Z :=
  in_dim * hidden + Z.max 0 (hidden_layers - 1) * (hidden * hidden)
  + hidden * out_dim + (hidden_layers * hidden + out_dim).

(** ** InputSynthesizer *)

(** The nearest integer to [num / den], ties to the even one. *)
Definition round_half_even (num den : Z) : Z :=
  let q := num / den in
  let r := num mod den in
  match 2 * r ?= den with
  | Lt => q
  | Gt => q + 1
  | Eq => if Z.even q then q else q + 1
  end.

(** Six digits, zero padded. *)
Definition fmt_frac6 (n : Z) : cstring :=
  map (fun k => digit_char ((n / 10 ^ k) mod 10)) [5; 4; 3; 2; 1; 0].

(** The text [printf] writes for ["%.6f"]: the exact value rounded to six
    decimals. *)
Definition fmt_f6 (v : spec_float) : cstring :=
  match v with
  | S754_nan => str "nan"
  | S754_infinity s => (if s then str "-" else []) ++ str "inf"
  | S754_zero s => (if s then str "-" else []) ++ str "0.000000"
  | S754_finite s m e =>
      let n := if 0 <=? e then Z.pos m * 2 ^ e * 1000000
               else round_half_even (Z.pos m * 1000000) (2 ^ (- e)) in
      (if s then str "-" else []) ++ fmt_u (n / 1000000) ++ str "." ++ fmt_frac6 (n mod 1000000)
  end.

(** The generator of the C library: [RAND_MAX], its hidden state, [srand]
    and [rand]. *)
Record c_rand : Type := mk_rand {
  RAND_MAX : Z;
  rand_state : Type;
  srand : Z -> rand_state;
  rand : rand_state -> Z * rand_state
}.

(** What the C standard promises of it. *)
Definition rand_conforms (g : c_rand) : Prop :=
  32767 <= RAND_MAX g <= INT_MAX /\
  forall st, 0 <= fst (rand g st) <= RAND_MAX g.

(** [float v = (float)rand() / (float)RAND_MAX;] for a value of [rand()]. *)
Definition unit_value (g : c_rand) (r : Z) : spec_float :=
  B32.div (B32.of_int r) (B32.of_int (RAND_MAX g)).

(** The next [n] values of the loop of [make_input]. *)
Fixpoint draw_values (g : c_rand) (n : nat) (st : rand_state g) : list spec_float :=
  match n with
  | O => []
  | S n' => let '(r, st') := rand g st in unit_value g r :: draw_values g n' st'
  end.

(** The values [make_input] draws, from [srand(42)] on. *)
Definition input_values (g : c_rand) (in_dim : Z) : list spec_float :=
  draw_values g (Z.to_nat in_dim) (srand g 42).

Fixpoint input_loop (g : c_rand) (in_dim : Z) (n : nat) (i : Z) (st : rand_state g)
         (b : cbuf) : option cbuf :=
  match n with
  | O => Some b
  | S n' =>
      let '(r, st') := rand g st in
      let v := unit_value g r in
      do b <- snprintf_at b (if i <? in_dim - 1 then fmt_f6 v ++ str "," else fmt_f6 v);
      input_loop g in_dim n' (i + 1) st' b
  end.

Definition make_input (g : c_rand) (in_dim : Z) : option cstring :=
  let st := srand g 42 in
  let cap := to_size_t (16 + to_size_t in_dim * 12) in
  let buf := malloc_buf cap in
  do b <- snprintf_at buf (str "[[[");
  do b <- input_loop g in_dim (Z.to_nat in_dim) 0 st b;
  do b <- snprintf_at b (str "]]]");
  Some (buf_data b).

(** ** EngineClient: reading the payloads *)

Definition is_error (js : option cstring) : bool :=
  match js with
  | None => false
  | Some s => match strstr s (quoted "error") with Some _ => true | None => false end
  end.

(** The [while] loop of [parse_handle] steps [colon] past the colon and
    past every space or tab that follows it. *)
Fixpoint skip_blanks (s : cstring) : cstring :=
  match s with
  | a :: rest =>
      if Ascii.eqb a " "%char || Ascii.eqb a "009"%char then skip_blanks rest else s
  | [] => s
  end.

(** [parse_handle]; [None] where the source hands the null pointer to
    [strtoll]. *)
Definition parse_handle (js : cstring) : option Z :=
  match strstr js (quoted "handle") with
  | None => Some 0
  | Some h =>
      match strchr h ":"%char with
      | None => None
      | Some colon => Some (strtoll (skip_blanks (tl colon)))
      end
  end.

(** A [float] array seen from its first element. *)
Definition farray : Type := Z -> spec_float.

Definition upd (a : farray) (i : Z) (v : spec_float) : farray :=
  fun j => if j =? i then v else a j.

(** [strtof(p, &p)] of the C library: the value, and where the parse
    stopped. *)
Definition c_strtof : Type := cstring -> spec_float * cstring.

(** The C standard: the end pointer points into the string parsed, and when
    no conversion is performed zero is returned and the end pointer is the
    start. *)
Definition strtof_conforms (strtof : c_strtof) : Prop :=
  forall s, (exists pre, s = pre ++ snd (strtof s)) /\
            (snd (strtof s) = s -> fst (strtof s) = B32.zero).

(** The number of commas in a text. *)
Definition commas (s : cstring) : Z := Z.of_nat (count_occ ascii_dec s ","%char).

(** The loop of [extract_first_n] from index [i] with [p] in the text;
    returns the array and the number of elements stored so far. *)
Fixpoint extract_loop (strtof : c_strtof) (fuel : nat) (i n : Z) (p : cstring) (out : farray)
  : farray * Z :=
  match fuel with
  | O => (out, i)
  | S fuel' =>
      let '(v, p) := strtof p in
      let out := upd out i v in
      match strchr p (if i =? n - 1 then "]"%char else ","%char) with
      | None => (out, i + 1)
      | Some q => extract_loop strtof fuel' (i + 1) n (tl q) out
      end
  end.

(** [extract_first_n(js, out, n)]: the array afterwards, and how many
    elements were stored. *)
Definition extract_first_n (strtof : c_strtof) (js : cstring) (out : farray) (n : Z)
  : farray * Z :=
  match strstr js (str "[[") with
  | None => (out, 0)
  | Some p => extract_loop strtof (Z.to_nat n) 0 n (skipn 2 p) out
  end.

(** ** ParityChecker *)

(** [float d = fabsf(c[i]-g[i]);] *)
Definition abs_diff (c g : spec_float) : spec_float := SFabs (B32.sub c g).

(** [if (d < 1e-4f) ok++;] *)
Definition within_tolerance (d : spec_float) : bool := B32.ltb d lit_1e_4f.

(** One line of the parity table: index, CPU value, GPU value, difference. *)
Definition parity_row (c g : farray) (i : Z) : Z * spec_float * spec_float * spec_float :=
  (i, c i, g i, abs_diff (c i) (g i)).

Definition indices10 : list Z := [0; 1; 2; 3; 4; 5; 6; 7; 8; 9].

(** The count [ok] after the loop over the first ten outputs. *)
Definition parity_ok (c g : farray) : Z :=
  fold_left (fun ok i => if within_tolerance (abs_diff (c i) (g i)) then ok + 1 else ok)
            indices10 0.

(** [float c[10]={0}]. *)
Definition zeros : farray := fun _ => B32.zero.

(** Rounding to nearest, ties to even, of [n / 2^k]: whether the quotient
    is rounded up. *)
Definition rnd_up (n k : Z) : bool :=
  if k =? 0 then false
  else Z.odd (n / 2 ^ (k - 1))
       && (negb (n mod 2 ^ (k - 1) =? 0) || Z.odd (n / 2 ^ k)).

(** The mantissa and the exponent of [(float)n] for a positive [n]. *)
Definition rnd24 (n : Z) : Z * Z :=
  let d := Z.log2 n + 1 in
  if d <=? 24 then (n * 2 ^ (24 - d), d - 24)
  else
    let k := d - 24 in
    let m := n / 2 ^ k + (if rnd_up n k then 1 else 0) in
    if m <? 2 ^ 24 then (m, k) else (2 ^ 23, k + 1).

(** The order of the normal binary32 values, on mantissa and exponent. *)
Definition lexle (a b : Z * Z) : Prop :=
  snd a < snd b \/ (snd a = snd b /\ fst a <= fst b).

(** [v] lies in the closed unit interval. *)
Definition in_unit_closed (v : spec_float) : bool := B32.leb B32.zero v && B32.leb v B32.one.

(** A binary32 value in normal form that is zero or a normal number up to
    one. *)
Definition unit_binary32 (v : spec_float) : Prop :=
  v = B32.zero \/
  exists (m : positive) (e : Z),
    v = S754_finite false m e /\ 2 ^ 23 <= Z.pos m < 2 ^ 24 /\ -149 <= e /\
    (e < -23 \/ (e = -23 /\ m = 8388608%positive)).

(** [v] lies in the half-open unit interval. *)
Definition in_unit_half_open (v : spec_float) : bool := B32.leb B32.zero v && B32.ltb v B32.one.

(** The number that the constant [1e-4f] stands for. *)
Definition tolerance_value : Q := 13743895 # 137438953472.

(** The value of [d] is a number strictly below [t]. *)
Definition strictly_below (d : spec_float) (t : Q) : bool :=
  match SF2Q d with
  | Some q => negb (Qle_bool t q)
  | None => false
  end.

(** The largest difference of two numbers that the parity check counts:
    the midpoint between the number of [1e-4f] and that of the binary32
    value before it. *)
Definition tolerance_bound : Q := 27487789 # 274877906944.

(** The numbers that [c] and [g] stand for differ by at most the bound;
    false when one of them is an infinity or not a number. *)
Definition exact_match (c g : spec_float) : bool :=
  match SF2Q c, SF2Q g with
  | Some qc, Some qg => Qle_bool (Qabs (qc - qg)) tolerance_bound
  | _, _ => false
  end.

(** [N * 2^e] is at most the bound, on integers. *)
Definition below_bound (N e : Z) : Prop :=
  if e <=? -38 then N <= 27487789 * 2 ^ (-38 - e) else N * 2 ^ (e - -38) <= 27487789.

(** The number of the first ten indices at which [p] holds. *)
Definition count10 (p : Z -> bool) : Z := Z.of_nat (List.length (filter p indices10)).

(** A reference [strtof] for plain decimal literals (white space, a sign,
    digits with an optional fraction), correctly rounded; exponents,
    hexadecimal literals, infinities and NaNs are left unconverted. *)
Fixpoint take_digits (s : cstring) : cstring * cstring :=
  match s with
  | a :: rest =>
      if isdigit a then let '(ds, r) := take_digits rest in (a :: ds, r) else ([], s)
  | [] => ([], [])
  end.

Definition strtof_dec : c_strtof :=
  fun s =>
    let s1 := skip_space s in
    let '(neg, s2) :=
      match s1 with
      | "-"%char :: r => (true, r)
      | "+"%char :: r => (false, r)
      | _ => (false, s1)
      end in
    let '(ip, s3) := take_digits s2 in
    let '(fp, s4) :=
      match s3 with
      | "."%char :: r => take_digits r
      | _ => ([], s3)
      end in
    match ip ++ fp with
    | [] => (B32.zero, s)
    | ds =>
        match read_digits ds 0 with
        | Z.pos num =>
            (B32.div (S754_finite neg num 0)
                     (S754_finite false (Z.to_pos (10 ^ Z.of_nat (List.length fp))) 0), s4)
        | _ => (S754_zero neg, s4)
        end
    end.

(** The portable generator the C standard gives as an example of [rand] and
    [srand], with [RAND_MAX] 32767:
    [next = next * 1103515245 + 12345; return (next/65536) % 32768;]
    The state is an [unsigned long], here of 32 bits; only its low 31 bits
    reach the result. *)
Definition ansi_step (next : Z) : Z * Z :=
  let next := Z.land (next * 1103515245 + 12345) 4294967295 in
  (Z.land (Z.shiftr next 16) 32767, next).

Definition ansi_rand : c_rand :=
  mk_rand 32767 Z (fun seed => Z.land seed 4294967295) ansi_step.

(** ** The foreign interface and the trace of a run *)

(** The entry points of [teleport.h] that return a buffer. *)
Inductive call : Type :=
| Paragon_NewNetworkFloat32 (layers activ fully : cstring) (f1 f2 : bool)
| Paragon_PerturbWeights (h : Z) (magnitude : spec_float) (seed : Z)
| Paragon_DisableGPU (h : Z)
| Paragon_EnableGPU (h : Z)
| Paragon_Call (h : Z) (method args : cstring).

(** What [run_case] prints; the numbers are kept as values. *)
Inductive line : Type :=
| PrBanner
| PrCase (name : cstring)
| PrShape (in_dim hidden hidden_layers out_dim : Z) (est_mb : spec_float)
| PrNewNetwork (r : cstring)
| PrPerturbWeights (r : cstring)
| PrCpu
| PrDisableGPU (r : cstring)
| PrTime (seconds per_second : spec_float)
| PrGpu
| PrEnableGPU (r : cstring)
| PrSpeedup (x : spec_float)
| PrParityHeader
| PrParityRow (row : Z * spec_float * spec_float * spec_float)
| PrMatch (ok : Z).

(** What a run does to the outside, in order.  A buffer the engine returns
    is named by the position of its call in the trace. *)
Inductive event : Type :=
| EvCall (c : call) (ret : option cstring)
| EvCopy (buffer : nat)
| EvFreeCString (buffer : nat)
| EvFree (h : Z)
| EvClock (t : spec_float)
| EvPrint (l : line).

(** The collaborators of the harness: the engine answers a call given all
    that happened before, the clock likewise; the C library's generator and
    [strtof]; and whether the [malloc] of [xstrdup] returns a buffer of the
    size asked for, given all that happened before. *)
Record world : Type := mk_world {
  engine : list event -> call -> option cstring;
  clock : list event -> spec_float;
  c_gen : c_rand;
  strtof : c_strtof;
  malloc_ok : list event -> Z -> bool
}.

(** A step of the harness: the trace grows, and the step either yields a
    value or leaves defined behaviour ([None]). *)
Definition M (A : Type) : Type := list event -> option A * list event.

Definition ret {A : Type} (a : A) : M A := fun tr => (Some a, tr).

Definition bind {A B : Type} (m : M A) (f : A -> M B) : M B :=
  fun tr => match m tr with
            | (Some a, tr') => f a tr'
            | (None, tr') => (None, tr')
            end.

Notation "x <- m ;; k" := (bind m (fun x => k))
  (at level 61, m at next level, right associativity).
Notation "m ;;; k" := (bind m (fun _ => k))
  (at level 61, right associativity).

Definition emit (e : event) : M unit := fun tr => (Some tt, tr ++ [e]).

Definition undefined {A : Type} : M A := fun tr => (None, tr).

Definition lift {A : Type} (o : option A) : M A :=
  match o with Some a => ret a | None => undefined end.

Fixpoint repeat_M (n : nat) (body : M unit) : M unit :=
  match n with
  | O => ret tt
  | S n' => body ;;; repeat_M n' body
  end.

(** A pointer the engine returned: null, or a buffer and its bytes. *)
Definition foreign_ptr : Type := option (nat * cstring).

Definition foreign (w : world) (c : call) : M foreign_ptr :=
  fun tr =>
    let r := engine w tr c in
    (Some (option_map (fun s => (List.length tr, s)) r), tr ++ [EvCall c r]).

(** [malloc(n)] in [xstrdup]: whether a buffer is returned. *)
Definition malloc (w : world) (n : Z) : M bool :=
  fun tr => (Some (malloc_ok w tr n), tr).

(** [xstrdup]: null for the null pointer; otherwise [strlen(s) + 1] bytes
    are asked of [malloc], the bytes of the buffer are copied when it
    returned a buffer, and what it returned is returned. *)
Definition xstrdup (w : world) (p : foreign_ptr) : M (option cstring) :=
  match p with
  | None => ret None
  | Some (buffer, s) =>
      ok <- malloc w (strlen s + 1) ;;
      if ok then emit (EvCopy buffer) ;;; ret (Some s) else ret None
  end.

(** [steal]: take ownership of a string the engine allocated.  The engine's
    buffer is released whether or not the copy was made. *)
Definition steal (w : world) (p : foreign_ptr) : M (option cstring) :=
  match p with
  | None => ret None
  | Some (buffer, _) =>
      c <- xstrdup w p ;;
      emit (EvFreeCString buffer) ;;;
      ret c
  end.

(** [steal(Paragon_...(...))]: the call, then [steal] on what it returned. *)
Definition stolen (w : world) (c : call) : M (option cstring) :=
  p <- foreign w c ;; steal w p.

Definition now_sec (w : world) : M spec_float :=
  fun tr => let t := clock w tr in (Some t, tr ++ [EvClock t]).

(** [printf("... %s ...", r)]: the null pointer has no text to print. *)
Definition print_payload (mk : cstring -> line) (r : option cstring) : M unit :=
  match r with
  | Some s => emit (EvPrint (mk s))
  | None => undefined
  end.

(** [r = steal(Paragon_Call(h,"Forward",in)); free(r);] *)
Definition forward_once (w : world) (h : Z) (input : cstring) : M unit :=
  _ <- stolen w (Paragon_Call h (str "Forward") input) ;;
  ret tt.

(** The timed phase shared by the CPU and the GPU part: ten warm-up calls,
    [runs] timed calls, the output payload, and the report line.  Returns
    the elapsed time and the payload. *)
Definition measure (w : world) (h : Z) (input : cstring) (runs : Z)
  : M (spec_float * option cstring) :=
  repeat_M 10 (forward_once w h input) ;;;
  t0 <- now_sec w ;;
  repeat_M (Z.to_nat runs) (forward_once w h input) ;;;
  t1 <- now_sec w ;;
  let elapsed := B64.sub t1 t0 in
  out <- stolen w (Paragon_Call h (str "ExtractOutput") (str "[]")) ;;
  emit (EvPrint (PrTime elapsed (B64.div (B64.of_int runs) elapsed))) ;;;
  ret (elapsed, out).

(** The parity block: both outputs are parsed, so neither may be null. *)
Definition parity (w : world) (cpu_out gpu_out : option cstring) : M unit :=
  cpu_js <- lift cpu_out ;;
  gpu_js <- lift gpu_out ;;
  let c := fst (extract_first_n (strtof w) cpu_js zeros 10) in
  let g := fst (extract_first_n (strtof w) gpu_js zeros 10) in
  emit (EvPrint PrParityHeader) ;;;
  fold_right (fun i k => emit (EvPrint (PrParityRow (parity_row c g i))) ;;; k)
             (ret tt) indices10 ;;;
  emit (EvPrint (PrMatch (parity_ok c g))).

Definition run_case (w : world) (name : cstring)
           (in_dim hidden hidden_layers out_dim runs : Z) : M unit :=
  total_layers <- lift (if INT_MAX <? 1 + hidden_layers + 1 then None
                        else Some (1 + hidden_layers + 1)) ;;
  layers <- lift (build_layers_json in_dim hidden hidden_layers out_dim) ;;
  activ <- lift (build_activ_json total_layers) ;;
  fully <- lift (build_fully_json total_layers) ;;
  let est_mb := est_vram_mb_fc in_dim hidden hidden_layers out_dim in
  emit (EvPrint (PrCase name)) ;;;
  emit (EvPrint (PrShape in_dim hidden hidden_layers out_dim est_mb)) ;;;
  r <- stolen w (Paragon_NewNetworkFloat32 layers activ fully true false) ;;
  print_payload PrNewNetwork r ;;;
  if is_error r then ret tt else
  js <- lift r ;;
  h <- lift (parse_handle js) ;;
  r <- stolen w (Paragon_PerturbWeights h lit_0_1 42) ;;
  print_payload PrPerturbWeights r ;;;
  if is_error r then emit (EvFree h) else
  input <- lift (make_input (c_gen w) in_dim) ;;
  (* CPU *)
  emit (EvPrint PrCpu) ;;;
  r <- stolen w (Paragon_DisableGPU h) ;;
  print_payload PrDisableGPU r ;;;
  cpu <- measure w h input runs ;;
  let '(cpu_t, cpu_out) := cpu in
  (* GPU *)
  emit (EvPrint PrGpu) ;;;
  r <- stolen w (Paragon_EnableGPU h) ;;
  print_payload PrEnableGPU r ;;;
  if is_error r then emit (EvFree h) else
  gpu <- measure w h input runs ;;
  let '(gpu_t, gpu_out) := gpu in
  emit (EvPrint (PrSpeedup (B64.div cpu_t gpu_t))) ;;;
  parity w cpu_out gpu_out ;;;
  emit (EvFree h).

(** The table of [main]. *)
Definition cases : list (cstring * Z * Z) :=
  [ (str "S1", 64, 1); (str "S2", 128, 1); (str "S3", 256, 1);
    (str "M1", 256, 2); (str "M2", 384, 2); (str "M3", 512, 2);
    (str "L1", 768, 3); (str "L2", 1024, 3);
    (str "XL1", 1536, 4); (str "XL2", 2048, 4) ].

Definition IN : Z := 784.
Definition OUT : Z := 10.
Definition RUNS : Z := 100.

Definition main (w : world) : M unit :=
  emit (EvPrint PrBanner) ;;;
  fold_right (fun c k => let '(name, hidden, hidden_layers) := c in
                         run_case w name IN hidden hidden_layers OUT RUNS ;;; k)
             (ret tt) cases.

(** The handles released by [Paragon_Free], in order. *)
Definition frees (tr : list event) : list Z :=
  flat_map (fun e => match e with EvFree h => [h] | _ => [] end) tr.

(** The answers to [Paragon_NewNetworkFloat32], in order. *)
Definition creations (tr : list event) : list (option cstring) :=
  flat_map (fun e => match e with
                     | EvCall (Paragon_NewNetworkFloat32 _ _ _ _ _) r => [r]
                     | _ => []
                     end) tr.

(** The answers to [Paragon_EnableGPU], in order. *)
Definition enables (tr : list event) : list (option cstring) :=
  flat_map (fun e => match e with
                     | EvCall (Paragon_EnableGPU _) r => [r]
                     | _ => []
                     end) tr.

(** The clock readings, in order. *)
Definition clock_readings (tr : list event) : list spec_float :=
  flat_map (fun e => match e with EvClock t => [t] | _ => [] end) tr.

(** The speed-up figures printed, in order. *)
Definition speedups (tr : list event) : list spec_float :=
  flat_map (fun e => match e with EvPrint (PrSpeedup x) => [x] | _ => [] end) tr.

(** The trace of one case run from the start. *)
Definition trace_of (w : world) (name : cstring)
           (in_dim hidden hidden_layers out_dim runs : Z) : list event :=
  snd (run_case w name in_dim hidden hidden_layers out_dim runs []).

(** The events that mark the phases of a run. *)
Inductive mark : Type :=
| MCreate (r : option cstring)
| MEnable (r : option cstring)
| MClock (t : spec_float)
| MSpeedup (x : spec_float)
| MFree (h : Z).

Definition mark_of (e : event) : list mark :=
  match e with
  | EvCall (Paragon_NewNetworkFloat32 _ _ _ _ _) r => [MCreate r]
  | EvCall (Paragon_EnableGPU _) r => [MEnable r]
  | EvClock t => [MClock t]
  | EvPrint (PrSpeedup x) => [MSpeedup x]
  | EvFree h => [MFree h]
  | _ => []
  end.

Definition marks (tr : list event) : list mark := flat_map mark_of tr.

(** An event of the harness itself, not one of the protocol of a returned
    buffer. *)
Definition local_event (e : event) : Prop :=
  match e with
  | EvCall _ _ | EvCopy _ | EvFreeCString _ => False
  | _ => True
  end.

(** [Bracketed w pre es]: in the events [es], which follow the events
    [pre] of a trace, every call that returned a buffer is followed at once
    by the copy of that buffer, if the [malloc] of the copy returned one,
    and by the release of the buffer; no buffer is copied or released
    anywhere else. *)
Inductive Bracketed (w : world) : list event -> list event -> Prop :=
| Br_nil pre : Bracketed w pre []
| Br_copied pre c s rest :
    malloc_ok w (pre ++ [EvCall c (Some s)]) (strlen s + 1) = true ->
    Bracketed w (pre ++ [EvCall c (Some s); EvCopy (List.length pre);
                         EvFreeCString (List.length pre)]) rest ->
    Bracketed w pre (EvCall c (Some s) :: EvCopy (List.length pre)
                       :: EvFreeCString (List.length pre) :: rest)
| Br_uncopied pre c s rest :
    malloc_ok w (pre ++ [EvCall c (Some s)]) (strlen s + 1) = false ->
    Bracketed w (pre ++ [EvCall c (Some s); EvFreeCString (List.length pre)]) rest ->
    Bracketed w pre (EvCall c (Some s) :: EvFreeCString (List.length pre) :: rest)
| Br_null pre c rest :
    Bracketed w (pre ++ [EvCall c None]) rest -> Bracketed w pre (EvCall c None :: rest)
| Br_local pre e rest :
    local_event e -> Bracketed w (pre ++ [e]) rest -> Bracketed w pre (e :: rest).

(** ** Sample collaborators

    A small engine whose chosen entry points fail, used to run the harness
    on concrete inputs. *)

Definition payload_handle : cstring := str "{" ++ quoted "handle" ++ str ": 7}".
Definition payload_error : cstring :=
  str "{" ++ quoted "error" ++ str ":" ++ quoted "unavailable" ++ str "}".
Definition payload_ack : cstring := str "{}".
Definition payload_output : cstring :=
  str "{" ++ quoted "output" ++ str ":[[0.5,0.25,0.125]]}".

Definition cstring_eqb (s t : cstring) : bool :=
  if list_eq_dec ascii_dec s t then true else false.

Definition sample_engine (fails : call -> bool) : list event -> call -> option cstring :=
  fun _ c =>
    if fails c then Some payload_error
    else match c with
         | Paragon_NewNetworkFloat32 _ _ _ _ _ => Some payload_handle
         | Paragon_Call _ method _ =>
             if cstring_eqb method (str "ExtractOutput") then Some payload_output
             else Some payload_ack
         | _ => Some payload_ack
         end.

(** A clock that ticks once per event. *)
Definition ticking_clock : list event -> spec_float :=
  fun tr => B64.of_int (Z.of_nat (List.length tr)).

(** A clock that ticks once per event and stands still once the GPU has been
    enabled: its resolution is too coarse for the GPU phase. *)
Definition coarse_clock : list event -> spec_float :=
  fun tr => match enables tr with
            | [] => B64.of_int (Z.of_nat (List.length tr))
            | _ => B64.of_int 1000000
            end.

Definition no_failure (c : call) : bool := false.
Definition create_fails (c : call) : bool :=
  match c with Paragon_NewNetworkFloat32 _ _ _ _ _ => true | _ => false end.
Definition perturb_fails (c : call) : bool :=
  match c with Paragon_PerturbWeights _ _ _ => true | _ => false end.
Definition gpu_fails (c : call) : bool :=
  match c with Paragon_EnableGPU _ => true | _ => false end.

(** A [malloc] that always returns a buffer. *)
Definition plenty : list event -> Z -> bool := fun _ _ => true.

Definition sample_world (fails : call -> bool) : world :=
  mk_world (sample_engine fails) ticking_clock ansi_rand strtof_dec plenty.

Definition coarse_world : world :=
  mk_world (sample_engine no_failure) coarse_clock ansi_rand strtof_dec plenty.

(** A [malloc] that returns no buffer for the copy of an answer to
    [Forward], and a world in which the harness runs short of memory in
    this way. *)
Definition no_room_after_forward : list event -> Z -> bool :=
  fun tr _ => match last tr (EvPrint PrBanner) with
              | EvCall (Paragon_Call _ method _) _ => negb (cstring_eqb method (str "Forward"))
              | _ => true
              end.

Definition starved_world : world :=
  mk_world (sample_engine no_failure) ticking_clock ansi_rand strtof_dec
           no_room_after_forward.

(** The trace of the first case of the table of [main]. *)
Definition trace_S1 (w : world) : list event :=
  trace_of w (str "S1") IN 64 1 OUT RUNS.

(** A finite value that is an infinity or not a number. *)
Definition inf_or_nan (f : spec_float) : bool :=
  match f with
  | S754_infinity _ | S754_nan => true
  | _ => false
  end.

(** [x] agrees with the decimal [d] to three decimals. *)
Definition agrees_3_decimals (x d : Q) : Prop :=
  (d - (1 # 2000) <= x /\ x < d + (1 # 2000))%Q.

(** Two output arrays for the parity check.  At index 0 the values are 1
    and 1 + 2^-14, at index 1 they are 1 and 1 + 2^-13; at index 2 the
    binary32 value nearest to 9.99e-5 stands against zero and at index 3
    zero against the one nearest to 1.01e-4; the other values are zero. *)
Definition near_9_99e_5 : spec_float := S754_finite false 13730151 (-37).
Definition near_1_01e_4 : spec_float := S754_finite false 13881334 (-37).

Definition sample_cpu_out : farray :=
  fun i => if i =? 0 then B32.one
           else if i =? 1 then B32.one
           else if i =? 2 then near_9_99e_5
           else B32.zero.

Definition sample_gpu_out : farray :=
  fun i => if i =? 0 then S754_finite false 8389120 (-23)
           else if i =? 1 then S754_finite false 8389632 (-23)
           else if i =? 3 then near_1_01e_4
           else B32.zero.

(** An output array that holds the constant [1e-4f] at index 0. *)
Definition tolerance_cpu_out : farray :=
  fun i => if i =? 0 then lit_1e_4f else B32.zero.
(** ** Predicates on texts and on runs *)

(** The characters of a number are digits and the sign: never a bracket. *)
Definition plain_char (c : ascii) : bool :=
  negb (Ascii.eqb c "]"%char).

(** [wp m Q tr]: running [m] from trace [tr] ends in an outcome and a trace
    that satisfy [Q]. *)
Definition wp {A : Type} (m : M A) (Q : option A -> list event -> Prop)
           (tr : list event) : Prop :=
  Q (fst (m tr)) (snd (m tr)).

(** The events a call and its [steal] add when the answer is copied, or is
    the null pointer. *)
Definition stolen_events (n : nat) (c : call) (r : option cstring) : list event :=
  EvCall c r :: match r with
                | Some _ => [EvCopy n; EvFreeCString n]
                | None => []
                end.

(** The events a call and its [steal] add when [malloc] returns no buffer
    for the copy. *)
Definition released_events (n : nat) (c : call) (r : option cstring) : list event :=
  EvCall c r :: match r with
                | Some _ => [EvFreeCString n]
                | None => []
                end.

(** Whether the copy of the answer to the call [c], made after the trace
    [tr], finds a buffer; true when the answer is the null pointer. *)
Definition copy_ok (w : world) (tr : list event) (c : call) : bool :=
  match engine w tr c with
  | Some s => malloc_ok w (tr ++ [EvCall c (Some s)]) (strlen s + 1)
  | None => true
  end.

(** Every [malloc] of a copy returns a buffer. *)
Definition malloc_succeeds (w : world) : Prop :=
  forall tr n, malloc_ok w tr n = true.

(** What holds at position [k] of the events [es] that follow [pre]: a
    call that returned a buffer is followed by the copy and the release, or
    by the release alone when [malloc] returned no buffer; a copy and a
    release belong to such a call. *)
Definition bracket_at (w : world) (pre es : list event) (k : nat) : Prop :=
  match nth_error es k with
  | Some (EvCall c (Some s)) =>
      if malloc_ok w (pre ++ firstn (S k) es) (strlen s + 1)
      then nth_error es (S k) = Some (EvCopy (List.length pre + k)) /\
           nth_error es (S (S k)) = Some (EvFreeCString (List.length pre + k))
      else nth_error es (S k) = Some (EvFreeCString (List.length pre + k))
  | Some (EvCopy b) =>
      exists k' c s, k = S k' /\ b = (List.length pre + k')%nat /\
                     nth_error es k' = Some (EvCall c (Some s)) /\
                     malloc_ok w (pre ++ firstn (S k') es) (strlen s + 1) = true
  | Some (EvFreeCString b) =>
      exists k' c s, b = (List.length pre + k')%nat /\
                     nth_error es k' = Some (EvCall c (Some s)) /\
                     k = (if malloc_ok w (pre ++ firstn (S k') es) (strlen s + 1)
                          then S (S k') else S k')
  | _ => True
  end.

(** Steps that keep an invariant of the trace. *)
Definition preserves {A : Type} (I : list event -> Prop) (m : M A) : Prop :=
  forall tr, I tr -> I (snd (m tr)).

(** Steps that add no mark. *)
Definition quiet {A : Type} (m : M A) : Prop :=
  forall tr, marks (snd (m tr)) = marks tr.

(** ** Views of a text and of a trace *)

(** The text does not go on with a digit. *)
Definition ends_number (rest : cstring) : bool :=
  match rest with
  | [] => true
  | a :: _ => negb (isdigit a)
  end.

(** [c] is a space or a tab, what [parse_handle] skips after the colon. *)
Definition is_blank (c : ascii) : bool := Ascii.eqb c " "%char || Ascii.eqb c "009"%char.

(** No character of [s] is [c]. *)
Definition lacks (c : ascii) (s : cstring) : bool :=
  forallb (fun a => negb (Ascii.eqb a c)) s.

(** The needle that stands between [pre] and [tail] begins nowhere in
    [pre]: it is the first occurrence of the needle in the whole text. *)
Fixpoint first_at (needle pre tail : cstring) : bool :=
  match pre with
  | [] => true
  | _ :: pre' =>
      negb (starts_with needle (pre ++ needle ++ tail)) && first_at needle pre' tail
  end.

(** The text does not begin with a number as [strtoll] reads one: it is
    empty, or begins with a character that is neither white space nor a
    digit, and if that is a sign, no digit follows it. *)
Definition no_number (rest : cstring) : bool :=
  match rest with
  | [] => true
  | a :: r =>
      negb (isspace a) && negb (isdigit a)
      && (if Ascii.eqb a "-"%char || Ascii.eqb a "+"%char then ends_number r else true)
  end.

(** A value of [long long], saturated as [strtoll] does. *)
Definition clamp_llong (n : Z) : Z := Z.max LLONG_MIN (Z.min LLONG_MAX n).

(** [strtof] reads the text [t] as the value [v] and stops at the
    separator that follows it. *)
Definition reads (strtof : c_strtof) (t : cstring) (v : spec_float) : Prop :=
  forall (c : ascii) (r : cstring),
    c = ","%char \/ c = "]"%char -> strtof (t ++ c :: r) = (v, c :: r).

(** The array [out] with the values [vals] stored from index [i] on. *)
Definition stored_from (out : farray) (i : Z) (vals : list spec_float) : farray :=
  fun j => if (i <=? j) && (j <? i + Z.of_nat (List.length vals))
           then nth (Z.to_nat (j - i)) vals B32.zero
           else out j.

(** ** Reading a descriptor back

    A reader of the three descriptors, written from their format and not
    from the builders: a JSON array of shape objects with a width and a
    height, of strings, and of booleans.  A number is a run of decimal
    digits; a string has no escapes. *)

(** The text after the prefix [p], if [s] begins with it. *)
Definition expect (p s : cstring) : option cstring :=
  if starts_with p s then Some (skipn (List.length p) s) else None.

(** The value of the decimal digits at the start of [s], from [acc], and
    the text after them. *)
Fixpoint read_nat (s : cstring) (acc : Z) : Z * cstring :=
  match s with
  | a :: r => if isdigit a then read_nat r (10 * acc + digit_val a) else (acc, s)
  | [] => (acc, [])
  end.

Definition read_number (s : cstring) : option (Z * cstring) :=
  match s with
  | a :: _ => if isdigit a then Some (read_nat s 0) else None
  | [] => None
  end.

(** An object with the members Width and Height, in this order. *)
Definition read_shape (s : cstring) : option ((Z * Z) * cstring) :=
  match expect (str "{" ++ quoted "Width" ++ str ":") s with
  | None => None
  | Some s1 =>
      match read_number s1 with
      | None => None
      | Some (width, s2) =>
          match expect (str "," ++ quoted "Height" ++ str ":") s2 with
          | None => None
          | Some s3 =>
              match read_number s3 with
              | None => None
              | Some (height, s4) =>
                  match expect (str "}") s4 with
                  | None => None
                  | Some s5 => Some ((width, height), s5)
                  end
              end
          end
      end
  end.

(** The characters up to the closing quote, and the text after it. *)
Fixpoint until_quote (s : cstring) : option (cstring * cstring) :=
  match s with
  | [] => None
  | a :: r =>
      if Ascii.eqb a "034"%char then Some ([], r)
      else match until_quote r with
           | Some (t, q) => Some (a :: t, q)
           | None => None
           end
  end.

Definition read_string (s : cstring) : option (cstring * cstring) :=
  match s with
  | a :: r => if Ascii.eqb a "034"%char then until_quote r else None
  | [] => None
  end.

Definition read_flag (s : cstring) : option (bool * cstring) :=
  match expect (str "true") s with
  | Some r => Some (true, r)
  | None =>
      match expect (str "false") s with
      | Some r => Some (false, r)
      | None => None
      end
  end.

(** One or more items separated by commas, and the text after the last. *)
Fixpoint read_items {A : Type} (fuel : nat) (item : cstring -> option (A * cstring))
         (s : cstring) : option (list A * cstring) :=
  match fuel with
  | O => None
  | S f =>
      match item s with
      | None => None
      | Some (a, r) =>
          match r with
          | ","%char :: r' =>
              match read_items f item r' with
              | Some (l, q) => Some (a :: l, q)
              | None => None
              end
          | _ => Some ([a], r)
          end
      end
  end.

(** The items of an array that is the whole text. *)
Definition read_array {A : Type} (item : cstring -> option (A * cstring)) (s : cstring)
  : option (list A) :=
  match expect (str "[") s with
  | None => None
  | Some r =>
      match read_items (List.length r) item r with
      | Some (l, q) => if cstring_eqb q (str "]") then Some l else None
      | None => None
      end
  end.

Definition read_shapes : cstring -> option (list (Z * Z)) := read_array read_shape.
Definition read_strings : cstring -> option (list cstring) := read_array read_string.
Definition read_flags : cstring -> option (list bool) := read_array read_flag.

(** The engine calls of a trace, in order. *)
Definition calls (tr : list event) : list call :=
  flat_map (fun e => match e with EvCall c _ => [c] | _ => [] end) tr.

(** The lines printed, in order. *)
Definition prints (tr : list event) : list line :=
  flat_map (fun e => match e with EvPrint l => [l] | _ => [] end) tr.

(** The answers to [Paragon_PerturbWeights], in order. *)
Definition perturbs (tr : list event) : list (option cstring) :=
  flat_map (fun e => match e with
                     | EvCall (Paragon_PerturbWeights _ _ _) r => [r]
                     | _ => []
                     end) tr.

(** [Paragon_Call(h,"Forward",in)] and [Paragon_Call(h,"ExtractOutput","[]")]. *)
Definition forward_call (h : Z) (input : cstring) : call :=
  Paragon_Call h (str "Forward") input.
Definition extract_call (h : Z) : call :=
  Paragon_Call h (str "ExtractOutput") (str "[]").

(** The calls of a timed phase: ten warm-up calls, [runs] timed calls, and
    the request for the output. *)
Definition phase_calls (h : Z) (input : cstring) (runs : Z) : list call :=
  repeat (forward_call h input) (10 + Z.to_nat runs) ++ [extract_call h].

(** The report line of a timed phase with clock readings [t0] and [t1]. *)
Definition time_line (runs : Z) (t0 t1 : spec_float) : line :=
  PrTime (B64.sub t1 t0) (B64.div (B64.of_int runs) (B64.sub t1 t0)).

(** The lines of the parity block for the two output payloads. *)
Definition parity_lines (strtof : c_strtof) (cpu_js gpu_js : cstring) : list line :=
  let c := fst (extract_first_n strtof cpu_js zeros 10) in
  let g := fst (extract_first_n strtof gpu_js zeros 10) in
  PrParityHeader :: map (fun i => PrParityRow (parity_row c g i)) indices10
    ++ [PrMatch (parity_ok c g)].

(** What a timed phase adds to a trace. *)
Definition phase_events (w : world) (h : Z) (input : cstring) (runs : Z)
           (t0 t1 : spec_float) (out : option cstring) (es : list event) : Prop :=
  calls es = phase_calls h input runs /\
  prints es = [time_line runs t0 t1] /\
  marks es = [MClock t0; MClock t1] /\
  perturbs es = [] /\
  exists trx, out = if copy_ok w trx (extract_call h)
                    then engine w trx (extract_call h) else None.

(** What one benchmark case that ran to its end added to the trace: the
    descriptors it built, and along the branches of [run_case] the calls it
    made, the lines it printed, the clock readings it took and the handles it
    released. *)
Definition case_outcome (w : world) (name : cstring)
           (in_dim hidden hidden_layers out_dim runs : Z) (es : list event) : Prop :=
  exists layers activ fully s,
    build_layers_json in_dim hidden hidden_layers out_dim = Some layers /\
    build_activ_json (1 + hidden_layers + 1) = Some activ /\
    build_fully_json (1 + hidden_layers + 1) = Some fully /\
    creations es = [Some s] /\
    let cnew := Paragon_NewNetworkFloat32 layers activ fully true false in
    let head := [PrCase name;
                 PrShape in_dim hidden hidden_layers out_dim
                         (est_vram_mb_fc in_dim hidden hidden_layers out_dim);
                 PrNewNetwork s] in
    if is_error (Some s)
    then calls es = [cnew] /\ prints es = head /\ frees es = [] /\ clock_readings es = []
    else
      exists h s2,
        parse_handle s = Some h /\ perturbs es = [Some s2] /\ frees es = [h] /\
        let cpert := Paragon_PerturbWeights h lit_0_1 42 in
        if is_error (Some s2)
        then calls es = [cnew; cpert] /\ prints es = head ++ [PrPerturbWeights s2] /\
             clock_readings es = []
        else
          exists input s3 s4 t0 t1,
            make_input (c_gen w) in_dim = Some input /\
            enables es = [Some s4] /\
            let cpu := [cnew; cpert; Paragon_DisableGPU h] ++ phase_calls h input runs
                       ++ [Paragon_EnableGPU h] in
            let cpu_lines := head ++ [PrPerturbWeights s2; PrCpu; PrDisableGPU s3;
                                      time_line runs t0 t1; PrGpu; PrEnableGPU s4] in
            if is_error (Some s4)
            then calls es = cpu /\ prints es = cpu_lines /\ clock_readings es = [t0; t1]
            else
              exists t2 t3 cpu_js gpu_js,
                calls es = cpu ++ phase_calls h input runs /\
                clock_readings es = [t0; t1; t2; t3] /\
                prints es = cpu_lines
                            ++ [time_line runs t2 t3;
                                PrSpeedup (B64.div (B64.sub t1 t0) (B64.sub t3 t2))]
                            ++ parity_lines (strtof w) cpu_js gpu_js.

(** An engine that never answers with the null pointer, and whose answers
    to [Paragon_NewNetworkFloat32] have a colon after the ["handle"] marker,
    if they have the marker. *)
Definition engine_answers (w : world) : Prop :=
  (forall tr c, engine w tr c <> None) /\
  (forall tr layers activ fully f1 f2 s,
      engine w tr (Paragon_NewNetworkFloat32 layers activ fully f1 f2) = Some s ->
      parse_handle s <> None).

(** Sizes that are positive [int] values, with a layer count that is an
    [int]. *)
Definition sizes_ok (in_dim hidden hidden_layers out_dim : Z) : Prop :=
  0 < in_dim <= INT_MAX /\ 0 < hidden <= INT_MAX /\
  0 <= hidden_layers <= INT_MAX - 2 /\ 0 < out_dim <= INT_MAX.

(** The handle a creation payload names, 0 when [parse_handle] has no
    value. *)
Definition handle_of (s : cstring) : Z :=
  match parse_handle s with Some h => h | None => 0 end.

(** The calls to [Paragon_NewNetworkFloat32], in order. *)
Definition new_calls (tr : list event) : list call :=
  filter (fun c => match c with Paragon_NewNetworkFloat32 _ _ _ _ _ => true | _ => false end)
         (calls tr).

(** The names of the cases announced, in order. *)
Definition case_names (tr : list event) : list cstring :=
  flat_map (fun l => match l with PrCase name => [name] | _ => [] end) (prints tr).

(** The creation call of a case of the table of [main]. *)
Definition case_call (c : cstring * Z * Z) : call :=
  let '(_, hidden, hidden_layers) := c in
  Paragon_NewNetworkFloat32
    (json_array (map shape_text (layer_widths IN hidden hidden_layers OUT)))
    (json_array (repeat (quoted "relu") (Z.to_nat (hidden_layers + 2))))
    (json_array (repeat (str "true") (Z.to_nat (hidden_layers + 2))))
    true false.

(** The loop of [main] over a table of cases. *)
Definition run_cases (w : world) (cs : list (cstring * Z * Z)) : M unit :=
  fold_right (fun c k => let '(name, hidden, hidden_layers) := c in
                         run_case w name IN hidden hidden_layers OUT RUNS ;;; k)
             (ret tt) cs.

(** ** Sample payloads *)

(** The three values of [payload_output], with their texts. *)
Definition sample_items : list (cstring * spec_float) :=
  [ (str "0.5", S754_finite false 8388608 (-24));
    (str "0.25", S754_finite false 8388608 (-25));
    (str "0.125", S754_finite false 8388608 (-26)) ].

(** An output payload with an empty list, and an array of ones. *)
Definition payload_empty_output : cstring := str "{" ++ quoted "output" ++ str ":[[]]}".
Definition ones : farray := fun _ => B32.one.

(** An output payload whose list holds two numbers, with more text after
    the list, and the same without that text. *)
Definition payload_short_list : cstring :=
  str "{" ++ quoted "output" ++ str ":[[0.5,0.25]]," ++ quoted "shape" ++ str ":[1,2]}".
Definition payload_two_values : cstring :=
  str "{" ++ quoted "output" ++ str ":[[0.5,0.25]]}".

(** A creation payload in which the text ["handle"] first stands as a
    value, and one whose handle is not a number. *)
Definition payload_handle_as_value : cstring :=
  str "{" ++ quoted "kind" ++ str ":" ++ quoted "handle" ++ str "," ++ quoted "n"
      ++ str ":5," ++ quoted "handle" ++ str ":7}".
Definition payload_null_handle : cstring :=
  str "{" ++ quoted "handle" ++ str ": null}".

(** An engine that answers the creation call with the null pointer. *)
Definition null_world : world :=
  mk_world (fun _ c => match c with
                       | Paragon_NewNetworkFloat32 _ _ _ _ _ => None
                       | _ => Some payload_ack
                       end)
           ticking_clock ansi_rand strtof_dec plenty.

(** ** The buffers a case allocates

    [run_case] once more, with the buffers it obtains from [malloc]: the
    three descriptors, the input text and every copy [xstrdup] makes.  Each
    allocation gets a fresh identity, and the allocations, the reads and the
    calls of [free] are logged in order.  The [malloc] of a descriptor and
    of the input text is taken to succeed; the one of [xstrdup] may fail. *)

Inductive mem_op : Type :=
| OpMalloc (id : nat)
| OpUse (id : nat)
| OpFree (id : nat).

(** The allocator: the next fresh identity, and the log. *)
Record heap : Type := mk_heap { next_id : nat; mem_log : list mem_op }.

(** A buffer of the harness: its identity and its bytes.  A pointer to one
    may be null. *)
Definition lbuf : Type := (nat * cstring)%type.
Definition lptr : Type := option lbuf.
Definition bytes (p : lptr) : option cstring := option_map snd p.

(** A step that also threads the allocator. *)
Definition MH (A : Type) : Type := heap -> M (A * heap).

Definition retH {A : Type} (a : A) : MH A := fun hp => ret (a, hp).

Definition bindH {A B : Type} (m : MH A) (f : A -> MH B) : MH B :=
  fun hp => bind (m hp) (fun x => f (fst x) (snd x)).

Notation "x <~ m ;; k" := (bindH m (fun x => k))
  (at level 61, m at next level, right associativity).
Notation "m ;;~ k" := (bindH m (fun _ => k))
  (at level 61, right associativity).

(** A step that does not touch the allocator. *)
Definition liftM {A : Type} (m : M A) : MH A :=
  fun hp => bind m (fun a => ret (a, hp)).

Definition log_op (o : mem_op) : MH unit :=
  fun hp => ret (tt, mk_heap (next_id hp) (mem_log hp ++ [o])).

(** [malloc], and the bytes later stored in the buffer. *)
Definition malloc_h (s : cstring) : MH lbuf :=
  fun hp => ret ((next_id hp, s),
                 mk_heap (S (next_id hp)) (mem_log hp ++ [OpMalloc (next_id hp)])).

(** [free(p)]; nothing happens for the null pointer. *)
Definition free_h (p : lptr) : MH unit :=
  match p with
  | Some (id, _) => log_op (OpFree id)
  | None => retH tt
  end.

(** A read of the buffer [p] points to. *)
Definition use_h (p : lptr) : MH unit :=
  match p with
  | Some (id, _) => log_op (OpUse id)
  | None => retH tt
  end.

Fixpoint repeat_H (n : nat) (body : MH unit) : MH unit :=
  match n with
  | O => retH tt
  | S n' => body ;;~ repeat_H n' body
  end.

(** [xstrdup]: [malloc], then, if it returned a buffer, [memcpy] from the
    engine's buffer. *)
Definition xstrdup_h (w : world) (p : foreign_ptr) : MH lptr :=
  match p with
  | None => retH None
  | Some (buffer, s) =>
      ok <~ liftM (malloc w (strlen s + 1)) ;;
      if ok
      then c <~ malloc_h s ;;
           liftM (emit (EvCopy buffer)) ;;~
           retH (Some c)
      else retH None
  end.

Definition steal_h (w : world) (p : foreign_ptr) : MH lptr :=
  match p with
  | None => retH None
  | Some (buffer, _) =>
      c <~ xstrdup_h w p ;;
      liftM (emit (EvFreeCString buffer)) ;;~
      retH c
  end.

Definition stolen_h (w : world) (c : call) : MH lptr :=
  p <~ liftM (foreign w c) ;; steal_h w p.

(** A builder: the buffer it allocates, holding the text it writes. *)
Definition build_h (text : option cstring) : MH lbuf :=
  s <~ liftM (lift text) ;; malloc_h s.

(** [printf("... %s ...", r)] reads [r]. *)
Definition print_h (mk : cstring -> line) (r : lptr) : MH unit :=
  use_h r ;;~ liftM (print_payload mk (bytes r)).

(** [r = steal(Paragon_Call(h,"Forward",in)); free(r);] *)
Definition forward_once_h (w : world) (h : Z) (input : lbuf) : MH unit :=
  use_h (Some input) ;;~
  r <~ stolen_h w (forward_call h (snd input)) ;;
  free_h r.

Definition measure_h (w : world) (h : Z) (input : lbuf) (runs : Z)
  : MH (spec_float * lptr) :=
  repeat_H 10 (forward_once_h w h input) ;;~
  t0 <~ liftM (now_sec w) ;;
  repeat_H (Z.to_nat runs) (forward_once_h w h input) ;;~
  t1 <~ liftM (now_sec w) ;;
  let elapsed := B64.sub t1 t0 in
  out <~ stolen_h w (extract_call h) ;;
  liftM (emit (EvPrint (PrTime elapsed (B64.div (B64.of_int runs) elapsed)))) ;;~
  retH (elapsed, out).

(** The parity block reads both outputs. *)
Definition parity_h (w : world) (cpu_out gpu_out : lptr) : MH unit :=
  use_h cpu_out ;;~
  use_h gpu_out ;;~
  liftM (parity w (bytes cpu_out) (bytes gpu_out)).

(** The label [cleanup]: [free(layers); free(activ); free(fully);]. *)
Definition cleanup_h (layers activ fully : lbuf) : MH unit :=
  free_h (Some layers) ;;~ free_h (Some activ) ;;~ free_h (Some fully).

(** The label [compare_and_done]:
    [free(cpu_out); free(in); Paragon_Free(h);], and on to [cleanup]. *)
Definition compare_and_done_h (cpu_out : lptr) (input : lbuf) (h : Z)
           (layers activ fully : lbuf) : MH unit :=
  free_h cpu_out ;;~
  free_h (Some input) ;;~
  liftM (emit (EvFree h)) ;;~
  cleanup_h layers activ fully.

Definition run_case_mem (w : world) (name : cstring)
           (in_dim hidden hidden_layers out_dim runs : Z) : MH unit :=
  total_layers <~ liftM (lift (if INT_MAX <? 1 + hidden_layers + 1 then None
                               else Some (1 + hidden_layers + 1))) ;;
  layers <~ build_h (build_layers_json in_dim hidden hidden_layers out_dim) ;;
  activ <~ build_h (build_activ_json total_layers) ;;
  fully <~ build_h (build_fully_json total_layers) ;;
  let est_mb := est_vram_mb_fc in_dim hidden hidden_layers out_dim in
  liftM (emit (EvPrint (PrCase name))) ;;~
  liftM (emit (EvPrint (PrShape in_dim hidden hidden_layers out_dim est_mb))) ;;~
  use_h (Some layers) ;;~ use_h (Some activ) ;;~ use_h (Some fully) ;;~
  r <~ stolen_h w (Paragon_NewNetworkFloat32 (snd layers) (snd activ) (snd fully)
                                             true false) ;;
  print_h PrNewNetwork r ;;~
  use_h r ;;~
  if is_error (bytes r) then free_h r ;;~ cleanup_h layers activ fully else
  use_h r ;;~
  js <~ liftM (lift (bytes r)) ;;
  h <~ liftM (lift (parse_handle js)) ;;
  free_h r ;;~
  r <~ stolen_h w (Paragon_PerturbWeights h lit_0_1 42) ;;
  print_h PrPerturbWeights r ;;~
  use_h r ;;~
  if is_error (bytes r)
  then free_h r ;;~ liftM (emit (EvFree h)) ;;~ cleanup_h layers activ fully else
  free_h r ;;~
  input <~ build_h (make_input (c_gen w) in_dim) ;;
  (* CPU *)
  liftM (emit (EvPrint PrCpu)) ;;~
  r <~ stolen_h w (Paragon_DisableGPU h) ;;
  print_h PrDisableGPU r ;;~
  free_h r ;;~
  cpu <~ measure_h w h input runs ;;
  let cpu_t := fst cpu in
  let cpu_out := snd cpu in
  (* GPU *)
  liftM (emit (EvPrint PrGpu)) ;;~
  r <~ stolen_h w (Paragon_EnableGPU h) ;;
  print_h PrEnableGPU r ;;~
  use_h r ;;~
  if is_error (bytes r)
  then free_h r ;;~ compare_and_done_h cpu_out input h layers activ fully else
  free_h r ;;~
  gpu <~ measure_h w h input runs ;;
  let gpu_t := fst gpu in
  let gpu_out := snd gpu in
  liftM (emit (EvPrint (PrSpeedup (B64.div cpu_t gpu_t)))) ;;~
  parity_h w cpu_out gpu_out ;;~
  free_h gpu_out ;;~
  compare_and_done_h cpu_out input h layers activ fully.

(** *** Checking a log *)

(** [id] taken out of the buffers that are live; [None] when it is not
    among them. *)
Fixpoint remove_one (id : nat) (live : list nat) : option (list nat) :=
  match live with
  | [] => None
  | a :: rest =>
      if Nat.eqb a id then Some rest else option_map (cons a) (remove_one id rest)
  end.

(** The buffers live after the operations [ops], from the live buffers
    [live]; [None] when an operation allocates a live buffer again, or reads
    or frees a buffer that is not live. *)
Fixpoint replay (ops : list mem_op) (live : list nat) : option (list nat) :=
  match ops with
  | [] => Some live
  | OpMalloc id :: rest =>
      if existsb (Nat.eqb id) live then None else replay rest (id :: live)
  | OpUse id :: rest =>
      if existsb (Nat.eqb id) live then replay rest live else None
  | OpFree id :: rest =>
      match remove_one id live with
      | Some live' => replay rest live'
      | None => None
      end
  end.

(** The identity of the buffer a pointer points to, if it is not null. *)
Definition ids_of (p : lptr) : list nat :=
  match p with
  | Some (id, _) => [id]
  | None => []
  end.

(** The operations [added], made when every live buffer is older than
    [lo] and the buffers [needs] are live, leave the buffers [gives] live
    besides those that were, and are accepted by [replay]. *)
Definition effect (lo : nat) (needs : list nat) (added : list mem_op) (gives : list nat)
  : Prop :=
  forall live rest,
    (forall id, In id live -> (id < lo)%nat) ->
    incl needs live ->
    replay (added ++ rest) live = replay rest (gives ++ live).

(** What holds of the result and the allocator after [mh], if it
    completes. *)
Definition hoare {A : Type} (mh : MH A) (hp : heap) (Q : A -> heap -> Prop) : Prop :=
  forall tr, match fst (mh hp tr) with
             | Some x => Q (fst x) (snd x)
             | None => True
             end.

(** *** Relating the two embeddings of [run_case] *)

(** [mh] does what [m] does, the allocator apart: the same trace, and
    results related by [R]. *)
Definition erases {A B : Type} (R : A -> B -> Prop) (mh : MH A) (m : M B) : Prop :=
  forall hp tr,
    snd (mh hp tr) = snd (m tr) /\
    match fst (mh hp tr), fst (m tr) with
    | Some x, Some b => R (fst x) b
    | None, None => True
    | _, _ => False
    end.

(** A step on the allocator alone. *)
Definition pure_h {A : Type} (mh : MH A) : Prop :=
  forall hp tr, exists a hp', mh hp tr = (Some (a, hp'), tr).

(** * Properties *)

(** ** Character buffers *)

Lemma strlen_app (s t : cstring) : strlen (s ++ t) = strlen s + strlen t.
Proof. unfold strlen. rewrite length_app. lia. Qed.

Lemma strlen_nonneg (s : cstring) : 0 <= strlen s.
Proof. unfold strlen. lia. Qed.

Lemma take_all (s : cstring) (n : Z) : strlen s <= n -> take n s = s.
Proof. unfold take, strlen. intros H. apply firstn_all2. lia. Qed.

Lemma take_app_exact (s t : cstring) : take (strlen s) (s ++ t) = s.
Proof.
  unfold take, strlen. rewrite Nat2Z.id, firstn_app, Nat.sub_diag, firstn_all.
  simpl. apply app_nil_r.
Qed.

Lemma to_size_t_small (z : Z) : 0 <= z <= SIZE_MAX -> to_size_t z = z.
Proof. intros H. unfold to_size_t. apply Z.mod_small. lia. Qed.

(** A [snprintf] whose text fits appends it whole. *)
Lemma snprintf_at_fits (b : cbuf) (text : cstring) :
  buf_len b = strlen (buf_data b) ->
  buf_len b + strlen text < buf_cap b ->
  snprintf_at b text
  = Some (mk_cbuf (buf_cap b) (buf_data b ++ text) (buf_len b + strlen text)).
Proof.
  intros Hlen Hfit. unfold snprintf_at.
  pose proof (strlen_nonneg text) as Ht.
  destruct (Z.ltb_spec (buf_cap b - buf_len b) 0); [lia|].
  destruct (Z.eqb_spec (buf_cap b - buf_len b) 0); [lia|].
  destruct (Z.ltb_spec (strlen (buf_data b)) (buf_len b)); [lia|].
  rewrite Hlen at 1. rewrite take_all by lia. rewrite take_all by lia.
  reflexivity.
Qed.

Lemma repeat_snprintf (text : cstring) (n : nat) : forall b : cbuf,
  buf_len b = strlen (buf_data b) ->
  buf_len b + Z.of_nat n * strlen text < buf_cap b ->
  repeat_m n (fun b => snprintf_at b text) b
  = Some (mk_cbuf (buf_cap b) (buf_data b ++ List.concat (repeat text n))
                  (buf_len b + Z.of_nat n * strlen text)).
Proof.
  pose proof (strlen_nonneg text) as Ht.
  induction n as [|n IH]; intros b Hlen Hfit.
  - simpl. rewrite app_nil_r, Z.add_0_r. destruct b; reflexivity.
  - cbn [repeat_m]. rewrite snprintf_at_fits by nia. cbn [obind].
    rewrite IH; cbn [buf_len buf_data buf_cap].
    + f_equal. f_equal.
      * cbn [repeat List.concat]. now rewrite <- app_assoc.
      * lia.
    + rewrite strlen_app. lia.
    + nia.
Qed.

(** ** The text of ["%d"] *)

Lemma fmt_digits_length_le (fuel : nat) : forall (n : Z) (acc : cstring) (k : nat),
  0 <= n < 10 ^ Z.of_nat k -> (1 <= k)%nat ->
  (List.length (fmt_digits fuel n acc) <= List.length acc + k)%nat.
Proof.
  induction fuel as [|f IH]; intros n acc k Hn Hk; cbn [fmt_digits].
  - lia.
  - destruct (Z.ltb_spec n 10) as [Hlt|Hge].
    + cbn [List.length]. lia.
    + destruct k as [|[|k]]; [lia| cbn in Hn; lia |].
      specialize (IH (n / 10) (digit_char (n mod 10) :: acc) (S k)).
      cbn [List.length] in IH.
      assert (0 <= n / 10 < 10 ^ Z.of_nat (S k)).
      { replace (Z.of_nat (S (S k))) with (Z.of_nat (S k) + 1) in Hn by lia.
        rewrite Z.pow_add_r in Hn by lia. change (10 ^ 1) with 10 in Hn.
        split; [apply Z.div_pos; lia|]. apply Z.div_lt_upper_bound; lia. }
      specialize (IH H ltac:(lia)). lia.
Qed.

Lemma fmt_digits_length_ge (fuel : nat) : forall (n : Z) (acc : cstring),
  (List.length acc <= List.length (fmt_digits fuel n acc))%nat.
Proof.
  induction fuel as [|f IH]; intros n acc; cbn [fmt_digits]; [lia|].
  destruct (n <? 10); cbn [List.length]; [lia|].
  specialize (IH (n / 10) (digit_char (n mod 10) :: acc)). cbn [List.length] in IH. lia.
Qed.

Lemma fmt_digits_length_pos (f : nat) (n : Z) (acc : cstring) :
  (List.length acc + 1 <= List.length (fmt_digits (S f) n acc))%nat.
Proof.
  cbn [fmt_digits]. destruct (n <? 10); cbn [List.length]; [lia|].
  pose proof (fmt_digits_length_ge f (n / 10) (digit_char (n mod 10) :: acc)) as H.
  cbn [List.length] in H. lia.
Qed.

Lemma fmt_d_length (z : Z) : in_int z -> 1 <= strlen (fmt_d z) <= 11.
Proof.
  unfold in_int, INT_MIN, INT_MAX, fmt_d, strlen. intros Hz.
  assert (10 ^ Z.of_nat 10 = 10000000000) as Hpow by reflexivity.
  unfold fmt_u.
  destruct (Z.ltb_spec z 0).
  - pose proof (fmt_digits_length_le (S (Z.to_nat (Z.log2 (- z)))) (- z) [] 10
                  ltac:(lia) ltac:(lia)).
    pose proof (fmt_digits_length_ge (S (Z.to_nat (Z.log2 (- z)))) (- z) []).
    cbn [List.length] in *. lia.
  - pose proof (fmt_digits_length_le (S (Z.to_nat (Z.log2 z))) z [] 10 ltac:(lia) ltac:(lia)).
    pose proof (fmt_digits_length_pos (Z.to_nat (Z.log2 z)) z []).
    cbn [List.length] in *. lia.
Qed.

Lemma digit_char_plain (d : Z) : 0 <= d < 10 -> plain_char (digit_char d) = true.
Proof.
  intros H.
  assert (d = 0 \/ d = 1 \/ d = 2 \/ d = 3 \/ d = 4 \/ d = 5 \/ d = 6 \/ d = 7
          \/ d = 8 \/ d = 9) as Hd by lia.
  repeat (destruct Hd as [-> | Hd]; [reflexivity|]). subst d. reflexivity.
Qed.

Lemma fmt_digits_plain (fuel : nat) : forall (n : Z) (acc : cstring),
  forallb plain_char acc = true ->
  forallb plain_char (fmt_digits fuel n acc) = true.
Proof.
  induction fuel as [|f IH]; intros n acc Hacc; cbn [fmt_digits]; [assumption|].
  assert (forallb plain_char (digit_char (n mod 10) :: acc) = true) as Hnext.
  { cbn [forallb]. rewrite digit_char_plain, Hacc; [reflexivity|].
    apply Z.mod_pos_bound. lia. }
  destruct (n <? 10); [assumption|]. now apply IH.
Qed.

Lemma fmt_d_plain (z : Z) : forallb plain_char (fmt_d z) = true.
Proof.
  unfold fmt_d, fmt_u. destruct (z <? 0).
  - cbn [forallb]. rewrite fmt_digits_plain; reflexivity.
  - apply fmt_digits_plain. reflexivity.
Qed.

Lemma shape_text_length (w : Z) : in_int w -> 22 <= strlen (shape_text w) <= 32.
Proof.
  intros Hw. pose proof (fmt_d_length w Hw) as Hd. unfold shape_text.
  repeat rewrite strlen_app. unfold quoted. 
  change (strlen (str "{")) with 1. change (strlen (str ":")) with 1.
  change (strlen (str ",")) with 1. change (strlen (str ":1}")) with 3.
  change (strlen ("034"%char :: str "Width" ++ ["034"%char])) with 7.
  change (strlen ("034"%char :: str "Height" ++ ["034"%char])) with 8.
  lia.
Qed.

Lemma shape_text_plain (w : Z) : forallb plain_char (shape_text w) = true.
Proof.
  unfold shape_text. repeat rewrite forallb_app. rewrite fmt_d_plain. reflexivity.
Qed.

(** ** The descriptors are the JSON arrays of their items *)

Lemma concat_commas (x : cstring) (l : list cstring) :
  List.concat (map (fun t => t ++ str ",") (x :: l)) = join_items (x :: l) ++ str ",".
Proof.
  revert x. induction l as [|y l IH]; intros x.
  - cbn. now rewrite app_nil_r.
  - change (List.concat (map (fun t => t ++ str ",") (x :: y :: l)))
      with ((x ++ str ",") ++ List.concat (map (fun t => t ++ str ",") (y :: l))).
    rewrite IH. change (join_items (x :: y :: l)) with (x ++ str "," ++ join_items (y :: l)).
    now repeat rewrite <- app_assoc.
Qed.

Lemma join_items_snoc (x : cstring) (l : list cstring) (y : cstring) :
  join_items ((x :: l) ++ [y]) = join_items (x :: l) ++ str "," ++ y.
Proof.
  revert x. induction l as [|z l IH]; intros x.
  - reflexivity.
  - change (join_items ((x :: z :: l) ++ [y]))
      with (x ++ str "," ++ join_items ((z :: l) ++ [y])).
    rewrite IH. change (join_items (x :: z :: l)) with (x ++ str "," ++ join_items (z :: l)).
    now repeat rewrite <- app_assoc.
Qed.

Lemma join_items_plain (items : list cstring) :
  Forall (fun t => forallb plain_char t = true) items ->
  forallb plain_char (join_items items) = true.
Proof.
  induction 1 as [|x l Hx Hl IH]; [reflexivity|].
  destruct l as [|y l]; [exact Hx|].
  change (join_items (x :: y :: l)) with (x ++ str "," ++ join_items (y :: l)).
  repeat rewrite forallb_app. rewrite Hx, IH. reflexivity.
Qed.

Lemma snprintf_at_over (cap : Z) (kept rest text : cstring) :
  strlen kept + strlen text < cap ->
  snprintf_at (mk_cbuf cap (kept ++ rest) (strlen kept)) text
  = Some (mk_cbuf cap (kept ++ text) (strlen kept + strlen text)).
Proof.
  intros Hfit. unfold snprintf_at. cbn [buf_cap buf_len buf_data].
  pose proof (strlen_nonneg text). pose proof (strlen_nonneg kept).
  pose proof (strlen_nonneg rest).
  destruct (Z.ltb_spec (cap - strlen kept) 0); [lia|].
  destruct (Z.eqb_spec (cap - strlen kept) 0); [lia|].
  rewrite strlen_app.
  destruct (Z.ltb_spec (strlen kept + strlen rest) (strlen kept)); [lia|].
  rewrite take_app_exact, take_all by lia. reflexivity.
Qed.

Lemma buf_get_inside (cap len : Z) (s : cstring) (i : Z) :
  0 <= i < strlen s ->
  exists c, buf_get (mk_cbuf cap s len) i = Some c /\ nth_error s (Z.to_nat i) = Some c.
Proof.
  intros Hi. unfold buf_get, strlen in *. cbn [buf_data].
  destruct (Z.ltb_spec i 0); [lia|].
  destruct (nth_error s (Z.to_nat i)) as [c|] eqn:E.
  - now exists c.
  - apply nth_error_None in E. lia.
Qed.

Lemma buf_get_last (cap len : Z) (s : cstring) (c : ascii) :
  buf_get (mk_cbuf cap (s ++ [c]) len) (strlen s) = Some c.
Proof.
  unfold buf_get, strlen. cbn [buf_data].
  destruct (Z.ltb_spec (Z.of_nat (List.length s)) 0); [lia|].
  rewrite Nat2Z.id, nth_error_app2, Nat.sub_diag by lia. reflexivity.
Qed.

Lemma forallb_nth_error {A : Type} (p : A -> bool) (l : list A) (n : nat) (a : A) :
  forallb p l = true -> nth_error l n = Some a -> p a = true.
Proof.
  intros Hall Hn. rewrite forallb_forall in Hall. apply Hall.
  eapply nth_error_In; eassumption.
Qed.

(** The closing loop of [build_layers_json] changes nothing while no [']']
    is followed by a comma; here no [']'] comes before the last byte. *)
Lemma fix_commas_noop (plain rest : cstring) (n : nat) : forall (i : Z) (b : cbuf),
  buf_data b = plain ++ rest ->
  forallb plain_char plain = true ->
  1 <= i -> i - 1 + Z.of_nat n <= strlen plain ->
  fix_commas n i b = Some b.
Proof.
  induction n as [|n IH]; intros i b Hdata Hplain Hi Hn; [reflexivity|].
  cbn [fix_commas].
  destruct b as [cap data len]. cbn [buf_data] in Hdata. subst data.
  destruct (buf_get_inside cap len (plain ++ rest) (i - 1)) as [c [Hget Hnth]].
  { rewrite strlen_app. pose proof (strlen_nonneg rest). lia. }
  rewrite Hget. cbn [obind].
  rewrite nth_error_app1 in Hnth by (unfold strlen in Hn; lia).
  pose proof (forallb_nth_error _ _ _ _ Hplain Hnth) as Hc.
  unfold plain_char in Hc. apply negb_true_iff in Hc. rewrite Hc.
  apply IH; [reflexivity | assumption | lia | lia].
Qed.

Lemma strlen_concat_repeat (t : cstring) (n : nat) :
  strlen (List.concat (repeat t n)) = Z.of_nat n * strlen t.
Proof.
  induction n as [|n IH]; [reflexivity|].
  cbn [repeat List.concat]. rewrite strlen_app, IH. lia.
Qed.

Lemma strlen_join_items (items : list cstring) (k : Z) :
  Forall (fun t => strlen t <= k) items ->
  strlen (join_items items) <= (k + 1) * Z.of_nat (List.length items).
Proof.
  induction 1 as [|x l Hx Hl IH]; [cbn; lia|].
  destruct l as [|y l]; [cbn [join_items List.length]; lia|].
  change (join_items (x :: y :: l)) with (x ++ str "," ++ join_items (y :: l)).
  repeat rewrite strlen_app. change (strlen (str ",")) with 1.
  cbn [List.length] in *. lia.
Qed.

Ltac buf_arith :=
  cbn [buf_cap buf_data buf_len app];
  repeat rewrite strlen_app;
  change (strlen []) with 0;
  change (strlen (str "[")) with 1;
  change (strlen (str "]")) with 1;
  change (strlen (str ",")) with 1;
  try lia.

Lemma build_layers_json_ok (in_dim hidden hidden_layers out_dim : Z) :
  in_int in_dim -> in_int hidden -> in_int out_dim ->
  0 <= hidden_layers <= INT_MAX - 2 ->
  build_layers_json in_dim hidden hidden_layers out_dim
  = Some (json_array (map shape_text (layer_widths in_dim hidden hidden_layers out_dim))).
Proof.
  intros Hin Hhid Hout Hhl. unfold build_layers_json, layer_widths, for_n.
  pose proof (shape_text_length _ Hin) as Lin.
  pose proof (shape_text_length _ Hhid) as Lhid.
  pose proof (shape_text_length _ Hout) as Lout.
  unfold INT_MAX in *.
  destruct (Z.ltb_spec 2147483647 (hidden_layers + 2)); [lia|].
  rewrite (to_size_t_small (hidden_layers + 2)) by (unfold SIZE_MAX; lia).
  rewrite to_size_t_small by (unfold SIZE_MAX; lia).
  set (n := Z.to_nat hidden_layers). assert (hidden_layers = Z.of_nat n) as Hn by lia.
  rewrite Hn. clearbody n. clear Hn.
  remember (64 + (Z.of_nat n + 2) * 40) as cap eqn:Hcap.
  (* "[" and the input layer *)
  unfold malloc_buf. rewrite snprintf_at_fits by buf_arith.
  cbn [obind buf_cap buf_data buf_len].
  rewrite snprintf_at_fits by buf_arith.
  cbn [obind buf_cap buf_data buf_len].
  (* the hidden layers *)
  assert (strlen (shape_text hidden ++ str ",") = strlen (shape_text hidden) + 1) as Lh1
    by (rewrite strlen_app; reflexivity).
  assert (strlen (shape_text in_dim ++ str ",") = strlen (shape_text in_dim) + 1) as Li1
    by (rewrite strlen_app; reflexivity).
  rewrite repeat_snprintf; cbn [buf_cap buf_data buf_len].
  2:{ buf_arith. }
  2:{ rewrite Lh1, Li1. change (strlen (str "[")) with 1. 
      assert (Z.of_nat n * (strlen (shape_text hidden) + 1) <= Z.of_nat n * 33)
        by (apply Z.mul_le_mono_nonneg_l; lia).
      lia. }
  cbn [obind buf_cap buf_data buf_len].
  (* the bytes so far end with a comma, which [len--] drops *)
  set (J := join_items (shape_text in_dim :: repeat (shape_text hidden) n)).
  assert ((([] ++ str "[") ++ shape_text in_dim ++ str ",")
            ++ List.concat (repeat (shape_text hidden ++ str ",") n)
          = (str "[" ++ J) ++ [","%char]) as Hdata.
  { subst J.
    replace (repeat (shape_text hidden ++ str ",") n)
      with (map (fun t => t ++ str ",") (repeat (shape_text hidden) n))
      by (rewrite map_repeat; reflexivity).
    rewrite <- app_assoc.
    change ((shape_text in_dim ++ str ",")
              ++ List.concat (map (fun t => t ++ str ",") (repeat (shape_text hidden) n)))
      with (List.concat (map (fun t => t ++ str ",")
                             (shape_text in_dim :: repeat (shape_text hidden) n))).
    rewrite concat_commas. cbn [app]. now rewrite <- app_assoc. }
  assert (0 + strlen (str "[") + strlen (shape_text in_dim ++ str ",")
          + Z.of_nat n * strlen (shape_text hidden ++ str ",") - 1
          = strlen (str "[" ++ J)) as Hlen.
  { apply (f_equal strlen) in Hdata. revert Hdata. buf_arith.
    rewrite strlen_concat_repeat. change (strlen [","%char]) with 1. lia. }
  rewrite Hdata, Hlen. clear Hdata Hlen.
  rewrite buf_get_last. cbn [obind]. rewrite Ascii.eqb_refl.
  (* the output layer *)
  assert (forallb plain_char (str "[" ++ J) = true) as HJ.
  { rewrite forallb_app. subst J. rewrite join_items_plain; [reflexivity|].
    constructor; [apply shape_text_plain|].
    apply Forall_forall. intros t Ht. apply repeat_spec in Ht. subst t.
    apply shape_text_plain. }
  assert (strlen J <= 33 * (Z.of_nat n + 1)) as LJ.
  { subst J.
    pose proof (strlen_join_items (shape_text in_dim :: repeat (shape_text hidden) n) 32) as HL.
    cbn [List.length] in HL. rewrite repeat_length in HL.
    assert (Forall (fun t => strlen t <= 32)
                   (shape_text in_dim :: repeat (shape_text hidden) n)) as HF.
    { constructor; [lia|]. apply Forall_forall. intros t Ht.
      apply repeat_spec in Ht. subst t. lia. }
    specialize (HL HF). lia. }
  rewrite snprintf_at_over by buf_arith.
  cbn [obind buf_cap buf_data buf_len].
  (* the closing loop finds no bracket before a comma *)
  rewrite (fix_commas_noop ((str "[" ++ J) ++ str "," ++ shape_text out_dim) (str "]")).
  - cbn [obind buf_data]. f_equal. unfold json_array. subst J.
    change (shape_text in_dim :: repeat (shape_text hidden) n)
      with ([shape_text in_dim] ++ repeat (shape_text hidden) n).
    cbn [map]. rewrite map_app, map_repeat. cbn [map].
    change (shape_text in_dim :: repeat (shape_text hidden) n ++ [shape_text out_dim])
      with ((shape_text in_dim :: repeat (shape_text hidden) n) ++ [shape_text out_dim]).
    rewrite join_items_snoc. now repeat rewrite <- app_assoc.
  - cbn [buf_data]. now repeat rewrite <- app_assoc.
  - repeat rewrite forallb_app. rewrite forallb_app in HJ. rewrite HJ, shape_text_plain.
    reflexivity.
  - lia.
  - pose proof (strlen_nonneg J). buf_arith.
Qed.

Lemma items_loop_ok (item : cstring) (total_layers : Z) (n : nat) : forall (i : Z) (b : cbuf),
  i + Z.of_nat n = total_layers ->
  buf_len b = strlen (buf_data b) ->
  buf_len b + Z.of_nat n * (strlen item + 1) < buf_cap b ->
  items_loop item total_layers n i b
  = Some (mk_cbuf (buf_cap b) (buf_data b ++ join_items (repeat item n))
                  (buf_len b + strlen (join_items (repeat item n)))).
Proof.
  pose proof (strlen_nonneg item) as Hitem.
  induction n as [|n IH]; intros i b Hi Hlen Hfit.
  - cbn [items_loop repeat join_items]. rewrite app_nil_r. change (strlen []) with 0.
    rewrite Z.add_0_r. destruct b; reflexivity.
  - cbn [items_loop]. rewrite snprintf_at_fits by nia. cbn [obind].
    destruct n as [|n].
    + destruct (Z.ltb_spec i (total_layers - 1)); [lia|]. cbn [obind items_loop].
      reflexivity.
    + destruct (Z.ltb_spec i (total_layers - 1)); [|lia].
      rewrite snprintf_at_fits by (buf_arith; nia).
      cbn [obind]. rewrite IH by (buf_arith; nia).
      cbn [buf_cap buf_data buf_len]. f_equal.
      change (join_items (repeat item (S (S n))))
        with (item ++ str "," ++ join_items (repeat item (S n))).
      f_equal.
      * now repeat rewrite <- app_assoc.
      * buf_arith.
Qed.

Lemma build_items_json_ok (per_item : Z) (item : cstring) (total_layers : Z) :
  strlen item + 1 <= per_item <= 40 ->
  0 <= total_layers <= INT_MAX ->
  build_items_json per_item item total_layers
  = Some (json_array (repeat item (Z.to_nat total_layers))).
Proof.
  intros Hper Htot. unfold build_items_json, json_array, INT_MAX in *.
  pose proof (strlen_nonneg item) as Hitem.
  rewrite (to_size_t_small total_layers) by (unfold SIZE_MAX; lia).
  rewrite to_size_t_small by (unfold SIZE_MAX; nia).
  unfold malloc_buf. rewrite snprintf_at_fits by (buf_arith; nia).
  cbn [obind buf_cap buf_data buf_len].
  assert (Z.of_nat (Z.to_nat total_layers) * (strlen item + 1) <= total_layers * per_item)
    as Hmul by (rewrite Z2Nat.id by lia; apply Z.mul_le_mono_nonneg_l; lia).
  rewrite items_loop_ok by (buf_arith; nia).
  cbn [obind buf_cap buf_data buf_len].
  pose proof (strlen_join_items (repeat item (Z.to_nat total_layers)) (strlen item)) as HL.
  rewrite repeat_length in HL.
  assert (Forall (fun t => strlen t <= strlen item) (repeat item (Z.to_nat total_layers))) as HF.
  { apply Forall_forall. intros t Ht. apply repeat_spec in Ht. subst t. lia. }
  specialize (HL HF).
  rewrite snprintf_at_fits by (buf_arith; nia).
  cbn [obind buf_data app]. now rewrite <- app_assoc.
Qed.

(** ** Reading the payloads *)

Lemma upd_same (a : farray) (i : Z) (v : spec_float) : upd a i v i = v.
Proof. unfold upd. now rewrite Z.eqb_refl. Qed.

Lemma upd_other (a : farray) (i j : Z) (v : spec_float) : j <> i -> upd a i v j = a j.
Proof. unfold upd. intros H. now destruct (Z.eqb_spec j i). Qed.

(** The loop stores at consecutive indices from [i], at most [fuel] of
    them, and nowhere else. *)
Lemma extract_loop_frame (strtof : c_strtof) (fuel : nat) :
  forall (i n : Z) (p : cstring) (out : farray),
    let r := extract_loop strtof fuel i n p out in
    i <= snd r <= i + Z.of_nat fuel /\
    forall j, ~ (i <= j < snd r) -> fst r j = out j.
Proof.
  induction fuel as [|fuel IH]; intros i n p out; cbn [extract_loop].
  - cbn [fst snd]. split; [lia|reflexivity].
  - destruct (strtof p) as [v p1].
    destruct (strchr p1 (if i =? n - 1 then "]"%char else ","%char)) as [q|].
    + specialize (IH (i + 1) n (tl q) (upd out i v)). cbn zeta in IH.
      destruct IH as [Hw Hframe]. split; [lia|].
      intros j Hj. rewrite Hframe by lia. apply upd_other. lia.
    + cbn [fst snd]. split; [lia|]. intros j Hj. apply upd_other. lia.
Qed.

(** Every element the loop stores is a value [strtof] returned. *)
Lemma extract_loop_values (strtof : c_strtof) (fuel : nat) :
  forall (i n : Z) (p : cstring) (out : farray),
    let r := extract_loop strtof fuel i n p out in
    forall j, i <= j < snd r -> exists q, fst r j = fst (strtof q).
Proof.
  induction fuel as [|fuel IH]; intros i n p out; cbn [extract_loop].
  - cbn [fst snd]. intros j Hj. lia.
  - destruct (strtof p) as [v p1] eqn:Ep.
    destruct (strchr p1 (if i =? n - 1 then "]"%char else ","%char)) as [q|].
    + pose proof (IH (i + 1) n (tl q) (upd out i v)) as Hin.
      pose proof (extract_loop_frame strtof fuel (i + 1) n (tl q) (upd out i v)) as Hfr.
      cbn zeta in Hin, Hfr. destruct Hfr as [Hw Hframe].
      intros j Hj. destruct (Z.eq_dec j i) as [->|Hne].
      * exists p. rewrite Hframe by lia. rewrite upd_same, Ep. reflexivity.
      * apply Hin. lia.
    + cbn [fst snd]. intros j Hj. assert (j = i) as -> by lia.
      exists p. rewrite upd_same, Ep. reflexivity.
Qed.

Lemma extract_first_n_frame (strtof : c_strtof) (js : cstring) (out : farray) (n : Z) :
  let r := extract_first_n strtof js out n in
  0 <= snd r <= Z.max 0 n /\
  forall j, ~ (0 <= j < snd r) -> fst r j = out j.
Proof.
  unfold extract_first_n. destruct (strstr js (str "[[")) as [p|].
  - pose proof (extract_loop_frame strtof (Z.to_nat n) 0 n (skipn 2 p) out) as H.
    cbn zeta in *. destruct H as [Hw Hframe]. split; [lia|assumption].
  - cbn [fst snd]. split; [lia|reflexivity].
Qed.

Lemma commas_app (s t : cstring) : commas (s ++ t) = commas s + commas t.
Proof. unfold commas. rewrite count_occ_app. lia. Qed.

Lemma commas_nonneg (s : cstring) : 0 <= commas s.
Proof. unfold commas. lia. Qed.

Lemma strchr_suffix (c : ascii) (s : cstring) : forall q,
  strchr s c = Some q -> exists pre rest, s = pre ++ c :: rest /\ q = c :: rest.
Proof.
  induction s as [|a s IH]; intros q H; cbn [strchr] in H; [discriminate|].
  destruct (Ascii.eqb_spec a c) as [->|Hne].
  - injection H as <-. now exists [], s.
  - destruct (IH q H) as [pre [rest [-> ->]]]. now exists (a :: pre), rest.
Qed.

Lemma strchr_comma_commas (s q : cstring) :
  strchr s ","%char = Some q -> commas (tl q) < commas s.
Proof.
  intros H. destruct (strchr_suffix _ _ _ H) as [pre [rest [-> ->]]].
  rewrite commas_app. pose proof (commas_nonneg pre) as Hp.
  cbn [tl]. assert (commas (","%char :: rest) = 1 + commas rest) as ->; [|lia].
  unfold commas. cbn [count_occ].
  destruct (ascii_dec ","%char ","%char); [lia|congruence].
Qed.

(** With [c] commas left in the text, the loop below index [n-1] gets at
    most [c] indices further. *)
Lemma extract_loop_commas (strtof : c_strtof) (Hconf : strtof_conforms strtof) (fuel : nat) :
  forall (i n : Z) (p : cstring) (out : farray),
    i + commas p < n - 1 ->
    snd (extract_loop strtof fuel i n p out) <= i + commas p + 1.
Proof.
  induction fuel as [|fuel IH]; intros i n p out Hc; cbn [extract_loop].
  - cbn [snd]. pose proof (commas_nonneg p). lia.
  - destruct (Hconf p) as [[pre Hpre] _].
    destruct (strtof p) as [v p1]. cbn [snd] in Hpre.
    assert (commas p1 <= commas p) as Hle.
    { rewrite Hpre. rewrite commas_app. pose proof (commas_nonneg pre). lia. }
    pose proof (commas_nonneg p1) as H1.
    destruct (Z.eqb_spec i (n - 1)); [lia|].
    destruct (strchr p1 ","%char) as [q|] eqn:Eq.
    + pose proof (strchr_comma_commas _ _ Eq) as Hq.
      pose proof (commas_nonneg (tl q)) as H2.
      specialize (IH (i + 1) n (tl q) (upd out i v) ltac:(lia)). lia.
    + cbn [snd]. lia.
Qed.

Lemma cstring_eq_dec (s t : cstring) : {s = t} + {s <> t}.
Proof. apply list_eq_dec, ascii_dec. Qed.

(** ** The reference [strtof] conforms *)

Lemma skip_space_suffix (s : cstring) : exists pre, s = pre ++ skip_space s.
Proof.
  induction s as [|a s [pre IH]]; [now exists []|]. cbn [skip_space].
  destruct (isspace a); [|now exists []].
  exists (a :: pre). cbn [app]. now f_equal.
Qed.

Lemma take_digits_split (s : cstring) :
  s = fst (take_digits s) ++ snd (take_digits s).
Proof.
  induction s as [|a s IH]; [reflexivity|]. cbn [take_digits].
  destruct (isdigit a); [|reflexivity].
  destruct (take_digits s) as [ds r]. cbn [fst snd app] in *. now f_equal.
Qed.

Lemma app_length_neq {A : Type} (pre s : list A) : pre <> [] -> s <> pre ++ s.
Proof.
  intros Hpre Heq. apply (f_equal (@List.length A)) in Heq.
  rewrite length_app in Heq. destruct pre; [congruence|]. cbn [List.length] in Heq. lia.
Qed.

Lemma strtof_dec_shape (s : cstring) :
  (strtof_dec s = (B32.zero, s)) \/
  (exists pre, pre <> [] /\ s = pre ++ snd (strtof_dec s)).
Proof.
  unfold strtof_dec.
  destruct (skip_space_suffix s) as [sp Hsp].
  set (s1 := skip_space s) in *.
  assert (exists sg neg s2, s1 = sg ++ s2 /\
            match s1 with
            | "-"%char :: r => (true, r)
            | "+"%char :: r => (false, r)
            | _ => (false, s1)
            end = (neg, s2)) as [sg [neg [s2 [Hsg ->]]]].
  { destruct s1 as [|a r]; [now exists [], false, []|].
    destruct (Ascii.eqb_spec a "-"%char) as [->|Hm]; [now exists ["-"%char], true, r|].
    destruct (Ascii.eqb_spec a "+"%char) as [->|Hp]; [now exists ["+"%char], false, r|].
    exists [], false, (a :: r). split; [reflexivity|].
    destruct a as [[] [] [] [] [] [] [] []]; try reflexivity; congruence. }
  pose proof (take_digits_split s2) as Hip.
  destruct (take_digits s2) as [ip s3]. cbn [fst snd] in Hip.
  assert (exists dot fp s4, s3 = dot ++ fp ++ s4 /\
            match s3 with
            | "."%char :: r => take_digits r
            | _ => ([], s3)
            end = (fp, s4)) as [dot [fp [s4 [Hfp ->]]]].
  { destruct s3 as [|a r]; [now exists [], [], []|].
    destruct (Ascii.eqb_spec a "."%char) as [->|Hd].
    - pose proof (take_digits_split r) as Hr. destruct (take_digits r) as [fp s4].
      cbn [fst snd] in Hr. exists ["."%char], fp, s4. split; [|reflexivity].
      cbn [app]. now f_equal.
    - exists [], [], (a :: r). split; [reflexivity|].
      destruct a as [[] [] [] [] [] [] [] []]; try reflexivity; congruence. }
  destruct (ip ++ fp) as [|d ds] eqn:Eds; [now left|].
  right. exists (sp ++ sg ++ ip ++ dot ++ fp). split.
  - intros Hnil. apply app_eq_nil in Hnil as [_ Hnil].
    apply app_eq_nil in Hnil as [_ Hnil]. apply app_eq_nil in Hnil as [Hi Hnil].
    apply app_eq_nil in Hnil as [_ Hf]. subst ip fp. discriminate.
  - assert (s = (sp ++ sg ++ ip ++ dot ++ fp) ++ s4) as Hs.
    { rewrite Hsp, Hsg, Hip, Hfp. now repeat rewrite <- app_assoc. }
    destruct (read_digits (d :: ds) 0); cbn [snd]; exact Hs.
Qed.

Lemma strtof_dec_conforms : strtof_conforms strtof_dec.
Proof.
  intros s. destruct (strtof_dec_shape s) as [H|[pre [Hpre Hs]]].
  - rewrite H. cbn [fst snd]. split; [now exists []|reflexivity].
  - split; [now exists pre|]. intros Heq. rewrite Heq in Hs.
    now apply app_length_neq in Hs.
Qed.

(** ** Reasoning about runs *)

Lemma wp_ret {A : Type} (a : A) Q tr : Q (Some a) tr -> wp (ret a) Q tr.
Proof. exact (fun H => H). Qed.

Lemma wp_undefined {A : Type} (Q : option A -> list event -> Prop) tr :
  Q None tr -> wp undefined Q tr.
Proof. exact (fun H => H). Qed.

Lemma wp_lift {A : Type} (o : option A) Q tr : Q o tr -> wp (lift o) Q tr.
Proof. destruct o; exact (fun H => H). Qed.

Lemma wp_emit (e : event) Q tr : Q (Some tt) (tr ++ [e]) -> wp (emit e) Q tr.
Proof. exact (fun H => H). Qed.

Lemma wp_bind {A B : Type} (m : M A) (f : A -> M B) Q tr :
  wp m (fun a tr1 => match a with
                     | Some x => wp (f x) Q tr1
                     | None => Q None tr1
                     end) tr ->
  wp (bind m f) Q tr.
Proof. unfold wp, bind. destruct (m tr) as [[a|] tr1]; exact (fun H => H). Qed.

Lemma wp_conseq {A : Type} (m : M A) (Q Q' : option A -> list event -> Prop) tr :
  wp m Q tr -> (forall a tr', Q a tr' -> Q' a tr') -> wp m Q' tr.
Proof. unfold wp. auto. Qed.

Lemma stolen_run (w : world) (c : call) (tr : list event) :
  stolen w c tr
  = if copy_ok w tr c
    then (Some (engine w tr c), tr ++ stolen_events (List.length tr) c (engine w tr c))
    else (Some None, tr ++ released_events (List.length tr) c (engine w tr c)).
Proof.
  unfold stolen, bind, foreign, stolen_events, released_events, copy_ok.
  destruct (engine w tr c) as [s|]; cbn [option_map steal xstrdup].
  - unfold bind, malloc.
    destruct (malloc_ok w (tr ++ [EvCall c (Some s)]) (strlen s + 1));
      unfold emit, ret; cbn; now repeat rewrite <- app_assoc.
  - reflexivity.
Qed.

Lemma copy_ok_succeeds (w : world) (tr : list event) (c : call) :
  malloc_succeeds w -> copy_ok w tr c = true.
Proof. intros H. unfold copy_ok. destruct (engine w tr c); [apply H|reflexivity]. Qed.

Lemma wp_stolen (w : world) (c : call) Q tr :
  (copy_ok w tr c = true ->
   Q (Some (engine w tr c)) (tr ++ stolen_events (List.length tr) c (engine w tr c))) ->
  (copy_ok w tr c = false ->
   Q (Some None) (tr ++ released_events (List.length tr) c (engine w tr c))) ->
  wp (stolen w c) Q tr.
Proof.
  intros Hyes Hno. unfold wp. rewrite stolen_run.
  destruct (copy_ok w tr c); [now apply Hyes|now apply Hno].
Qed.

Lemma wp_now_sec (w : world) Q tr :
  Q (Some (clock w tr)) (tr ++ [EvClock (clock w tr)]) -> wp (now_sec w) Q tr.
Proof. exact (fun H => H). Qed.

Lemma wp_print_payload (mk : cstring -> line) (r : option cstring) Q tr :
  match r with
  | Some s => Q (Some tt) (tr ++ [EvPrint (mk s)])
  | None => Q None tr
  end ->
  wp (print_payload mk r) Q tr.
Proof. destruct r; exact (fun H => H). Qed.

Lemma preserves_wp {A : Type} (I : list event -> Prop) (m : M A) Q tr :
  preserves I m -> I tr -> (forall a tr', I tr' -> Q a tr') -> wp m Q tr.
Proof. unfold wp. auto. Qed.

Section Preserves.
Variable w : world.
Variable I : list event -> Prop.

Lemma preserves_ret {A : Type} (a : A) : preserves I (ret a).
Proof. intros tr H. exact H. Qed.

Lemma preserves_undefined {A : Type} : preserves I (@undefined A).
Proof. intros tr H. exact H. Qed.

Lemma preserves_lift {A : Type} (o : option A) : preserves I (lift o).
Proof. destruct o; intros tr H; exact H. Qed.

Lemma preserves_bind {A B : Type} (m : M A) (f : A -> M B) :
  preserves I m -> (forall a, preserves I (f a)) -> preserves I (bind m f).
Proof.
  intros Hm Hf tr H. unfold bind. specialize (Hm tr H).
  destruct (m tr) as [[a|] tr1]; cbn [snd] in *; [now apply Hf|assumption].
Qed.

Lemma preserves_repeat_M (n : nat) (body : M unit) :
  preserves I body -> preserves I (repeat_M n body).
Proof.
  intros Hb. induction n as [|n IH]; cbn [repeat_M].
  - apply preserves_ret.
  - apply preserves_bind; [assumption|]. intros _. exact IH.
Qed.

Hypothesis I_local : forall tr e, local_event e -> I tr -> I (tr ++ [e]).
Hypothesis I_stolen : forall tr c, I tr -> I (snd (stolen w c tr)).

Lemma preserves_emit (e : event) : local_event e -> preserves I (emit e).
Proof. intros He tr H. now apply I_local. Qed.

Lemma preserves_stolen (c : call) : preserves I (stolen w c).
Proof. intros tr H. now apply I_stolen. Qed.

Lemma preserves_now_sec : preserves I (now_sec w).
Proof. intros tr H. now apply I_local. Qed.

Lemma preserves_print_payload (mk : cstring -> line) (r : option cstring) :
  preserves I (print_payload mk r).
Proof. destruct r; [(apply preserves_emit; exact Logic.I)|apply preserves_undefined]. Qed.

Lemma preserves_forward_once (h : Z) (input : cstring) :
  preserves I (forward_once w h input).
Proof.
  apply preserves_bind; [apply preserves_stolen|]. intros _. apply preserves_ret.
Qed.

Lemma preserves_measure (h : Z) (input : cstring) (runs : Z) :
  preserves I (measure w h input runs).
Proof.
  unfold measure.
  repeat (first [ progress cbv beta zeta
                | apply preserves_repeat_M
                | apply preserves_forward_once
                | apply preserves_now_sec
                | apply preserves_stolen
                | apply preserves_ret
                | (apply preserves_emit; exact Logic.I)
                | apply preserves_bind; [|intros ?] ]).
Qed.

Lemma preserves_parity (cpu_out gpu_out : option cstring) :
  preserves I (parity w cpu_out gpu_out).
Proof.
  unfold parity, indices10. cbn [fold_right].
  repeat (first [ progress cbv beta zeta
                | apply preserves_lift
                | apply preserves_ret
                | (apply preserves_emit; exact Logic.I)
                | apply preserves_bind; [|intros ?] ]).
Qed.

Lemma preserves_run_case (name : cstring)
      (in_dim hidden hidden_layers out_dim runs : Z) :
  preserves I (run_case w name in_dim hidden hidden_layers out_dim runs).
Proof.
  unfold run_case.
  repeat (first [ progress cbv beta zeta
                | apply preserves_lift
                | apply preserves_ret
                | apply preserves_stolen
                | apply preserves_print_payload
                | apply preserves_measure
                | apply preserves_parity
                | (apply preserves_emit; exact Logic.I)
                | match goal with
                  | |- preserves _ (if ?b then _ else _) => destruct b
                  | |- preserves _ (let '(_, _) := ?p in _) => destruct p
                  end
                | apply preserves_bind; [|intros ?] ]).
Qed.
End Preserves.

(** ** Every returned buffer is released at once *)

Lemma Bracketed_app (w : world) (pre es1 es2 : list event) :
  Bracketed w pre es1 -> Bracketed w (pre ++ es1) es2 -> Bracketed w pre (es1 ++ es2).
Proof.
  intros H. revert es2.
  induction H as [pre|pre c s rest Hok H IH|pre c s rest Hok H IH|pre c rest H IH
                  |pre e rest He H IH];
    intros es2 H2; cbn [app] in *.
  - now rewrite app_nil_r in H2.
  - apply Br_copied; [assumption|]. apply IH. rewrite <- app_assoc. exact H2.
  - apply Br_uncopied; [assumption|]. apply IH. rewrite <- app_assoc. exact H2.
  - apply Br_null. apply IH. rewrite <- app_assoc. exact H2.
  - apply Br_local; [assumption|]. apply IH. rewrite <- app_assoc. exact H2.
Qed.

Lemma Bracketed_local (w : world) (tr : list event) (e : event) :
  local_event e -> Bracketed w [] tr -> Bracketed w [] (tr ++ [e]).
Proof.
  intros He H. apply Bracketed_app; [assumption|].
  apply Br_local; [assumption|constructor].
Qed.

Lemma Bracketed_stolen (w : world) (tr : list event) (c : call) :
  Bracketed w [] tr -> Bracketed w [] (snd (stolen w c tr)).
Proof.
  intros H. rewrite stolen_run. unfold copy_ok, stolen_events, released_events.
  destruct (engine w tr c) as [s|].
  - destruct (malloc_ok w (tr ++ [EvCall c (Some s)]) (strlen s + 1)) eqn:Hok; cbn [snd];
      (apply Bracketed_app; [assumption|]); cbn [app].
    + apply Br_copied; [exact Hok|constructor].
    + apply Br_uncopied; [exact Hok|constructor].
  - cbn [snd]. apply Bracketed_app; [assumption|]. apply Br_null. constructor.
Qed.


Lemma firstn_S_nth {A : Type} (l : list A) (k : nat) (a : A) :
  nth_error l k = Some a -> firstn (S k) l = firstn k l ++ [a].
Proof.
  revert k. induction l as [|x l IH]; intros [|k] H; cbn in *; try discriminate.
  - now injection H as ->.
  - f_equal. now apply IH.
Qed.

Lemma firstn_S_app {A : Type} (front rest : list A) (k : nat) :
  firstn (S (List.length front + k)) (front ++ rest) = front ++ firstn (S k) rest.
Proof.
  rewrite <- Nat.add_succ_r. apply firstn_app_2.
Qed.

Lemma nth_error_front {A : Type} (front rest : list A) (k : nat) :
  nth_error (front ++ rest) (List.length front + k) = nth_error rest k.
Proof.
  rewrite nth_error_app2 by lia. f_equal. lia.
Qed.

(** A position in the rest, seen from before the front. *)
Lemma bracket_at_shift (w : world) (pre front rest : list event) (k : nat) :
  bracket_at w (pre ++ front) rest k ->
  bracket_at w pre (front ++ rest) (List.length front + k).
Proof.
  unfold bracket_at. rewrite nth_error_front.
  destruct (nth_error rest k) as [[c [s|]| b | b | | | ]|]; try exact (fun H => H).
  - rewrite firstn_S_app, app_assoc, length_app, Nat.add_assoc.
    rewrite <- !Nat.add_succ_r, !nth_error_front. exact (fun H => H).
  - intros (k' & c & s & -> & -> & Hcall & Hok).
    exists (List.length front + k')%nat, c, s.
    rewrite firstn_S_app, app_assoc, nth_error_front, length_app.
    repeat split; try assumption; lia.
  - intros (k' & c & s & -> & Hcall & Hk).
    exists (List.length front + k')%nat, c, s.
    rewrite firstn_S_app, app_assoc, nth_error_front, length_app.
    split; [lia|]. split; [assumption|].
    destruct (malloc_ok w ((pre ++ front) ++ firstn (S k') rest) (strlen s + 1)); lia.
Qed.

(** What [Bracketed] says position by position. *)
Lemma Bracketed_nth (w : world) (pre es : list event) :
  Bracketed w pre es -> forall k, bracket_at w pre es k.
Proof.
  induction 1 as [pre|pre c s rest Hok H IH|pre c s rest Hok H IH|pre c rest H IH
                  |pre e rest He H IH]; intros k.
  - unfold bracket_at. now destruct k.
  - destruct k as [|[|[|k]]].
    + unfold bracket_at. cbn [nth_error firstn]. rewrite Hok, Nat.add_0_r. split; reflexivity.
    + unfold bracket_at. cbn [nth_error]. exists 0%nat, c, s. cbn [nth_error firstn].
      rewrite Nat.add_0_r. repeat split. exact Hok.
    + unfold bracket_at. cbn [nth_error]. exists 0%nat, c, s. cbn [nth_error firstn].
      rewrite Hok, Nat.add_0_r. repeat split.
    + exact (bracket_at_shift w pre [_; _; _] rest k (IH k)).
  - destruct k as [|[|k]].
    + unfold bracket_at. cbn [nth_error firstn]. rewrite Hok, Nat.add_0_r. reflexivity.
    + unfold bracket_at. cbn [nth_error]. exists 0%nat, c, s. cbn [nth_error firstn].
      rewrite Hok, Nat.add_0_r. repeat split.
    + exact (bracket_at_shift w pre [_; _] rest k (IH k)).
  - destruct k as [|k].
    + unfold bracket_at. cbn [nth_error]. exact Logic.I.
    + exact (bracket_at_shift w pre [_] rest k (IH k)).
  - destruct k as [|k].
    + unfold bracket_at. cbn [nth_error]. destruct e as [c' [s'|]| | | | | ];
        try exact Logic.I; contradiction.
    + exact (bracket_at_shift w pre [_] rest k (IH k)).
Qed.

(** In a trace that is bracketed from its start, the buffer returned at
    position [i] is released once, right after its copy, or right after the
    call when [malloc] returned no buffer for the copy. *)
Lemma Bracketed_release (w : world) (tr : list event) (i : nat) (c : call) (s : cstring) :
  Bracketed w [] tr ->
  nth_error tr i = Some (EvCall c (Some s)) ->
  let copied := malloc_ok w (firstn (S i) tr) (strlen s + 1) in
  nth_error tr (if copied then S (S i) else S i) = Some (EvFreeCString i) /\
  (forall j, nth_error tr j = Some (EvFreeCString i) -> j = if copied then S (S i) else S i) /\
  (copied = true -> nth_error tr (S i) = Some (EvCopy i)) /\
  (forall j, nth_error tr j = Some (EvCopy i) -> copied = true /\ j = S i).
Proof.
  intros Hbr Hcall copied.
  pose proof (Bracketed_nth w [] tr Hbr) as Hnth.
  pose proof (Hnth i) as Hi. unfold bracket_at in Hi. rewrite Hcall in Hi.
  cbn [app List.length Nat.add] in Hi. fold copied in Hi.
  split; [|split; [|split]].
  - destruct copied; [apply Hi|exact Hi].
  - intros j Hj. specialize (Hnth j). unfold bracket_at in Hnth. rewrite Hj in Hnth.
    destruct Hnth as (k' & c' & s' & Hk & Hcall' & ->).
    cbn [app List.length Nat.add] in *. subst k'.
    rewrite Hcall in Hcall'. injection Hcall' as <- <-. reflexivity.
  - intros Hyes. rewrite Hyes in Hi. apply Hi.
  - intros j Hj. specialize (Hnth j). unfold bracket_at in Hnth. rewrite Hj in Hnth.
    destruct Hnth as (k' & c' & s' & -> & Hk & Hcall' & Hok).
    cbn [app List.length Nat.add] in *. subst k'.
    rewrite Hcall in Hcall'. injection Hcall' as <- <-. split; [exact Hok|reflexivity].
Qed.

(** ** The phases of a run *)

Lemma marks_app (tr es : list event) : marks (tr ++ es) = marks tr ++ marks es.
Proof. apply flat_map_app. Qed.

Lemma frees_marks (tr : list event) :
  frees tr = flat_map (fun m => match m with MFree h => [h] | _ => [] end) (marks tr).
Proof.
  unfold frees, marks. induction tr as [|e tr IH]; [reflexivity|].
  cbn [flat_map]. rewrite flat_map_app, <- IH.
  destruct e as [[] ?| | | | |[]]; reflexivity.
Qed.

Lemma creations_marks (tr : list event) :
  creations tr = flat_map (fun m => match m with MCreate r => [r] | _ => [] end) (marks tr).
Proof.
  unfold creations, marks. induction tr as [|e tr IH]; [reflexivity|].
  cbn [flat_map]. rewrite flat_map_app, <- IH.
  destruct e as [[] ?| | | | |[]]; reflexivity.
Qed.

Lemma enables_marks (tr : list event) :
  enables tr = flat_map (fun m => match m with MEnable r => [r] | _ => [] end) (marks tr).
Proof.
  unfold enables, marks. induction tr as [|e tr IH]; [reflexivity|].
  cbn [flat_map]. rewrite flat_map_app, <- IH.
  destruct e as [[] ?| | | | |[]]; reflexivity.
Qed.

Lemma clock_readings_marks (tr : list event) :
  clock_readings tr
  = flat_map (fun m => match m with MClock t => [t] | _ => [] end) (marks tr).
Proof.
  unfold clock_readings, marks. induction tr as [|e tr IH]; [reflexivity|].
  cbn [flat_map]. rewrite flat_map_app, <- IH.
  destruct e as [[] ?| | | | |[]]; reflexivity.
Qed.

Lemma speedups_marks (tr : list event) :
  speedups tr = flat_map (fun m => match m with MSpeedup x => [x] | _ => [] end) (marks tr).
Proof.
  unfold speedups, marks. induction tr as [|e tr IH]; [reflexivity|].
  cbn [flat_map]. rewrite flat_map_app, <- IH.
  destruct e as [[] ?| | | | |[]]; reflexivity.
Qed.

Lemma quiet_preserves {A : Type} (m : M A) (ms : list mark) :
  quiet m <-> (forall ms, preserves (fun tr => marks tr = ms) m).
Proof.
  split.
  - intros H ms' tr Htr. now rewrite H.
  - intros H tr. now apply (H (marks tr) tr).
Qed.

Lemma marks_local_quiet (ms : list mark) (tr : list event) (e : event) :
  mark_of e = [] -> marks tr = ms -> marks (tr ++ [e]) = ms.
Proof. intros He H. rewrite marks_app, H. cbn. rewrite He. now rewrite app_nil_r. Qed.

Lemma marks_stolen (tr : list event) (n : nat) (c : call) (r : option cstring) :
  marks (tr ++ stolen_events n c r) = marks tr ++ mark_of (EvCall c r).
Proof.
  rewrite marks_app. f_equal. unfold stolen_events.
  destruct r; cbn [marks flat_map]; now rewrite ?app_nil_r.
Qed.

Lemma marks_released (tr : list event) (n : nat) (c : call) (r : option cstring) :
  marks (tr ++ released_events n c r) = marks tr ++ mark_of (EvCall c r).
Proof.
  rewrite marks_app. f_equal. unfold released_events.
  destruct r; cbn [marks flat_map]; now rewrite ?app_nil_r.
Qed.

Lemma stolen_marks (w : world) (c : call) (tr : list event) :
  marks (snd (stolen w c tr)) = marks tr ++ mark_of (EvCall c (engine w tr c)).
Proof.
  rewrite stolen_run.
  destruct (copy_ok w tr c); cbn [snd]; [apply marks_stolen|apply marks_released].
Qed.

Lemma stolen_completes (w : world) (c : call) (tr : list event) :
  exists r, stolen w c tr = (Some r, snd (stolen w c tr)).
Proof. rewrite stolen_run. destruct (copy_ok w tr c); eexists; reflexivity. Qed.

Lemma quiet_ret {A : Type} (a : A) : quiet (ret a).
Proof. intros tr. reflexivity. Qed.

Lemma quiet_lift {A : Type} (o : option A) : quiet (lift o).
Proof. destruct o; intros tr; reflexivity. Qed.

Lemma quiet_bind {A B : Type} (m : M A) (f : A -> M B) :
  quiet m -> (forall a, quiet (f a)) -> quiet (bind m f).
Proof.
  intros Hm Hf tr. unfold bind. specialize (Hm tr).
  destruct (m tr) as [[a|] tr1]; cbn [snd] in *; [now rewrite Hf|assumption].
Qed.

Lemma quiet_emit (e : event) : mark_of e = [] -> quiet (emit e).
Proof. intros He tr. cbn. now apply marks_local_quiet. Qed.

Lemma quiet_stolen (w : world) (c : call) :
  (forall r, mark_of (EvCall c r) = []) -> quiet (stolen w c).
Proof. intros Hc tr. now rewrite stolen_marks, Hc, app_nil_r. Qed.

Lemma quiet_print_payload (mk : cstring -> line) (r : option cstring) :
  (forall s, mark_of (EvPrint (mk s)) = []) -> quiet (print_payload mk r).
Proof. intros H. destruct r; [now apply quiet_emit|intros tr; reflexivity]. Qed.

Lemma quiet_repeat_M (n : nat) (body : M unit) : quiet body -> quiet (repeat_M n body).
Proof.
  intros Hb. induction n as [|n IH]; cbn [repeat_M]; [apply quiet_ret|].
  apply quiet_bind; [assumption|]. intros _. exact IH.
Qed.

Lemma quiet_forward_once (w : world) (h : Z) (input : cstring) :
  quiet (forward_once w h input).
Proof.
  apply quiet_bind; [now apply quiet_stolen|]. intros _. apply quiet_ret.
Qed.

Lemma quiet_parity (w : world) (cpu_out gpu_out : option cstring) :
  quiet (parity w cpu_out gpu_out).
Proof.
  unfold parity, indices10. cbn [fold_right].
  repeat (first [ progress cbv beta zeta
                | apply quiet_lift
                | apply quiet_ret
                | now apply quiet_emit
                | apply quiet_bind; [|intros ?] ]).
Qed.

Lemma wp_quiet {A : Type} (m : M A) Q tr :
  quiet m -> (forall a tr', marks tr' = marks tr -> Q a tr') -> wp m Q tr.
Proof. intros Hm HQ. apply HQ, Hm. Qed.

Lemma forward_once_run (w : world) (h : Z) (input : cstring) (tr : list event) :
  exists tr1, forward_once w h input tr = (Some tt, tr1) /\ marks tr1 = marks tr.
Proof.
  unfold forward_once, bind.
  destruct (stolen_completes w (Paragon_Call h (str "Forward") input) tr) as [r ->].
  eexists. split; [reflexivity|].
  now rewrite stolen_marks, app_nil_r.
Qed.

Lemma repeat_forward_run (w : world) (h : Z) (input : cstring) (n : nat) :
  forall tr, exists tr1,
    repeat_M n (forward_once w h input) tr = (Some tt, tr1) /\ marks tr1 = marks tr.
Proof.
  induction n as [|n IH]; intros tr; cbn [repeat_M].
  - now exists tr.
  - unfold bind. destruct (forward_once_run w h input tr) as [tr1 [-> H1]].
    destruct (IH tr1) as [tr2 [-> H2]]. exists tr2. split; [reflexivity|congruence].
Qed.

(** A timed phase adds its two clock readings, returns their difference,
    and always completes. *)
Lemma measure_run (w : world) (h : Z) (input : cstring) (runs : Z) (tr : list event) :
  exists t0 t1 out tr',
    measure w h input runs tr = (Some (B64.sub t1 t0, out), tr') /\
    marks tr' = marks tr ++ [MClock t0; MClock t1].
Proof.
  unfold measure, bind.
  destruct (repeat_forward_run w h input 10 tr) as [tr1 [-> H1]].
  unfold now_sec at 1.
  destruct (repeat_forward_run w h input (Z.to_nat runs) (tr1 ++ [EvClock (clock w tr1)]))
    as [tr2 [-> H2]].
  unfold now_sec.
  match goal with
  | |- context [stolen w ?c ?t] => destruct (stolen_completes w c t) as [out ->]
  end.
  unfold emit, ret.
  do 4 eexists. split; [reflexivity|].
  rewrite marks_app, stolen_marks, marks_app, H2, marks_app, H1. cbn.
  now rewrite !app_nil_r, <- app_assoc.
Qed.

Lemma wp_measure (w : world) (h : Z) (input : cstring) (runs : Z) Q tr :
  (forall t0 t1 out tr',
      marks tr' = marks tr ++ [MClock t0; MClock t1] ->
      Q (Some (B64.sub t1 t0, out)) tr') ->
  wp (measure w h input runs) Q tr.
Proof.
  intros HQ. unfold wp.
  destruct (measure_run w h input runs tr) as [t0 [t1 [out [tr' [-> H]]]]].
  now apply HQ.
Qed.

Ltac wp_step :=
  lazymatch goal with
  | |- wp (bind _ _) _ _ => apply wp_bind
  | |- wp (ret _) _ _ => apply wp_ret
  | |- wp (lift _) _ _ => apply wp_lift
  | |- wp (emit _) _ _ => apply wp_emit
  | |- wp (stolen _ _) _ _ => apply wp_stolen; intros ?
  | |- wp (print_payload _ _) _ _ => apply wp_print_payload
  | |- wp (measure _ _ _ _) _ _ => apply wp_measure; intros ? ? ? ? ?
  | |- wp (parity _ _ _) _ _ => apply wp_quiet; [apply quiet_parity | intros ? ? ?]
  | |- wp (if ?b then _ else _) _ _ => destruct b eqn:?
  | |- match ?o with Some _ => _ | None => _ end => destruct o eqn:?
  end; cbv beta iota zeta.

Ltac marks_simpl :=
  repeat (first [ rewrite marks_released
                | rewrite marks_stolen
                | rewrite marks_app
                | match goal with
                  | H : marks ?t = _ |- context [marks ?t] => rewrite H
                  end ]);
  cbn [marks flat_map mark_of app stolen_events released_events].


(** The speed-up line is printed at most once, after [Paragon_EnableGPU]
    answered without an error, and it is the quotient of the two elapsed
    times. *)
Lemma run_case_speedup (w : world) (name : cstring)
      (in_dim hidden hidden_layers out_dim runs : Z) :
  wp (run_case w name in_dim hidden hidden_layers out_dim runs)
     (fun _ tr =>
        speedups tr = [] \/
        exists s t0 t1 t2 t3,
          enables tr = [Some s] /\ is_error (Some s) = false /\
          clock_readings tr = [t0; t1; t2; t3] /\
          speedups tr = [B64.div (B64.sub t1 t0) (B64.sub t3 t2)]) [].
Proof.
  unfold run_case.
  repeat wp_step.
  all: first [ left; rewrite speedups_marks; marks_simpl; reflexivity
             | right; do 5 eexists;
               rewrite enables_marks, clock_readings_marks, speedups_marks; marks_simpl;
               repeat split; try reflexivity; eassumption ].
Qed.


(** ** Floating point: digits and shifts *)

Lemma digits2_pos_size (p : positive) : digits2_pos p = Pos.size p.
Proof. induction p as [p IH|p IH|]; cbn; now rewrite ?IH. Qed.

Lemma digits2_pos_bounds (p : positive) :
  2 ^ (Z.pos (digits2_pos p) - 1) <= Z.pos p < 2 ^ Z.pos (digits2_pos p).
Proof.
  rewrite digits2_pos_size. split.
  - pose proof (Pos.size_le p) as H.
    apply Pos2Z.pos_le_pos in H. rewrite Pos2Z.inj_pow in H.
    replace (Z.pos (Pos.size p)) with (Z.pos (Pos.size p) - 1 + 1) in H by lia.
    rewrite Z.pow_add_r in H by lia. change (Z.pos p~0) with (2 * Z.pos p) in H. lia.
  - pose proof (Pos.size_gt p) as H.
    apply Pos2Z.pos_lt_pos in H. now rewrite Pos2Z.inj_pow in H.
Qed.

Lemma digits2_pos_unique (p : positive) (d : Z) :
  2 ^ (d - 1) <= Z.pos p < 2 ^ d -> Z.pos (digits2_pos p) = d.
Proof.
  intros [Hlo Hhi]. pose proof (digits2_pos_bounds p) as [Hlo' Hhi'].
  set (d' := Z.pos (digits2_pos p)) in *.
  assert (0 < d) as Hd.
  { destruct (Z_lt_le_dec 0 d) as [H|H]; [assumption|].
    destruct (Z.eq_dec d 0) as [->|Hne]; [cbn in Hhi; lia|].
    rewrite (Z.pow_neg_r 2 d) in Hhi by lia. lia. }
  destruct (Z_lt_le_dec d d') as [H|H].
  - assert (2 ^ d <= 2 ^ (d' - 1)) by (apply Z.pow_le_mono_r; lia). lia.
  - destruct (Z_lt_le_dec d' d) as [H'|H']; [|lia].
    assert (2 ^ d' <= 2 ^ (d - 1)) by (apply Z.pow_le_mono_r; lia). lia.
Qed.

Lemma iter_pos_nat {A : Type} (f : A -> A) (p : positive) :
  forall x, iter_pos f p x = Nat.iter (Pos.to_nat p) f x.
Proof.
  induction p as [p IH|p IH|]; intros x; cbn [iter_pos].
  - rewrite !IH, Pos2Nat.inj_xI. cbn [Nat.mul]. rewrite Nat.add_0_r.
    rewrite <- Nat.iter_add. now rewrite <- Nat.iter_succ_r.
  - rewrite !IH, Pos2Nat.inj_xO. cbn [Nat.mul]. rewrite Nat.add_0_r.
    now rewrite <- Nat.iter_add.
  - reflexivity.
Qed.

Lemma shr_1_nonneg (m : Z) (r s : bool) :
  0 <= m ->
  shr_1 (Build_shr_record m r s) = Build_shr_record (m / 2) (Z.odd m) (r || s).
Proof.
  intros Hm. rewrite <- Z.div2_div.
  destruct m as [|[p|p|]|p]; try reflexivity. lia.
Qed.

(** Shifting right by [k+1] bits keeps the quotient, the last bit shifted
    out, and whether any bit before it was set. *)
Lemma shr_iter (m : Z) (r s : bool) (k : nat) :
  0 <= m ->
  Nat.iter (S k) shr_1 (Build_shr_record m r s)
  = Build_shr_record (m / 2 ^ (Z.of_nat k + 1)) (Z.odd (m / 2 ^ Z.of_nat k))
                     (r || s || negb (m mod 2 ^ Z.of_nat k =? 0)).
Proof.
  intros Hm. induction k as [|k IH].
  - cbn [Nat.iter]. rewrite shr_1_nonneg by assumption.
    change (2 ^ (Z.of_nat 0 + 1)) with 2. change (2 ^ Z.of_nat 0) with 1.
    rewrite Z.div_1_r, Z.mod_1_r. cbn. now rewrite orb_false_r.
  - change (Nat.iter (S (S k)) shr_1 (Build_shr_record m r s))
      with (shr_1 (Nat.iter (S k) shr_1 (Build_shr_record m r s))).
    rewrite IH. rewrite shr_1_nonneg by (apply Z.div_pos; lia).
    assert (0 < 2 ^ Z.of_nat k) as Hp by (apply Z.pow_pos_nonneg; lia).
    replace (Z.of_nat (S k)) with (Z.of_nat k + 1) by lia.
    f_equal.
    + rewrite Z.div_div by lia. f_equal.
      rewrite (Z.pow_add_r 2 (Z.of_nat k + 1) 1) by lia. reflexivity.
    + rewrite (Z.pow_add_r 2 (Z.of_nat k) 1) by lia. change (2 ^ 1) with 2.
      rewrite Z.rem_mul_r by lia.
      rewrite Zodd_mod.
      pose proof (Z.mod_pos_bound (m / 2 ^ Z.of_nat k) 2 ltac:(lia)) as Hb.
      pose proof (Z.mod_pos_bound m (2 ^ Z.of_nat k) ltac:(lia)) as Hb'.
      assert ((m / 2 ^ Z.of_nat k) mod 2 = 0 \/ (m / 2 ^ Z.of_nat k) mod 2 = 1)
        as [-> | ->] by lia.
      * rewrite Z.mul_0_r, Z.add_0_r. cbn. reflexivity.
      * rewrite Z.mul_1_r. cbn.
        destruct (Z.eqb_spec (m mod 2 ^ Z.of_nat k + 2 ^ Z.of_nat k) 0) as [H2|H2]; [lia|].
        now rewrite !orb_true_r.
Qed.

Lemma shr_iter_exact (m : Z) (k : nat) :
  0 <= m ->
  Nat.iter k shr_1 (Build_shr_record (m * 2 ^ Z.of_nat k) false false)
  = Build_shr_record m false false.
Proof.
  intros Hm. destruct k as [|k].
  { cbn [Nat.iter]. change (2 ^ Z.of_nat 0) with 1. now rewrite Z.mul_1_r. }
  assert (0 < 2 ^ Z.of_nat k) as Hp by (apply Z.pow_pos_nonneg; lia).
  rewrite shr_iter by (apply Z.mul_nonneg_nonneg; lia).
  replace (Z.of_nat (S k)) with (Z.of_nat k + 1) by lia.
  rewrite Z.div_mul by lia.
  rewrite (Z.pow_add_r 2 (Z.of_nat k) 1) by lia. change (2 ^ 1) with 2.
  replace (m * (2 ^ Z.of_nat k * 2)) with ((m * 2) * 2 ^ Z.of_nat k) by lia.
  rewrite Z.div_mul, Z.mod_mul by lia.
  rewrite Z.odd_mul. cbn. now rewrite andb_false_r.
Qed.

Lemma pos_iter_xO (p : positive) (n : positive) :
  Z.pos (Pos.iter xO p n) = Z.pos p * 2 ^ Z.pos n.
Proof.
  rewrite Pos2Nat.inj_iter. rewrite <- (positive_nat_Z n).
  induction (Pos.to_nat n) as [|k IH].
  { change (Z.pos p = Z.pos p * 1). lia. }
  cbn [nat_rect]. rewrite Pos2Z.inj_xO, IH, Nat2Z.inj_succ, Z.pow_succ_r by lia. lia.
Qed.

Lemma digits2_pos_shift (q N : positive) (j : Z) :
  Z.pos q = Z.pos N * 2 ^ j -> 0 <= j ->
  Z.pos (digits2_pos q) = Z.pos (digits2_pos N) + j.
Proof.
  intros Hq Hj. apply digits2_pos_unique. rewrite Hq.
  pose proof (digits2_pos_bounds N) as [Hlo Hhi].
  assert (0 < 2 ^ j) as Hp by (apply Z.pow_pos_nonneg; lia).
  replace (Z.pos (digits2_pos N) + j - 1) with (Z.pos (digits2_pos N) - 1 + j) by lia.
  rewrite !Z.pow_add_r by lia. nia.
Qed.

Lemma digits2_pos_le (p : positive) (n : Z) :
  0 <= n -> Z.pos p < 2 ^ n -> Z.pos (digits2_pos p) <= n.
Proof.
  intros Hn Hp. pose proof (digits2_pos_bounds p) as [Hlo _].
  destruct (Z_lt_le_dec n (Z.pos (digits2_pos p))) as [H|H]; [|assumption].
  assert (2 ^ n <= 2 ^ (Z.pos (digits2_pos p) - 1)) by (apply Z.pow_le_mono_r; lia). lia.
Qed.

(** ** Operations whose result needs no rounding *)

Section Exact.
Variables prec emax : Z.
Hypothesis Hprec : 1 < prec.
Hypothesis Hemax : prec < emax.

Abbreviation dyadic := (dyadic prec).

Lemma binary_round_aux_exact (s : bool) (q N : positive) (j e : Z) :
  Z.pos q = Z.pos N * 2 ^ j -> 0 <= j ->
  Z.pos (digits2_pos N) <= prec ->
  0 <= Z.pos (digits2_pos N) + j - prec ->
  emin prec emax <= e + (Z.pos (digits2_pos N) + j - prec) <= emax - prec ->
  binary_round_aux prec emax s (Z.pos q) e loc_Exact
  = S754_finite s (Z.to_pos (Z.pos N * 2 ^ (prec - Z.pos (digits2_pos N))))
                (e + (Z.pos (digits2_pos N) + j - prec)).
Proof.
  intros Hq Hj Hd Hk He.
  set (d := Z.pos (digits2_pos N)) in *. set (k := d + j - prec) in *.
  assert (0 < 2 ^ (prec - d)) as Hpow by (apply Z.pow_pos_nonneg; lia).
  set (q' := Z.to_pos (Z.pos N * 2 ^ (prec - d))).
  assert (Z.pos q' = Z.pos N * 2 ^ (prec - d)) as Hq' by (subst q'; apply Z2Pos.id; lia).
  assert (Z.pos (digits2_pos q') = prec) as Hdq'
    by (rewrite (digits2_pos_shift q' N (prec - d)) by (assumption || lia); fold d; lia).
  assert (Z.pos q = Z.pos q' * 2 ^ k) as Hqk.
  { rewrite Hq, Hq', <- Z.mul_assoc, <- Z.pow_add_r by lia. do 2 f_equal. lia. }
  assert (shr_fexp prec emax (Z.pos q) e loc_Exact
          = (Build_shr_record (Z.pos q') false false, e + k)) as Hshr1.
  { unfold shr_fexp, fexp. cbn [Zdigits2 shr_record_of_loc].
    rewrite (digits2_pos_shift q N j Hq Hj). fold d.
    replace (Z.max (d + j + e - prec) (emin prec emax) - e) with k by lia.
    unfold shr. destruct k as [|pk|pk] eqn:Ek; [| |lia].
    - f_equal; [|lia]. f_equal. rewrite Hqk. change (2 ^ 0) with 1. lia.
    - f_equal. rewrite iter_pos_nat, Hqk, <- (positive_nat_Z pk).
      apply shr_iter_exact. lia. }
  assert (shr_fexp prec emax (Z.pos q') (e + k) loc_Exact
          = (Build_shr_record (Z.pos q') false false, e + k)) as Hshr2.
  { unfold shr_fexp, fexp. cbn [Zdigits2 shr_record_of_loc]. rewrite Hdq'.
    replace (Z.max (prec + (e + k) - prec) (emin prec emax) - (e + k)) with 0 by lia.
    reflexivity. }
  unfold binary_round_aux. rewrite Hshr1. cbn [shr_m loc_of_shr_record round_nearest_even].
  rewrite Hshr2. cbn [shr_m].
  destruct (Z.leb_spec (e + k) (emax - prec)); [reflexivity|lia].
Qed.

Lemma binary_normalize_exact (n : positive) :
  Z.pos (digits2_pos n) <= prec ->
  binary_normalize prec emax (Z.pos n) 0 false = dyadic n 0.
Proof.
  intros Hd. unfold binary_normalize, binary_round, dyadic.
  set (d := Z.pos (digits2_pos n)) in *.
  assert (fexp prec emax (d + 0) = d - prec) as ->
    by (unfold fexp, emin; pose proof (Pos2Z.is_pos (digits2_pos n)); lia).
  assert (exists mz, shl_align n 0 (d - prec) = (mz, d - prec) /\
                     Z.pos mz = Z.pos n * 2 ^ (prec - d)) as [mz [-> Hmz]].
  { unfold shl_align. destruct (d - prec - 0) as [|p|p] eqn:E.
    - exists n. split; [f_equal; lia|]. replace (prec - d) with 0 by lia.
      change (2 ^ 0) with 1. lia.
    - lia.
    - eexists. split; [reflexivity|]. rewrite pos_iter_xO. do 2 f_equal. lia. }
  rewrite (binary_round_aux_exact false mz n (prec - d) (d - prec)); fold d;
    unfold emin; try lia; try assumption.
  f_equal. lia.
Qed.

Lemma dyadic_mul (N1 N2 : positive) (x1 x2 : Z) :
  Z.pos (digits2_pos N1) <= prec -> Z.pos (digits2_pos N2) <= prec ->
  Z.pos (digits2_pos (N1 * N2)) <= prec ->
  emin prec emax <= x1 + x2 + Z.pos (digits2_pos (N1 * N2)) - prec <= emax - prec ->
  SFmul prec emax (dyadic N1 x1) (dyadic N2 x2) = dyadic (N1 * N2) (x1 + x2).
Proof.
  intros Hd1 Hd2 Hd Hx. unfold dyadic, SFmul. cbn [xorb].
  set (d1 := Z.pos (digits2_pos N1)) in *. set (d2 := Z.pos (digits2_pos N2)) in *.
  set (d := Z.pos (digits2_pos (N1 * N2))) in *.
  assert (0 < 2 ^ (prec - d1)) as Hp1 by (apply Z.pow_pos_nonneg; lia).
  assert (0 < 2 ^ (prec - d2)) as Hp2 by (apply Z.pow_pos_nonneg; lia).
  assert (d1 + d2 - 1 <= d) as Hdd.
  { pose proof (digits2_pos_bounds N1) as [L1 _]. pose proof (digits2_pos_bounds N2) as [L2 _].
    pose proof (digits2_pos_bounds (N1 * N2)) as [_ U]. fold d1 d2 d in L1, L2, U.
    assert (0 < d1) by reflexivity. assert (0 < d2) by reflexivity.
    destruct (Z_lt_le_dec d (d1 + d2 - 1)) as [H'|H']; [|assumption].
    assert (2 ^ d <= 2 ^ (d1 - 1 + (d2 - 1))) as Hle by (apply Z.pow_le_mono_r; lia).
    rewrite Z.pow_add_r in Hle by lia. rewrite Pos2Z.inj_mul in U. nia. }
  rewrite (binary_round_aux_exact false _ (N1 * N2) (prec - d1 + (prec - d2))); fold d.
  - f_equal. lia.
  - rewrite Pos2Z.inj_mul, !Z2Pos.id by lia. rewrite Z.pow_add_r by lia.
    rewrite Pos2Z.inj_mul. ring.
  - lia.
  - assumption.
  - lia.
  - lia.
Qed.

Lemma shl_align_fst (m : positive) (e e' : Z) :
  e' <= e -> Z.pos (fst (shl_align m e e')) = Z.pos m * 2 ^ (e - e').
Proof.
  intros He. unfold shl_align. destruct (e' - e) as [|p|p] eqn:E; cbn [fst].
  - replace (e - e') with 0 by lia. change (2 ^ 0) with 1. lia.
  - lia.
  - rewrite pos_iter_xO. do 2 f_equal. lia.
Qed.

Lemma digits2_pos_mono (p q : positive) :
  (p <= q)%positive -> Z.pos (digits2_pos p) <= Z.pos (digits2_pos q).
Proof.
  intros Hpq. pose proof (digits2_pos_bounds p) as [Lp _].
  pose proof (digits2_pos_bounds q) as [_ Uq].
  destruct (Z_lt_le_dec (Z.pos (digits2_pos q)) (Z.pos (digits2_pos p))) as [H|H]; [|assumption].
  assert (2 ^ Z.pos (digits2_pos q) <= 2 ^ (Z.pos (digits2_pos p) - 1))
    by (apply Z.pow_le_mono_r; lia).
  lia.
Qed.

Lemma dyadic_add (a b : positive) :
  Z.pos (digits2_pos (a + b)) <= prec ->
  SFadd prec emax (dyadic a 0) (dyadic b 0) = dyadic (a + b) 0.
Proof.
  intros Hd.
  pose proof (digits2_pos_mono a (a + b) ltac:(lia)) as Ha.
  pose proof (digits2_pos_mono b (a + b) ltac:(lia)) as Hb.
  unfold dyadic, SFadd.
  set (da := Z.pos (digits2_pos a)) in *. set (db := Z.pos (digits2_pos b)) in *.
  set (d := Z.pos (digits2_pos (a + b))) in *.
  assert (0 < da) by reflexivity. assert (0 < db) by reflexivity.
  assert (0 < 2 ^ (prec - da)) as Hpa by (apply Z.pow_pos_nonneg; lia).
  assert (0 < 2 ^ (prec - db)) as Hpb by (apply Z.pow_pos_nonneg; lia).
  set (ez := Z.min (0 + da - prec) (0 + db - prec)).
  set (A := fst (shl_align (Z.to_pos (Z.pos a * 2 ^ (prec - da))) (0 + da - prec) ez)).
  set (B := fst (shl_align (Z.to_pos (Z.pos b * 2 ^ (prec - db))) (0 + db - prec) ez)).
  assert (Z.pos A = Z.pos a * 2 ^ (- ez)) as HA.
  { subst A. rewrite shl_align_fst by lia. rewrite Z2Pos.id by lia.
    rewrite <- Z.mul_assoc, <- Z.pow_add_r by lia. do 2 f_equal. lia. }
  assert (Z.pos B = Z.pos b * 2 ^ (- ez)) as HB.
  { subst B. rewrite shl_align_fst by lia. rewrite Z2Pos.id by lia.
    rewrite <- Z.mul_assoc, <- Z.pow_add_r by lia. do 2 f_equal. lia. }
  cbn [cond_Zopp Z.add binary_normalize]. unfold binary_round.
  assert (Z.pos (A + B) = Z.pos (a + b) * 2 ^ (- ez)) as HAB
    by (rewrite !Pos2Z.inj_add, HA, HB; ring).
  rewrite (digits2_pos_shift (A + B) (a + b) (- ez) HAB ltac:(lia)). fold d.
  assert (fexp prec emax (d + - ez + ez) = d - prec) as -> by (unfold fexp, emin; lia).
  assert (shl_align (A + B) ez (d - prec) = ((A + B)%positive, ez)) as ->.
  { unfold shl_align. destruct (d - prec - ez) as [|p|p] eqn:E; [reflexivity|reflexivity|lia]. }
  rewrite (binary_round_aux_exact false (A + B) (a + b) (- ez) ez HAB); fold d;
    unfold emin; try lia.
  f_equal. lia.
Qed.

Lemma dyadic_div_pow2 (N : positive) (x y : Z) :
  Z.pos (digits2_pos N) <= prec ->
  emin prec emax <= x - y + Z.pos (digits2_pos N) - 1 - prec ->
  x - y + Z.pos (digits2_pos N) - prec <= emax - prec ->
  SFdiv prec emax (dyadic N x) (dyadic 1 y) = dyadic N (x - y).
Proof.
  intros Hd Hlo Hhi. unfold dyadic, SFdiv. cbn [xorb digits2_pos].
  set (d := Z.pos (digits2_pos N)) in *. assert (0 < d) by reflexivity.
  assert (0 < 2 ^ (prec - d)) as Hp by (apply Z.pow_pos_nonneg; lia).
  assert (0 < 2 ^ (prec - 1)) as Hp1 by (apply Z.pow_pos_nonneg; lia).
  assert (0 < 2 ^ prec) as Hpp by (apply Z.pow_pos_nonneg; lia).
  set (m1 := Z.to_pos (Z.pos N * 2 ^ (prec - d))).
  set (m2 := Z.to_pos (1 * 2 ^ (prec - 1))).
  assert (Z.pos m1 = Z.pos N * 2 ^ (prec - d)) as Hm1 by (subst m1; apply Z2Pos.id; lia).
  assert (Z.pos m2 = 2 ^ (prec - 1)) as Hm2 by (subst m2; rewrite Z2Pos.id; lia).
  assert (Z.pos (digits2_pos m1) = prec) as Hd1
    by (rewrite (digits2_pos_shift m1 N (prec - d)) by (assumption || lia); fold d; lia).
  assert (Z.pos (digits2_pos m2) = prec) as Hd2.
  { rewrite (digits2_pos_shift m2 1 (prec - 1)) by (rewrite ?Hm2; lia). cbn [digits2_pos]. lia. }
  unfold SFdiv_core_binary. cbn [Zdigits2]. rewrite Hd1, Hd2.
  set (e1 := x + d - prec). set (e2 := y + 1 - prec).
  assert (Z.min (fexp prec emax (prec + e1 - (prec + e2))) (e1 - e2) = e1 - e2 - prec) as ->
    by (unfold fexp; subst e1 e2; lia).
  replace (e1 - e2 - (e1 - e2 - prec)) with prec by lia.
  assert (forall s m : Z, 0 < s ->
            match s with
            | Z.pos _ => Z.shiftl m s
            | 0 => m
            | Z.neg _ => 0
            end = m * 2 ^ s) as Hsh
    by (intros [|?|?] ? ?; [lia | apply Z.shiftl_mul_pow2; lia | lia]).
  rewrite Hsh by lia.
  assert (Z.pos m1 * 2 ^ prec = Z.pos m2 * (2 * Z.pos m1)) as Hmul.
  { rewrite Hm2. replace prec with (prec - 1 + 1) at 1 by lia.
    rewrite Z.pow_add_r by lia. change (2 ^ 1) with 2. ring. }
  assert (Z.pos m1 * 2 ^ prec / Z.pos m2 = 2 * Z.pos m1) as Hq
    by (rewrite Hmul, (Z.mul_comm (Z.pos m2)); apply Z.div_mul; lia).
  assert ((Z.pos m1 * 2 ^ prec) mod Z.pos m2 = 0) as Hr
    by (rewrite Hmul, (Z.mul_comm (Z.pos m2)); apply Z.mod_mul; lia).
  unfold Z.div, Z.modulo in Hq, Hr.
  destruct (Z.div_eucl (Z.pos m1 * 2 ^ prec) (Z.pos m2)) as [q r]. subst q r.
  assert (new_location (Z.pos m2) 0 = loc_Exact) as ->
    by (unfold new_location, new_location_even, new_location_odd;
        destruct (Z.even (Z.pos m2)); reflexivity).
  change (2 * Z.pos m1) with (Z.pos (m1~0)).
  rewrite (binary_round_aux_exact false (m1~0) N (prec - d + 1)); fold d.
  - f_equal. subst e1 e2. lia.
  - rewrite Pos2Z.inj_xO, Hm1, Z.pow_add_r by lia. change (2 ^ 1) with 2. ring.
  - lia.
  - assumption.
  - lia.
  - subst e1 e2. lia.
Qed.
End Exact.

(** ** The VRAM estimate is exact below [2^53] parameters *)

Lemma digits_below_53 (p : positive) : Z.pos p < 2 ^ 53 -> Z.pos (digits2_pos p) <= 53.
Proof. apply digits2_pos_le. lia. Qed.

Lemma of_int64_exact (n : Z) : 0 <= n < 2 ^ 53 -> B64.of_int n = exact64 n.
Proof.
  intros Hn. destruct n as [|p|p]; [reflexivity| |lia].
  apply (binary_normalize_exact 53 1024); try lia. apply digits_below_53. lia.
Qed.

Lemma mul64_exact (a b : Z) :
  0 <= a -> 0 <= b -> a * b < 2 ^ 53 -> B64.mul (exact64 a) (exact64 b) = exact64 (a * b).
Proof.
  intros Ha Hb Hab.
  destruct a as [|p|p]; [destruct b; reflexivity| |lia].
  destruct b as [|q|q]; [reflexivity| |lia].
  cbn [exact64 Z.mul].
  assert (Z.pos (digits2_pos (p * q)) <= 53) as Hd by (apply digits_below_53; lia).
  apply (dyadic_mul 53 1024); try lia.
  - apply digits_below_53. nia.
  - apply digits_below_53. nia.
  - unfold emin. assert (0 < Z.pos (digits2_pos (p * q))) by reflexivity. lia.
Qed.

Lemma add64_exact (a b : Z) :
  0 <= a -> 0 <= b -> a + b < 2 ^ 53 -> B64.add (exact64 a) (exact64 b) = exact64 (a + b).
Proof.
  intros Ha Hb Hab.
  destruct a as [|p|p]; [destruct b; reflexivity| |lia].
  destruct b as [|q|q]; [reflexivity| |lia].
  cbn [exact64 Z.add].
  apply (dyadic_add 53 1024); try lia. apply digits_below_53. lia.
Qed.

Lemma est_vram_mb_fc_exact (in_dim hidden hidden_layers out_dim : Z) :
  0 < in_dim -> 0 < hidden -> 0 <= hidden_layers -> 0 < out_dim ->
  param_count in_dim hidden hidden_layers out_dim < 2 ^ 53 ->
  est_vram_mb_fc in_dim hidden hidden_layers out_dim
  = dyadic 53 (Z.to_pos (param_count in_dim hidden hidden_layers out_dim)) (-18).
Proof.
  intros Hin Hhid Hhl Hout. unfold param_count, est_vram_mb_fc. intros HT.
  assert (0 < in_dim * hidden) as HA by nia.
  assert (0 <= Z.max 0 (hidden_layers - 1) * (hidden * hidden)) as HB by nia.
  assert (0 < hidden * out_dim) as HC by nia.
  assert (0 <= hidden_layers * hidden) as HD by nia.
  assert (in_dim <= in_dim * hidden) as Hi1 by nia.
  assert (hidden <= in_dim * hidden) as Hh1 by nia.
  assert (hidden_layers <= hidden_layers * hidden) as Hl1 by nia.
  rewrite (of_int64_exact in_dim), (of_int64_exact hidden), (of_int64_exact out_dim),
    (of_int64_exact hidden_layers) by lia.
  rewrite (mul64_exact in_dim hidden) by lia.
  rewrite (mul64_exact hidden out_dim) by lia.
  rewrite (mul64_exact hidden_layers hidden) by lia.
  rewrite (add64_exact (hidden_layers * hidden) out_dim) by lia.
  assert ((if 1 <? hidden_layers
           then B64.add (exact64 (in_dim * hidden))
                  (B64.mul (B64.mul (B64.of_int (hidden_layers - 1)) (exact64 hidden))
                           (exact64 hidden))
           else exact64 (in_dim * hidden))
          = exact64 (in_dim * hidden + Z.max 0 (hidden_layers - 1) * (hidden * hidden))) as ->.
  { destruct (Z.ltb_spec 1 hidden_layers) as [H1|H1].
    - rewrite Z.max_r in * by lia.
      assert ((hidden_layers - 1) * hidden <= (hidden_layers - 1) * (hidden * hidden))
        by (clear - Hhid H1; apply Z.mul_le_mono_nonneg_l; nia).
      assert (0 <= (hidden_layers - 1) * hidden) by (clear - Hhid H1; nia).
      assert ((hidden_layers - 1) * hidden * hidden = (hidden_layers - 1) * (hidden * hidden))
        as Hassoc by ring.
      rewrite of_int64_exact by lia.
      rewrite (mul64_exact (hidden_layers - 1) hidden) by lia.
      rewrite (mul64_exact ((hidden_layers - 1) * hidden) hidden) by lia.
      rewrite add64_exact by lia. f_equal. lia.
    - rewrite Z.max_l by lia. f_equal. ring. }
  rewrite add64_exact by lia. rewrite add64_exact by lia.
  set (T := in_dim * hidden + Z.max 0 (hidden_layers - 1) * (hidden * hidden)
            + hidden * out_dim + (hidden_layers * hidden + out_dim)) in *.
  assert (0 < T) as HTpos by (subst T; nia).
  destruct T as [|t|t] eqn:ET; [lia| |lia]. cbn [exact64 Z.to_pos].
  assert (Z.pos (digits2_pos t) <= 53) as Hd by (apply digits_below_53; lia).
  assert (0 < Z.pos (digits2_pos t)) by reflexivity.
  change lit_4_0 with (dyadic 53 1 2).
  change (B64.mul lit_1024_0 lit_1024_0) with (dyadic 53 1 20).
  unfold B64.mul. rewrite (dyadic_mul 53 1024); rewrite ?Pos.mul_1_r; unfold emin; try lia.
  - unfold B64.div. rewrite (dyadic_div_pow2 53 1024); unfold emin; try lia. reflexivity.
  - cbn. lia.
Qed.

Lemma Qpower_2_add (a b : Z) : (Qpower 2 (a + b) == Qpower 2 a * Qpower 2 b)%Q.
Proof. apply Qpower_plus. discriminate. Qed.

(** The value of [dyadic prec N x] is [N * 2^x]. *)
Lemma SF2Q_dyadic (prec : Z) (N : positive) (x : Z) :
  Z.pos (digits2_pos N) <= prec ->
  exists q, SF2Q (dyadic prec N x) = Some q /\
            (q == inject_Z (Z.pos N) * Qpower 2 x)%Q.
Proof.
  intros Hd. unfold dyadic, SF2Q. eexists. split; [reflexivity|].
  set (d := Z.pos (digits2_pos N)) in *.
  assert (0 < 2 ^ (prec - d)) as Hp by (apply Z.pow_pos_nonneg; lia).
  rewrite Z2Pos.id by lia. rewrite inject_Z_mult, Zpower_Qpower by lia.
  rewrite <- Qmult_assoc. apply Qmult_comp; [reflexivity|].
  change (inject_Z 2) with 2%Q. rewrite <- Qpower_2_add.
  replace (prec - d + (x + d - prec)) with x by lia. reflexivity.
Qed.

(** ** Rounding to nearest *)

Lemma loc_of_shr_record_of_loc (m : Z) (l : location) :
  loc_of_shr_record (shr_record_of_loc m l) = l.
Proof. destruct l as [|[| |]]; reflexivity. Qed.

Lemma shr_m_record_of_loc (m : Z) (l : location) : shr_m (shr_record_of_loc m l) = m.
Proof. destruct l as [|[| |]]; reflexivity. Qed.

Lemma round_nearest_even_cases (m : Z) (l : location) :
  round_nearest_even m l = m \/ round_nearest_even m l = m + 1.
Proof.
  destruct l as [|[| |]]; cbn [round_nearest_even]; auto. destruct (Z.even m); auto.
Qed.

Lemma Zdigits2_pos (m : Z) : 0 < m -> Zdigits2 m = Z.pos (digits2_pos (Z.to_pos m)).
Proof. destruct m; [lia|reflexivity|lia]. Qed.

Section Nearest.
Variables prec emax : Z.
Hypothesis Hprec : 1 < prec.

(** Rounding a mantissa that has enough digits, away from the subnormal
    range: the quotient by [2^k], possibly plus one, and one more shift when
    that reaches [2^prec]; an infinity when the exponent is too large. *)
Lemma binary_round_aux_shifted (s : bool) (q : positive) (e : Z) (l : location) :
  0 <= Z.pos (digits2_pos q) - prec ->
  emin prec emax <= e + (Z.pos (digits2_pos q) - prec) ->
  exists up : bool,
    binary_round_aux prec emax s (Z.pos q) e l
    = (if Z.pos q / 2 ^ (Z.pos (digits2_pos q) - prec) + (if up then 1 else 0) <? 2 ^ prec
       then if e + (Z.pos (digits2_pos q) - prec) <=? emax - prec
            then S754_finite s (Z.to_pos (Z.pos q / 2 ^ (Z.pos (digits2_pos q) - prec)
                                          + (if up then 1 else 0)))
                             (e + (Z.pos (digits2_pos q) - prec))
            else S754_infinity s
       else if e + (Z.pos (digits2_pos q) - prec) + 1 <=? emax - prec
            then S754_finite s (Z.to_pos (2 ^ (prec - 1)))
                             (e + (Z.pos (digits2_pos q) - prec) + 1)
            else S754_infinity s) /\
    (l = loc_Exact -> up = rnd_up (Z.pos q) (Z.pos (digits2_pos q) - prec)).
Proof.
  set (d := Z.pos (digits2_pos q)). set (k := d - prec). intros Hk Hlo.
  pose proof (digits2_pos_bounds q) as [Hdlo Hdhi]. fold d in Hdlo, Hdhi.
  assert (0 < 2 ^ k) as Hpk by (apply Z.pow_pos_nonneg; lia).
  assert (0 < 2 ^ (prec - 1)) as Hpp by (apply Z.pow_pos_nonneg; lia).
  assert (2 ^ prec = 2 * 2 ^ (prec - 1)) as Hprec2.
  { replace prec with (prec - 1 + 1) at 1 by lia. rewrite Z.pow_add_r by lia.
    change (2 ^ 1) with 2. lia. }
  set (m1 := Z.pos q / 2 ^ k).
  assert (2 ^ (prec - 1) <= m1 < 2 ^ prec) as Hm1.
  { subst m1. split.
    - apply Z.div_le_lower_bound; [lia|]. rewrite <- Z.pow_add_r by lia.
      replace (k + (prec - 1)) with (d - 1) by lia. assumption.
    - apply Z.div_lt_upper_bound; [lia|]. rewrite <- Z.pow_add_r by lia.
      replace (k + prec) with d by lia. assumption. }
  (* the first shift *)
  assert (exists rb sb,
            shr_fexp prec emax (Z.pos q) e l = (Build_shr_record m1 rb sb, e + k) /\
            (l = loc_Exact ->
             (if rb then if sb then true else Z.odd m1 else false) = rnd_up (Z.pos q) k))
    as [rb [sb [Hshr1 Hup]]].
  { unfold shr_fexp, fexp. cbn [Zdigits2]. fold d.
    replace (Z.max (d + e - prec) (emin prec emax) - e) with k by lia.
    unfold shr. destruct k as [|pk|pk] eqn:Ek; [| |lia].
    - exists (shr_r (shr_record_of_loc (Z.pos q) l)), (shr_s (shr_record_of_loc (Z.pos q) l)).
      split.
      + f_equal; [|lia]. subst m1. change (2 ^ 0) with 1. rewrite Z.div_1_r.
        destruct l as [|[| |]]; reflexivity.
      + intros ->. reflexivity.
    - rewrite iter_pos_nat.
      destruct (Pos.to_nat pk) as [|k'] eqn:Ek'; [pose proof (Pos2Nat.is_pos pk); lia|].
      assert (Z.pos pk = Z.of_nat k' + 1) as Hkk by lia.
      destruct (shr_record_of_loc (Z.pos q) l) as [m0 r0 s0] eqn:Erec.
      assert (m0 = Z.pos q) as -> by (destruct l as [|[| |]]; now inversion Erec).
      rewrite shr_iter by lia. do 2 eexists. split.
      + f_equal. f_equal. subst m1. now rewrite Hkk.
      + intros ->. cbn in Erec. inversion Erec; subst r0 s0. cbn [orb].
        unfold rnd_up. rewrite Hkk.
        destruct (Z.eqb_spec (Z.of_nat k' + 1) 0); [lia|].
        replace (Z.of_nat k' + 1 - 1) with (Z.of_nat k') by lia.
        subst m1. rewrite Hkk.
        destruct (Z.odd (Z.pos q / 2 ^ Z.of_nat k')),
          (negb (Z.pos q mod 2 ^ Z.of_nat k' =? 0)); reflexivity. }
  set (m2 := round_nearest_even m1 (loc_of_shr_record (Build_shr_record m1 rb sb))).
  exists (negb (m2 =? m1)).
  assert (m2 = m1 + (if negb (m2 =? m1) then 1 else 0)) as Hm2.
  { destruct (round_nearest_even_cases m1 (loc_of_shr_record (Build_shr_record m1 rb sb)))
      as [H|H]; fold m2 in H; rewrite H.
    - rewrite Z.eqb_refl. cbn. lia.
    - destruct (Z.eqb_spec (m1 + 1) m1); [lia|]. reflexivity. }
  rewrite <- Hm2. split.
  - unfold binary_round_aux. rewrite Hshr1. cbn [shr_m]. fold m2.
    assert (0 < m2) as Hm2pos by (rewrite Hm2; destruct (negb (m2 =? m1)); lia).
    destruct (Z.ltb_spec m2 (2 ^ prec)) as [Hlt|Hge].
    + assert (Zdigits2 m2 = prec) as Hdig.
      { rewrite Zdigits2_pos by assumption. apply digits2_pos_unique.
        rewrite Z2Pos.id by assumption. rewrite Hm2 at 1. destruct (negb (m2 =? m1)); lia. }
      unfold shr_fexp, fexp. rewrite Hdig.
      replace (Z.max (prec + (e + k) - prec) (emin prec emax) - (e + k)) with 0 by lia.
      cbn [shr shr_record_of_loc shr_m].
      destruct m2 as [|p2|p2] eqn:E2; [lia| |lia].
      reflexivity.
    + assert (m2 = 2 ^ prec) as Hm2eq by (rewrite Hm2 in *; destruct (negb (m2 =? m1)); lia).
      assert (Zdigits2 m2 = prec + 1) as Hdig.
      { rewrite Zdigits2_pos by assumption. apply digits2_pos_unique.
        rewrite Z2Pos.id by assumption. rewrite Hm2eq.
        replace (prec + 1 - 1) with prec by lia. rewrite Z.pow_add_r by lia.
        change (2 ^ 1) with 2. lia. }
      unfold shr_fexp, fexp. rewrite Hdig.
      replace (Z.max (prec + 1 + (e + k) - prec) (emin prec emax) - (e + k)) with 1 by lia.
      cbn [shr shr_record_of_loc iter_pos]. rewrite shr_1_nonneg by lia. cbn [shr_m].
      rewrite Hm2eq, Hprec2, Z.mul_comm, Z.div_mul by lia.
      destruct (2 ^ (prec - 1)) as [|p2|p2] eqn:E2; [lia| |lia].
      reflexivity.
  - intros Hl. specialize (Hup Hl). rewrite <- Hup. subst m2.
    destruct rb, sb; cbn [loc_of_shr_record round_nearest_even].
    + destruct (Z.eqb_spec (m1 + 1) m1); [lia|]. reflexivity.
    + rewrite <- Z.negb_odd. destruct (Z.odd m1); cbn [negb].
      * destruct (Z.eqb_spec (m1 + 1) m1); [lia|]. reflexivity.
      * now rewrite Z.eqb_refl.
    + now rewrite Z.eqb_refl.
    + now rewrite Z.eqb_refl.
Qed.
(** Rounding a mantissa that has enough digits, away from the subnormal
    range and from overflow: the quotient by [2^k], possibly plus one, and
    one more shift when that reaches [2^prec]. *)
Lemma binary_round_aux_normal (s : bool) (q : positive) (e : Z) (l : location) :
  0 <= Z.pos (digits2_pos q) - prec ->
  emin prec emax <= e + (Z.pos (digits2_pos q) - prec) ->
  e + (Z.pos (digits2_pos q) - prec) + 1 <= emax - prec ->
  exists up : bool,
    binary_round_aux prec emax s (Z.pos q) e l
    = (if Z.pos q / 2 ^ (Z.pos (digits2_pos q) - prec) + (if up then 1 else 0) <? 2 ^ prec
       then S754_finite s (Z.to_pos (Z.pos q / 2 ^ (Z.pos (digits2_pos q) - prec)
                                     + (if up then 1 else 0)))
                        (e + (Z.pos (digits2_pos q) - prec))
       else S754_finite s (Z.to_pos (2 ^ (prec - 1)))
                        (e + (Z.pos (digits2_pos q) - prec) + 1)) /\
    (l = loc_Exact -> up = rnd_up (Z.pos q) (Z.pos (digits2_pos q) - prec)).
Proof.
  intros Hk Hlo Hhi.
  destruct (binary_round_aux_shifted s q e l Hk Hlo) as [up [Heq Hup]].
  exists up. split; [|exact Hup]. rewrite Heq.
  destruct (Z.leb_spec (e + (Z.pos (digits2_pos q) - prec)) (emax - prec)); [|lia].
  destruct (Z.leb_spec (e + (Z.pos (digits2_pos q) - prec) + 1) (emax - prec)); [|lia].
  reflexivity.
Qed.

(** *** Results in normal form *)

Lemma canonical_digits (m : positive) (e : Z) :
  Z.pos (digits2_pos m) = prec -> emin prec emax <= e ->
  canonical_mantissa prec emax m e = true.
Proof.
  intros Hd He. unfold canonical_mantissa, fexp. rewrite Hd. apply Z.eqb_eq. lia.
Qed.

Lemma binary_round_aux_shifted_valid (s : bool) (q : positive) (e : Z) (l : location) :
  0 <= Z.pos (digits2_pos q) - prec ->
  emin prec emax <= e + (Z.pos (digits2_pos q) - prec) ->
  valid_binary prec emax (binary_round_aux prec emax s (Z.pos q) e l) = true.
Proof.
  intros Hk Hlo.
  destruct (binary_round_aux_shifted s q e l Hk Hlo) as [up [-> _]].
  pose proof (digits2_pos_bounds q) as [Hdlo Hdhi].
  remember (Z.pos (digits2_pos q)) as d eqn:Ed. remember (d - prec) as k eqn:Ek.
  assert (0 < 2 ^ k) as Hpk by (apply Z.pow_pos_nonneg; lia).
  assert (2 ^ (prec - 1) <= Z.pos q / 2 ^ k < 2 ^ prec) as Hm1.
  { split.
    - apply Z.div_le_lower_bound; [lia|]. rewrite <- Z.pow_add_r by lia.
      replace (k + (prec - 1)) with (d - 1) by lia. assumption.
    - apply Z.div_lt_upper_bound; [lia|]. rewrite <- Z.pow_add_r by lia.
      replace (k + prec) with d by lia. assumption. }
  assert (0 < 2 ^ (prec - 1)) as Hpp by (apply Z.pow_pos_nonneg; lia).
  destruct (Z.ltb_spec (Z.pos q / 2 ^ k + (if up then 1 else 0)) (2 ^ prec)) as [Hlt|Hge].
  - destruct (Z.leb_spec (e + k) (emax - prec)) as [Hle|Hgt]; [|reflexivity].
    unfold valid_binary, bounded. apply andb_true_iff. split; [|apply Z.leb_le; lia].
    apply canonical_digits; [|lia]. apply digits2_pos_unique.
    rewrite Z2Pos.id by (destruct up; lia). destruct up; lia.
  - destruct (Z.leb_spec (e + k + 1) (emax - prec)) as [Hle|Hgt]; [|reflexivity].
    unfold valid_binary, bounded. apply andb_true_iff. split; [|apply Z.leb_le; lia].
    apply canonical_digits; [|lia]. apply digits2_pos_unique.
    rewrite Z2Pos.id by lia. split; [lia|].
    apply Z.pow_lt_mono_r; lia.
Qed.

(** A mantissa already in normal form is not changed. *)
Lemma binary_round_aux_canonical (s : bool) (q : positive) (e : Z) :
  canonical_mantissa prec emax q e = true ->
  binary_round_aux prec emax s (Z.pos q) e loc_Exact
  = if e <=? emax - prec then S754_finite s q e else S754_infinity s.
Proof.
  unfold canonical_mantissa. rewrite Z.eqb_eq. intros Hcan.
  unfold binary_round_aux, shr_fexp. cbn [Zdigits2 shr_record_of_loc].
  rewrite Hcan, Z.sub_diag. cbn [shr shr_m loc_of_shr_record round_nearest_even Zdigits2].
  rewrite Hcan, Z.sub_diag. reflexivity.
Qed.

Lemma binary_round_valid (s : bool) (p : positive) (e : Z) :
  emin prec emax <= e -> valid_binary prec emax (binary_round prec emax s p e) = true.
Proof.
  intros He. unfold binary_round.
  remember (Z.pos (digits2_pos p)) as d eqn:Ed.
  remember (fexp prec emax (d + e)) as f eqn:Ef.
  assert (f = Z.max (d + e - prec) (emin prec emax)) as Hf by (subst f; reflexivity).
  assert (forall q, canonical_mantissa prec emax q f = true ->
                    valid_binary prec emax (binary_round_aux prec emax s (Z.pos q) f loc_Exact)
                    = true) as Hcanon.
  { intros q Hq. rewrite (binary_round_aux_canonical s q f Hq).
    destruct (Z.leb_spec f (emax - prec)) as [Hle|Hgt]; [|reflexivity].
    unfold valid_binary, bounded. rewrite Hq. apply Z.leb_le. exact Hle. }
  unfold shl_align. destruct (f - e) as [|k|k] eqn:Ek.
  - assert (e = f) as -> by lia. apply Hcanon.
    unfold canonical_mantissa. apply Z.eqb_eq. rewrite <- Ed, <- Ef. reflexivity.
  - apply binary_round_aux_shifted_valid; rewrite <- Ed; lia.
  - apply Hcanon. unfold canonical_mantissa. apply Z.eqb_eq.
    rewrite (digits2_pos_shift (Pos.iter xO p k) p (Z.pos k)) by (apply pos_iter_xO || lia).
    rewrite <- Ed. replace (d + Z.pos k + f) with (d + e) by lia. now rewrite <- Ef.
Qed.

Lemma binary_normalize_valid (m e : Z) (szero : bool) :
  emin prec emax <= e -> valid_binary prec emax (binary_normalize prec emax m e szero) = true.
Proof.
  intros He. destruct m; cbn [binary_normalize]; [reflexivity| |]; now apply binary_round_valid.
Qed.

Lemma valid_exponent (s : bool) (m : positive) (e : Z) :
  valid_binary prec emax (S754_finite s m e) = true -> emin prec emax <= e.
Proof.
  unfold valid_binary, bounded, canonical_mantissa, fexp.
  rewrite andb_true_iff, Z.eqb_eq. lia.
Qed.

(** A difference of two values in normal form is in normal form. *)
Lemma SFsub_valid (x y : spec_float) :
  valid_binary prec emax x = true -> valid_binary prec emax y = true ->
  valid_binary prec emax (SFsub prec emax x y) = true.
Proof.
  intros Hx Hy.
  destruct x as [sx|sx| |sx mx ex], y as [sy|sy| |sy my ey]; cbn [SFsub];
    try reflexivity; try assumption.
  - destruct sx, sy; reflexivity.
  - destruct sx, sy; reflexivity.
  - apply binary_normalize_valid.
    pose proof (valid_exponent _ _ _ Hx). pose proof (valid_exponent _ _ _ Hy). lia.
Qed.

Lemma SFabs_valid (x : spec_float) :
  valid_binary prec emax x = true -> valid_binary prec emax (SFabs x) = true.
Proof. destruct x; intros H; exact H. Qed.

End Nearest.

(** ** [(float)n] for an [int] *)

Lemma digits2_pos_log2 (p : positive) : Z.pos (digits2_pos p) = Z.log2 (Z.pos p) + 1.
Proof.
  apply digits2_pos_unique. pose proof (Z.log2_spec (Z.pos p) ltac:(lia)) as H.
  replace (Z.log2 (Z.pos p) + 1 - 1) with (Z.log2 (Z.pos p)) by lia.
  unfold Z.succ in H. exact H.
Qed.

Lemma rnd_up_spec (n k : Z) :
  0 <= n -> 1 <= k ->
  rnd_up n k = true <->
  (2 ^ k < 2 * (n mod 2 ^ k) \/ (2 * (n mod 2 ^ k) = 2 ^ k /\ Z.odd (n / 2 ^ k) = true)).
Proof.
  intros Hn Hk. unfold rnd_up. destruct (Z.eqb_spec k 0); [lia|].
  set (P := 2 ^ (k - 1)).
  assert (0 < P) as HP by (apply Z.pow_pos_nonneg; lia).
  assert (2 ^ k = 2 * P) as ->.
  { subst P. replace k with (k - 1 + 1) at 1 by lia. rewrite Z.pow_add_r by lia.
    change (2 ^ 1) with 2. lia. }
  pose proof (Z.div_mod n (2 * P) ltac:(lia)) as Hdm.
  pose proof (Z.mod_pos_bound n (2 * P) ltac:(lia)) as Hb.
  set (Q := n / (2 * P)) in *. set (R := n mod (2 * P)) in *.
  destruct (Z_lt_le_dec R P) as [Hlt|Hge].
  - assert (n / P = 2 * Q) as -> by (symmetry; apply (Z.div_unique n P (2 * Q) R); lia).
    rewrite Z.odd_mul. cbn [Z.odd andb]. split; [discriminate|lia].
  - assert (n / P = 1 + 2 * Q) as ->
      by (symmetry; apply (Z.div_unique n P (1 + 2 * Q) (R - P)); lia).
    assert (n mod P = R - P) as ->
      by (symmetry; apply (Z.mod_unique n P (1 + 2 * Q) (R - P)); lia).
    rewrite Z.odd_add_mul_2. cbn [Z.odd andb].
    destruct (Z.eqb_spec (R - P) 0) as [H0|H0]; cbn [negb orb].
    + split; [intros H; right; split; [lia|assumption] | intros [H|[_ H]]; [lia|assumption]].
    + split; [intros _; left; lia | reflexivity].
Qed.

(** With the same quotient, the larger number is rounded up whenever the
    smaller one is. *)
Lemma rnd_up_mono (a b k : Z) :
  0 <= a <= b -> 1 <= k -> a / 2 ^ k = b / 2 ^ k ->
  rnd_up a k = true -> rnd_up b k = true.
Proof.
  intros Hab Hk Hq Ha. apply rnd_up_spec in Ha; [|lia|lia]. apply rnd_up_spec; [lia|lia|].
  assert (0 < 2 ^ k) as HP by (apply Z.pow_pos_nonneg; lia).
  pose proof (Z.div_mod a (2 ^ k) ltac:(lia)) as Hda.
  pose proof (Z.div_mod b (2 ^ k) ltac:(lia)) as Hdb.
  rewrite <- Hq in *.
  assert (a mod 2 ^ k <= b mod 2 ^ k) by lia.
  destruct Ha as [Ha|[Ha Ho]]; [left; lia|].
  destruct (Z.eq_dec (a mod 2 ^ k) (b mod 2 ^ k)) as [He|Hne]; [right; split; [lia|assumption]|].
  left. lia.
Qed.

Lemma log2_digits_bounds (n : Z) :
  0 < n -> 2 ^ (Z.log2 n + 1 - 1) <= n < 2 ^ (Z.log2 n + 1).
Proof.
  intros Hn. pose proof (Z.log2_spec n Hn) as H. unfold Z.succ in H.
  now replace (Z.log2 n + 1 - 1) with (Z.log2 n) by lia.
Qed.

(** The quotient that [rnd24] rounds has exactly 24 bits. *)
Lemma rnd24_quotient (n : Z) :
  0 < n -> 24 < Z.log2 n + 1 ->
  2 ^ 23 <= n / 2 ^ (Z.log2 n + 1 - 24) < 2 ^ 24.
Proof.
  intros Hn Hd. pose proof (log2_digits_bounds n Hn) as [Hlo Hhi].
  set (d := Z.log2 n + 1) in *.
  assert (0 < 2 ^ (d - 24)) as HP by (apply Z.pow_pos_nonneg; lia).
  split.
  - apply Z.div_le_lower_bound; [lia|]. rewrite <- Z.pow_add_r by lia.
    now replace (d - 24 + 23) with (d - 1) by lia.
  - apply Z.div_lt_upper_bound; [lia|]. rewrite <- Z.pow_add_r by lia.
    now replace (d - 24 + 24) with d by lia.
Qed.

Lemma rnd24_normal (n : Z) : 0 < n -> 2 ^ 23 <= fst (rnd24 n) < 2 ^ 24.
Proof.
  intros Hn. unfold rnd24. pose proof (log2_digits_bounds n Hn) as [Hlo Hhi].
  pose proof (Z.log2_nonneg n) as Hl.
  set (d := Z.log2 n + 1) in *. destruct (Z.leb_spec d 24) as [Hd|Hd]; cbn [fst].
  - assert (0 < 2 ^ (24 - d)) as HP by (apply Z.pow_pos_nonneg; lia).
    replace (2 ^ 23) with (2 ^ (d - 1) * 2 ^ (24 - d))
      by (rewrite <- Z.pow_add_r by lia; f_equal; lia).
    replace (2 ^ 24) with (2 ^ d * 2 ^ (24 - d))
      by (rewrite <- Z.pow_add_r by lia; f_equal; lia).
    nia.
  - pose proof (rnd24_quotient n Hn ltac:(fold d; lia)) as Hq. fold d in Hq.
    destruct (Z.ltb_spec (n / 2 ^ (d - 24) + (if rnd_up n (d - 24) then 1 else 0)) (2 ^ 24));
      cbn [fst]; [|lia].
    destruct (rnd_up n (d - 24)); lia.
Qed.

Lemma rnd24_exponent (n : Z) :
  0 < n -> Z.log2 n + 1 - 24 <= snd (rnd24 n) <= Z.max (Z.log2 n + 1 - 24) (Z.log2 n + 2 - 24).
Proof.
  intros Hn. unfold rnd24. set (d := Z.log2 n + 1).
  destruct (Z.leb_spec d 24); cbn [snd]; [lia|].
  destruct (n / 2 ^ (d - 24) + (if rnd_up n (d - 24) then 1 else 0) <? 2 ^ 24); cbn [snd]; lia.
Qed.

Lemma rnd24_mono (a b : Z) : 0 < a <= b -> lexle (rnd24 a) (rnd24 b).
Proof.
  intros [Ha Hab].
  pose proof (Z.log2_le_mono a b Hab) as Hlog.
  pose proof (rnd24_normal a Ha) as Hna. pose proof (rnd24_normal b ltac:(lia)) as Hnb.
  pose proof (Z.log2_nonneg a) as Hla.
  pose proof (rnd24_quotient a Ha) as Hqa.
  pose proof (rnd24_quotient b ltac:(lia)) as Hqb.
  unfold lexle. revert Hna Hnb. unfold rnd24.
  remember (Z.log2 a + 1) as da eqn:Eda. remember (Z.log2 b + 1) as db eqn:Edb.
  assert (da <= db) as Hd by lia.
  destruct (Z.leb_spec da 24) as [Hda|Hda]; destruct (Z.leb_spec db 24) as [Hdb|Hdb];
    cbn [fst snd]; intros Hna Hnb.
  - destruct (Z.eq_dec da db) as [He|Hne]; [|left; lia].
    right. split; [lia|]. rewrite He.
    assert (0 < 2 ^ (24 - db)) by (apply Z.pow_pos_nonneg; lia). nia.
  - left. destruct (_ <? 2 ^ 24); cbn [snd]; lia.
  - lia.
  - specialize (Hqa ltac:(lia)). specialize (Hqb ltac:(lia)).
    destruct (Z.eq_dec da db) as [He|Hne].
    + (* the same number of digits *)
      rewrite <- He in *. clear He.
      assert (0 < 2 ^ (da - 24)) as HP by (apply Z.pow_pos_nonneg; lia).
      assert (a / 2 ^ (da - 24) <= b / 2 ^ (da - 24)) as Hqle
        by (apply Z.div_le_mono; lia).
      assert (a / 2 ^ (da - 24) + (if rnd_up a (da - 24) then 1 else 0)
              <= b / 2 ^ (da - 24) + (if rnd_up b (da - 24) then 1 else 0)) as Hm.
      { destruct (Z.eq_dec (a / 2 ^ (da - 24)) (b / 2 ^ (da - 24))) as [Hq|Hq].
        - rewrite Hq.
          destruct (rnd_up a (da - 24)) eqn:Eua; [|destruct (rnd_up b (da - 24)); lia].
          rewrite (rnd_up_mono a b (da - 24)); [lia|lia|lia|assumption|assumption].
        - destruct (rnd_up a (da - 24)), (rnd_up b (da - 24)); lia. }
      destruct (Z.ltb_spec (a / 2 ^ (da - 24) + (if rnd_up a (da - 24) then 1 else 0))
                           (2 ^ 24));
        destruct (Z.ltb_spec (b / 2 ^ (da - 24) + (if rnd_up b (da - 24) then 1 else 0))
                             (2 ^ 24)); cbn [fst snd] in *; lia.
    + (* fewer digits *)
      destruct (Z.ltb_spec (a / 2 ^ (da - 24) + (if rnd_up a (da - 24) then 1 else 0))
                           (2 ^ 24));
        destruct (Z.ltb_spec (b / 2 ^ (db - 24) + (if rnd_up b (db - 24) then 1 else 0))
                             (2 ^ 24)); cbn [fst snd] in *;
        destruct (rnd_up b (db - 24)); lia.
Qed.

(** *** The values of the input synthesizer *)

Lemma digits2_pos_24 (m : positive) :
  2 ^ 23 <= Z.pos m < 2 ^ 24 -> Z.pos (digits2_pos m) = 24.
Proof.
  intros H. rewrite digits2_pos_log2. rewrite (Z.log2_unique (Z.pos m) 23); lia.
Qed.

(** [(float)n] of a positive [int] has the mantissa and the exponent of
    [rnd24]. *)
Lemma of_int_rnd24 (n : Z) :
  0 < n < 2 ^ 31 ->
  B32.of_int n = S754_finite false (Z.to_pos (fst (rnd24 n))) (snd (rnd24 n)).
Proof.
  intros [Hn Hhi]. destruct n as [|p|p]; try lia.
  unfold B32.of_int, rnd24. rewrite <- digits2_pos_log2.
  pose proof (digits2_pos_bounds p) as [Hdlo Hdhi].
  remember (Z.pos (digits2_pos p)) as d eqn:Ed.
  assert (0 < d) as Hd0 by (subst d; lia).
  assert (d <= 31) as Hd31.
  { destruct (Z.le_gt_cases d 31) as [|Hgt]; [assumption|exfalso].
    assert (2 ^ 31 <= 2 ^ (d - 1)) by (apply Z.pow_le_mono_r; lia). lia. }
  destruct (Z.leb_spec d 24) as [Hle|Hgt].
  - rewrite (binary_normalize_exact B32.prec B32.emax) by (unfold B32.prec, B32.emax; lia).
    unfold dyadic, B32.prec. rewrite <- Ed. cbn [fst snd]. f_equal; lia.
  - unfold binary_normalize, binary_round.
    assert (fexp B32.prec B32.emax (Z.pos (digits2_pos p) + 0) = d - 24) as ->
      by (unfold fexp, emin, B32.prec, B32.emax; lia).
    assert (shl_align p 0 (d - 24) = (p, 0)) as ->.
    { unfold shl_align. destruct (d - 24 - 0) eqn:E; try lia; reflexivity. }
    destruct (binary_round_aux_normal B32.prec B32.emax ltac:(unfold B32.prec; lia) false p 0 loc_Exact)
      as [up [Heq Hup]];
      try (unfold emin, B32.prec, B32.emax; lia).
    rewrite Heq, (Hup eq_refl). unfold B32.prec. rewrite <- Ed.
    change (24 - 1) with 23. rewrite Z.add_0_l. clear Heq Hup.
    destruct (_ <? _); reflexivity.
Qed.

(** The location of an exact quotient. *)
Lemma new_location_zero (n : Z) : new_location n 0 = loc_Exact.
Proof. unfold new_location. destruct (Z.even n); reflexivity. Qed.

(** The binary32 values up to one, by exponent and mantissa. *)
Lemma unit_binary32_finite (m : positive) (e : Z) :
  2 ^ 23 <= Z.pos m < 2 ^ 24 -> -149 <= e ->
  e < -23 \/ (e = -23 /\ m = 8388608%positive) ->
  unit_binary32 (S754_finite false m e).
Proof. intros Hm He H. right. exists m, e. auto. Qed.

Lemma unit_binary32_closed (v : spec_float) : unit_binary32 v -> in_unit_closed v = true.
Proof.
  intros [->|[m [e [-> [_ [_ H]]]]]]; [reflexivity|].
  unfold in_unit_closed, B32.leb, B32.zero, B32.one, SFleb, SFcompare.
  destruct (Z.compare_spec e (-23)) as [He|He|He]; try reflexivity.
  - destruct H as [H|[_ ->]]; [lia|reflexivity].
  - lia.
Qed.

Lemma unit_binary32_valid (v : spec_float) :
  unit_binary32 v -> valid_binary B32.prec B32.emax v = true.
Proof.
  intros [->|[m [e [-> [Hm [He H]]]]]]; [reflexivity|].
  unfold valid_binary, bounded, canonical_mantissa, fexp, emin, B32.prec, B32.emax.
  rewrite (digits2_pos_24 m Hm). apply andb_true_iff. split.
  - apply Z.eqb_eq. lia.
  - apply Z.leb_le. lia.
Qed.

(** A quotient of two normal binary32 values, the divisor the larger one,
    is a normal number up to one. *)
Lemma div_normal_unit (m1 m2 : positive) (e1 e2 : Z) :
  2 ^ 23 <= Z.pos m1 < 2 ^ 24 -> 2 ^ 23 <= Z.pos m2 < 2 ^ 24 ->
  -32 <= e1 <= 32 -> -32 <= e2 <= 32 ->
  lexle (Z.pos m1, e1) (Z.pos m2, e2) ->
  unit_binary32 (B32.div (S754_finite false m1 e1) (S754_finite false m2 e2)).
Proof.
  intros H1 H2 He1 He2 Hle. unfold lexle in Hle. cbn [fst snd] in Hle.
  unfold B32.div, SFdiv, SFdiv_core_binary. cbn [Zdigits2 xorb].
  rewrite (digits2_pos_24 m1 H1), (digits2_pos_24 m2 H2).
  assert (Z.min (fexp B32.prec B32.emax (24 + e1 - (24 + e2))) (e1 - e2) = e1 - e2 - 24) as ->
    by (unfold fexp, emin, B32.prec, B32.emax; lia).
  replace (e1 - e2 - (e1 - e2 - 24)) with 24 by lia.
  rewrite Z.shiftl_mul_pow2 by lia.
  pose proof (Z.div_eucl_eq (Z.pos m1 * 2 ^ 24) (Z.pos m2) ltac:(lia)) as Hdiv.
  pose proof (Z.mod_pos_bound (Z.pos m1 * 2 ^ 24) (Z.pos m2) ltac:(lia)) as Hmod.
  unfold Z.modulo in Hmod.
  destruct (Z.div_eucl (Z.pos m1 * 2 ^ 24) (Z.pos m2)) as [q r] eqn:Edq.
  assert (2 ^ 23 <= q < 2 ^ 25) as Hq by nia.
  destruct q as [|q|q]; try lia.
  assert (Z.to_pos (2 ^ (24 - 1)) = 8388608%positive) as Hhalf by reflexivity.
  destruct (Z.lt_ge_cases (Z.pos q) (2 ^ 24)) as [Hsmall|Hbig].
  - (* a quotient of 24 digits *)
    assert (Z.pos (digits2_pos q) = 24) as Hdq by (apply digits2_pos_24; lia).
    destruct (binary_round_aux_normal B32.prec B32.emax ltac:(unfold B32.prec; lia)
                false q (e1 - e2 - 24) (new_location (Z.pos m2) r))
      as [up [Heq _]];
      try (rewrite Hdq; unfold emin, B32.prec, B32.emax; lia).
    rewrite Heq, Hdq. unfold B32.prec. clear Heq.
    change (2 ^ (24 - 24)) with 1. rewrite Z.div_1_r, Hhalf.
    destruct (Z.ltb_spec (Z.pos q + (if up then 1 else 0)) (2 ^ 24)) as [Hlt|Hge];
      apply unit_binary32_finite.
    + rewrite Z2Pos.id by (destruct up; lia). destruct up; lia.
    + lia.
    + left. lia.
    + lia.
    + lia.
    + destruct (Z.eq_dec (e1 - e2 - 24 + (24 - 24) + 1) (-23)) as [E|E];
        [right; split; [exact E|reflexivity]|left; lia].
  - (* a quotient of 25 digits *)
    assert (Z.pos (digits2_pos q) = 25) as Hdq.
    { rewrite digits2_pos_log2. rewrite (Z.log2_unique (Z.pos q) 24); lia. }
    destruct (binary_round_aux_normal B32.prec B32.emax ltac:(unfold B32.prec; lia)
                false q (e1 - e2 - 24) (new_location (Z.pos m2) r))
      as [up [Heq Hup]];
      try (rewrite Hdq; unfold emin, B32.prec, B32.emax; lia).
    rewrite Heq, Hdq. unfold B32.prec. change (2 ^ (25 - 24)) with 2. rewrite Hhalf.
    destruct Hle as [Hlt|[Hee Hmm]].
    + clear Heq Hup.
      assert (2 ^ 23 <= Z.pos q / 2 < 2 ^ 24) as Hq2.
      { split; [apply Z.div_le_lower_bound; lia|apply Z.div_lt_upper_bound; lia]. }
      destruct (Z.ltb_spec (Z.pos q / 2 + (if up then 1 else 0)) (2 ^ 24)) as [Hlt'|Hge];
        apply unit_binary32_finite.
      * rewrite Z2Pos.id by (destruct up; lia). destruct up; lia.
      * lia.
      * left. lia.
      * lia.
      * lia.
      * destruct (Z.eq_dec (e1 - e2 - 24 + (25 - 24) + 1) (-23)) as [E|E];
          [right; split; [exact E|reflexivity]|left; lia].
    + assert (Z.pos m1 = Z.pos m2) as Hm by nia.
      assert (Z.pos q = 2 ^ 24 /\ r = 0) as [Hq24 Hr0] by nia.
      subst r. rewrite new_location_zero in Hup. rewrite (Hup eq_refl), Hdq, Hq24, Hee.
      replace (e2 - e2 - 24 + (25 - 24)) with (-23) by lia.
      right. exists 8388608%positive, (-23). split; [reflexivity|].
      split; [lia|]. split; [lia|]. right. split; reflexivity.
Qed.

(** Every value the synthesizer draws is zero or a normal number up to
    one. *)
Lemma unit_value_unit (g : c_rand) (r : Z) :
  32767 <= RAND_MAX g <= INT_MAX -> 0 <= r <= RAND_MAX g ->
  unit_binary32 (unit_value g r).
Proof.
  intros HM Hr. unfold INT_MAX in HM. unfold unit_value.
  rewrite (of_int_rnd24 (RAND_MAX g)) by lia.
  destruct (Z.eq_dec r 0) as [->|Hnz]; [left; reflexivity|].
  rewrite (of_int_rnd24 r) by lia.
  pose proof (rnd24_normal r ltac:(lia)) as Hnr.
  pose proof (rnd24_normal (RAND_MAX g) ltac:(lia)) as Hnm.
  pose proof (rnd24_exponent r ltac:(lia)) as Her.
  pose proof (rnd24_exponent (RAND_MAX g) ltac:(lia)) as Hem.
  pose proof (rnd24_mono r (RAND_MAX g) ltac:(lia)) as Hmono.
  assert (forall n, 0 < n < 2 ^ 31 -> 0 <= Z.log2 n <= 30) as Hlog.
  { intros n Hn. split; [apply Z.log2_nonneg|].
    assert (Z.log2 n < 31) by (apply Z.log2_lt_pow2; lia). lia. }
  pose proof (Hlog r ltac:(lia)). pose proof (Hlog (RAND_MAX g) ltac:(lia)).
  apply div_normal_unit; rewrite ?Z2Pos.id by lia; try lia.
  destruct (rnd24 r), (rnd24 (RAND_MAX g)); assumption.
Qed.

Lemma unit_value_closed (g : c_rand) (r : Z) :
  32767 <= RAND_MAX g <= INT_MAX -> 0 <= r <= RAND_MAX g ->
  in_unit_closed (unit_value g r) = true.
Proof. intros HM Hr. apply unit_binary32_closed, unit_value_unit; assumption. Qed.

Lemma draw_values_closed (g : c_rand) (n : nat) (st : rand_state g) :
  rand_conforms g ->
  Forall (fun v => in_unit_closed v = true) (draw_values g n st).
Proof.
  intros [HM Hr]. revert st. induction n as [|n IH]; intros st; cbn [draw_values].
  - constructor.
  - specialize (Hr st). destruct (rand g st) as [r st']. cbn [fst] in Hr.
    constructor; [apply unit_value_closed; assumption|apply IH].
Qed.

(** The sample generator of the C standard conforms to it. *)
Lemma ansi_rand_conforms : rand_conforms ansi_rand.
Proof.
  unfold rand_conforms. cbn [RAND_MAX ansi_rand rand]. split; [unfold INT_MAX; lia|].
  intros st. unfold ansi_step. cbn [fst].
  change 32767 with (Z.ones 15) at 1 2. rewrite Z.land_ones by lia.
  pose proof (Z.mod_pos_bound (Z.shiftr (Z.land (st * 1103515245 + 12345) 4294967295) 16)
                (2 ^ 15) ltac:(lia)) as H.
  change (2 ^ 15) with 32768 in *. lia.
Qed.

Lemma draw_values_length (g : c_rand) (n : nat) (st : rand_state g) :
  List.length (draw_values g n st) = n.
Proof.
  revert st. induction n as [|n IH]; intros st; cbn [draw_values]; [reflexivity|].
  destruct (rand g st) as [r st']. cbn [List.length]. now rewrite IH.
Qed.

(** *** The tolerance of the parity check *)

Lemma Qpower_2_pos (e : Z) : (0 < Qpower 2 e)%Q.
Proof. apply Qpower_0_lt. reflexivity. Qed.

Lemma Qpower_2_shift (b k : Z) :
  0 <= k -> (Qpower 2 (b + k) == inject_Z (2 ^ k) * Qpower 2 b)%Q.
Proof.
  intros Hk. rewrite Qpower_2_add, (Zpower_Qpower 2 k Hk). apply Qmult_comm.
Qed.

(** The order of two positive dyadic numbers, on integers. *)
Lemma dyadic_lt_iff (m M : Z) (e E : Z) :
  (inject_Z m * Qpower 2 e < inject_Z M * Qpower 2 E)%Q <->
  (if e <=? E then m < M * 2 ^ (E - e) else m * 2 ^ (e - E) < M).
Proof.
  destruct (Z.leb_spec e E) as [Hle|Hgt].
  - assert (Qpower 2 E == inject_Z (2 ^ (E - e)) * Qpower 2 e)%Q as ->
      by (rewrite <- Qpower_2_shift by lia; replace (e + (E - e)) with E by lia; reflexivity).
    rewrite Qmult_assoc, <- inject_Z_mult, Qmult_lt_r by apply Qpower_2_pos.
    rewrite <- Zlt_Qlt. reflexivity.
  - assert (Qpower 2 e == inject_Z (2 ^ (e - E)) * Qpower 2 E)%Q as ->
      by (rewrite <- Qpower_2_shift by lia; replace (E + (e - E)) with e by lia; reflexivity).
    rewrite Qmult_assoc, <- inject_Z_mult, Qmult_lt_r by apply Qpower_2_pos.
    rewrite <- Zlt_Qlt. reflexivity.
Qed.

Lemma tolerance_value_lit : (inject_Z 13743895 * Qpower 2 (-37) == tolerance_value)%Q.
Proof. reflexivity. Qed.

Lemma strictly_below_finite (m : positive) (e : Z) :
  strictly_below (S754_finite false m e) tolerance_value = true <->
  (if e <=? -37 then Z.pos m < 13743895 * 2 ^ (-37 - e)
   else Z.pos m * 2 ^ (e - -37) < 13743895).
Proof.
  unfold strictly_below, SF2Q. rewrite negb_true_iff, <- not_true_iff_false, Qle_bool_iff.
  rewrite <- dyadic_lt_iff, tolerance_value_lit. split.
  - apply Qnot_le_lt.
  - apply Qlt_not_le.
Qed.

(** On the values of binary32 with the sign cleared, [d < 1e-4f] is the
    order of the numbers. *)
Lemma within_tolerance_value (x : spec_float) :
  valid_binary B32.prec B32.emax (SFabs x) = true ->
  within_tolerance (SFabs x) = strictly_below (SFabs x) tolerance_value.
Proof.
  destruct x as [s|s| |s m e]; cbn [SFabs]; try reflexivity.
  unfold valid_binary, bounded, canonical_mantissa, fexp, emin, B32.prec, B32.emax.
  rewrite andb_true_iff, Z.eqb_eq, Z.leb_le. intros [Hcan Hmax].
  pose proof (digits2_pos_bounds m) as [Hdlo Hdhi].
  remember (Z.pos (digits2_pos m)) as d eqn:Ed.
  assert (0 < d) as Hd0 by (subst d; lia).
  apply eq_true_iff_eq. rewrite strictly_below_finite.
  unfold within_tolerance, B32.ltb, SFltb, SFcompare, lit_1e_4f.
  destruct (Z.compare_spec e (-37)) as [He|He|He].
  - subst e. change (-37 <=? -37) with true. cbv iota.
    change (-37 - -37) with 0. change (2 ^ 0) with 1. rewrite Z.mul_1_r.
    change (Pos.compare_cont Eq m 13743895) with (Pos.compare m 13743895).
    rewrite Pos2Z.inj_compare.
    destruct (Z.compare_spec (Z.pos m) 13743895); split; intros; try discriminate; try lia;
      reflexivity.
  - destruct (Z.leb_spec e (-37)); [|lia]. split; [intros _|reflexivity].
    assert (d <= 24) by lia.
    assert (2 ^ d <= 2 ^ 24) by (apply Z.pow_le_mono_r; lia).
    assert (2 ^ 1 <= 2 ^ (-37 - e)) by (apply Z.pow_le_mono_r; lia).
    change (2 ^ 1) with 2 in *. change (2 ^ 24) with 16777216 in *. nia.
  - destruct (Z.leb_spec e (-37)); [lia|]. split; [discriminate|intros Hlt; exfalso].
    assert (d = 24) as Hd24 by lia. rewrite Hd24 in Hdlo.
    assert (2 ^ 1 <= 2 ^ (e - -37)) by (apply Z.pow_le_mono_r; lia).
    change (24 - 1) with 23 in Hdlo.
    change (2 ^ 1) with 2 in *. change (2 ^ 23) with 8388608 in *. nia.
Qed.

(** The difference the parity check takes is a binary32 value in normal
    form. *)
Lemma abs_diff_valid (c g : spec_float) :
  valid_binary B32.prec B32.emax c = true -> valid_binary B32.prec B32.emax g = true ->
  valid_binary B32.prec B32.emax (abs_diff c g) = true.
Proof.
  intros Hc Hg. unfold abs_diff, B32.sub.
  apply SFabs_valid, SFsub_valid; try assumption. unfold B32.prec. lia.
Qed.

Lemma count10_ext (p q : Z -> bool) :
  (forall i, p i = q i) -> count10 p = count10 q.
Proof.
  intros H. unfold count10. f_equal. f_equal. apply filter_ext. exact H.
Qed.

(** The counter of the parity loop is the number of indices that pass the
    test. *)
Lemma parity_ok_count (c g : farray) :
  parity_ok c g = count10 (fun i => within_tolerance (abs_diff (c i) (g i))).
Proof.
  unfold parity_ok, count10, indices10. cbn [fold_left filter].
  repeat match goal with
         | |- context [within_tolerance ?d] =>
             destruct (within_tolerance d)
         end; reflexivity.
Qed.

(** *** The tolerance, on the exact difference of the two values *)

Lemma dyadic_le_iff (m M : Z) (e E : Z) :
  (inject_Z m * Qpower 2 e <= inject_Z M * Qpower 2 E)%Q <->
  (if e <=? E then m <= M * 2 ^ (E - e) else m * 2 ^ (e - E) <= M).
Proof.
  destruct (Z.leb_spec e E) as [Hle|Hgt].
  - assert (Qpower 2 E == inject_Z (2 ^ (E - e)) * Qpower 2 e)%Q as ->
      by (rewrite <- Qpower_2_shift by lia; replace (e + (E - e)) with E by lia; reflexivity).
    rewrite Qmult_assoc, <- inject_Z_mult, Qmult_le_r by apply Qpower_2_pos.
    rewrite <- Zle_Qle. reflexivity.
  - assert (Qpower 2 e == inject_Z (2 ^ (e - E)) * Qpower 2 E)%Q as ->
      by (rewrite <- Qpower_2_shift by lia; replace (E + (e - E)) with e by lia; reflexivity).
    rewrite Qmult_assoc, <- inject_Z_mult, Qmult_le_r by apply Qpower_2_pos.
    rewrite <- Zle_Qle. reflexivity.
Qed.

Lemma tolerance_bound_lit : (inject_Z 27487789 * Qpower 2 (-38) == tolerance_bound)%Q.
Proof. reflexivity. Qed.

Lemma below_bound_iff (N e : Z) :
  (inject_Z N * Qpower 2 e <= tolerance_bound)%Q <-> below_bound N e.
Proof. rewrite <- tolerance_bound_lit. apply dyadic_le_iff. Qed.

(** [d < 1e-4f] on a positive finite value. *)
Lemma within_finite (m : positive) (e : Z) :
  within_tolerance (S754_finite false m e) = true <->
  (e < -37 \/ (e = -37 /\ Z.pos m < 13743895)).
Proof.
  unfold within_tolerance, B32.ltb, SFltb, SFcompare, lit_1e_4f.
  destruct (Z.compare_spec e (-37)) as [He|He|He].
  - change (Pos.compare_cont Eq m 13743895) with (Pos.compare m 13743895).
    destruct (Pos.compare_spec m 13743895) as [Hm|Hm|Hm]; split; intros H;
      try discriminate; try reflexivity; try lia.
  - split; [intros _; lia|reflexivity].
  - split; [discriminate|lia].
Qed.

Lemma pow2_split (a b : Z) : 0 <= a -> 0 <= b -> 2 ^ (a + b) = 2 ^ a * 2 ^ b.
Proof. intros. apply Z.pow_add_r; assumption. Qed.

(** On a binary32 value in normal form, [d < 1e-4f] says that the number is
    at most the bound: no value of binary32 lies between the value before
    [1e-4f] and [1e-4f]. *)
Lemma within_canonical (m : positive) (e : Z) :
  canonical_mantissa B32.prec B32.emax m e = true ->
  within_tolerance (S754_finite false m e) = true <-> below_bound (Z.pos m) e.
Proof.
  unfold canonical_mantissa, fexp, emin, B32.prec, B32.emax. rewrite Z.eqb_eq. intros Hcan.
  rewrite within_finite. unfold below_bound.
  pose proof (digits2_pos_bounds m) as [Hdlo Hdhi].
  remember (Z.pos (digits2_pos m)) as d eqn:Ed.
  assert (0 < d) as Hd0 by (subst d; lia).
  assert (d <= 24) as Hd24 by lia.
  assert (Z.pos m < 2 ^ 24) as Hm24.
  { apply Z.lt_le_trans with (1 := Hdhi). apply Z.pow_le_mono_r; lia. }
  destruct (Z.leb_spec e (-38)) as [Hlo|Hhi].
  - split; [intros _|intros _; lia].
    assert (1 <= 2 ^ (-38 - e)) by (apply (Z.pow_le_mono_r 2 0); lia).
    change (2 ^ 24) with 16777216 in Hm24. nia.
  - destruct (Z.eq_dec e (-37)) as [->|Hne].
    + change (2 ^ (-37 - -38)) with 2. lia.
    + assert (d = 24) as -> by lia.
      change (2 ^ (24 - 1)) with 8388608 in Hdlo.
      assert (4 <= 2 ^ (e - -38)) by (apply (Z.pow_le_mono_r 2 2); lia).
      split; [intros [Hx|[Hx _]]; lia|intros Hx; nia].
Qed.

Lemma shl_align_le (m : positive) (e e' : Z) :
  e' <= e -> exists mz, shl_align m e e' = (mz, e') /\ Z.pos mz = Z.pos m * 2 ^ (e - e').
Proof.
  intros He. unfold shl_align. destruct (e' - e) as [|p|p] eqn:E.
  - exists m. assert (e = e') as -> by lia. split; [reflexivity|]. rewrite Z.sub_diag. lia.
  - lia.
  - exists (Pos.iter xO m p). split; [reflexivity|]. rewrite pos_iter_xO. f_equal. f_equal. lia.
Qed.

(** Rounding to a mantissa of exponent -37: the result is below the
    mantissa of [1e-4f] when the number rounded is at most the midpoint
    before it, a tie that goes to the even mantissa below. *)
Lemma round_tie (p k : Z) :
  0 < p -> 1 <= k ->
  p / 2 ^ k + (if rnd_up p k then 1 else 0) < 13743895 <-> p <= 27487789 * 2 ^ (k - 1).
Proof.
  intros Hp Hk.
  pose proof (rnd_up_spec p k ltac:(lia) Hk) as Hspec.
  assert (0 < 2 ^ (k - 1)) as HH by (apply Z.pow_pos_nonneg; lia).
  assert (2 ^ k = 2 * 2 ^ (k - 1)) as HP.
  { replace k with (1 + (k - 1)) at 1 by lia. rewrite Z.pow_add_r by lia. reflexivity. }
  pose proof (Z.div_mod p (2 ^ k) ltac:(lia)) as Hdm.
  pose proof (Z.mod_pos_bound p (2 ^ k) ltac:(lia)) as Hr.
  remember (p / 2 ^ k) as m1 eqn:Em1. remember (p mod 2 ^ k) as r eqn:Er.
  remember (2 ^ (k - 1)) as H eqn:EH. rewrite HP in *. clear HP.
  destruct (rnd_up p k).
  - assert (2 * H < 2 * r \/ (2 * r = 2 * H /\ Z.odd m1 = true)) as Hup
      by (apply Hspec; reflexivity).
    split; intros Hx.
    + nia.
    + destruct (Z_lt_le_dec m1 13743894) as [Hlt|Hge]; [lia|exfalso].
      assert (m1 = 13743894) as Hm1 by nia.
      destruct Hup as [Hup|[_ Hodd]]; [nia|]. rewrite Hm1 in Hodd. discriminate Hodd.
  - assert (~ (2 * H < 2 * r \/ (2 * r = 2 * H /\ Z.odd m1 = true))) as Hup
      by (intros Hc; apply Hspec in Hc; discriminate Hc).
    split; intros Hx.
    + nia.
    + nia.
Qed.

(** The sign of the number rounded only sets the sign of the result. *)
Lemma SFabs_binary_round_aux (prec emax : Z) (s : bool) (m e : Z) (l : location) :
  SFabs (binary_round_aux prec emax s m e l)
  = SFabs (binary_round_aux prec emax false m e l).
Proof.
  unfold binary_round_aux.
  destruct (shr_fexp prec emax m e l) as [mrs' e'].
  destruct (shr_fexp prec emax _ e' loc_Exact) as [mrs'' e''].
  destruct (shr_m mrs''); [reflexivity| |reflexivity].
  destruct (e'' <=? emax - prec); reflexivity.
Qed.

Lemma SFabs_binary_normalize_opp (prec emax : Z) (m e : Z) :
  SFabs (binary_normalize prec emax (- m) e false)
  = SFabs (binary_normalize prec emax m e false).
Proof.
  destruct m as [|p|p]; cbn [Z.opp binary_normalize]; [reflexivity| |];
    unfold binary_round;
    destruct (shl_align p e (fexp prec emax (Z.pos (digits2_pos p) + e))) as [mz ez];
    [apply SFabs_binary_round_aux|symmetry; apply SFabs_binary_round_aux].
Qed.

(** The sign of a rounded positive number is cleared already. *)
Lemma SFabs_binary_round_false (prec emax : Z) (p : positive) (e : Z) :
  SFabs (binary_round prec emax false p e) = binary_round prec emax false p e.
Proof.
  unfold binary_round.
  destruct (shl_align p e (fexp prec emax (Z.pos (digits2_pos p) + e))) as [mz ez].
  unfold binary_round_aux.
  destruct (shr_fexp prec emax (Z.pos mz) ez loc_Exact) as [mrs' e'].
  destruct (shr_fexp prec emax _ e' loc_Exact) as [mrs'' e''].
  destruct (shr_m mrs''); [reflexivity| |reflexivity].
  destruct (e'' <=? emax - prec); reflexivity.
Qed.

(** [d < 1e-4f] for the binary32 value nearest to [p * 2^ez]: the number
    rounded is at most the bound. *)
Lemma round_match (p : positive) (ez : Z) :
  -149 <= ez ->
  within_tolerance (binary_round B32.prec B32.emax false p ez) = true
  <-> below_bound (Z.pos p) ez.
Proof.
  intros Hez. unfold binary_round, B32.prec, B32.emax.
  pose proof (digits2_pos_bounds p) as [Hdlo Hdhi].
  remember (Z.pos (digits2_pos p)) as d eqn:Ed.
  assert (0 < d) as Hd0 by (subst d; lia).
  unfold fexp, emin. change (3 - 128 - 24) with (-149).
  destruct (Z.le_gt_cases d 24) as [Hsmall|Hbig].
  - remember (Z.max (d + ez - 24) (-149)) as e' eqn:Ee'.
    assert (e' <= ez) as He' by lia.
    destruct (shl_align_le p ez e' He') as [mz [-> Hmz]].
    assert (canonical_mantissa 24 128 mz e' = true) as Hcan.
    { unfold canonical_mantissa, fexp, emin. apply Z.eqb_eq.
      rewrite (digits2_pos_shift mz p (ez - e')) by (assumption || lia).
      rewrite <- Ed. change (3 - 128 - 24) with (-149). lia. }
    rewrite (binary_round_aux_canonical 24 128 false mz e' Hcan).
    assert (below_bound (Z.pos mz) e' <-> below_bound (Z.pos p) ez) as Hsame.
    { rewrite <- !below_bound_iff. rewrite Hmz, inject_Z_mult.
      assert (Qpower 2 ez == inject_Z (2 ^ (ez - e')) * Qpower 2 e')%Q as ->
        by (rewrite <- Qpower_2_shift by lia; replace (e' + (ez - e')) with ez by lia;
            reflexivity).
      rewrite Qmult_assoc. reflexivity. }
    destruct (Z.leb_spec e' (128 - 24)) as [Hle|Hgt].
    + rewrite (within_canonical mz e' Hcan). exact Hsame.
    + split; [discriminate|]. intros Hb. exfalso. unfold below_bound in Hb.
      destruct (Z.leb_spec ez (-38)); [lia|].
      assert (2 ^ 100 <= 2 ^ (ez - -38)) by (apply Z.pow_le_mono_r; lia).
      assert (27487789 < 2 ^ 100) by reflexivity. nia.
  - assert (shl_align p ez (Z.max (d + ez - 24) (-149)) = (p, ez)) as ->.
    { unfold shl_align. destruct (Z.max (d + ez - 24) (-149) - ez) eqn:E;
        try reflexivity; lia. }
    destruct (binary_round_aux_shifted 24 128 ltac:(lia) false p ez loc_Exact)
      as [up [Heq Hup]]; try (unfold emin; rewrite <- Ed; lia).
    rewrite Heq, (Hup eq_refl). clear Heq Hup up. rewrite <- Ed.
    remember (d - 24) as k eqn:Ek.
    assert (1 <= k) as Hk by lia.
    assert (0 < 2 ^ k) as HPpos by (apply Z.pow_pos_nonneg; lia).
    assert (2 ^ (d - 1) = 8388608 * 2 ^ k) as Hlo2.
    { replace (d - 1) with (23 + k) by lia. rewrite Z.pow_add_r by lia. reflexivity. }
    assert (2 ^ d = 16777216 * 2 ^ k) as Hhi2.
    { replace d with (24 + k) by lia. rewrite Z.pow_add_r by lia. reflexivity. }
    rewrite Hlo2 in Hdlo. rewrite Hhi2 in Hdhi.
    assert (8388608 <= Z.pos p / 2 ^ k < 16777216) as Hm1.
    { split; [apply Z.div_le_lower_bound; lia|apply Z.div_lt_upper_bound; lia]. }
    pose proof (round_tie (Z.pos p) k ltac:(lia) Hk) as Htie.
    remember (Z.pos p / 2 ^ k + (if rnd_up (Z.pos p) k then 1 else 0)) as m2 eqn:Em2.
    assert (8388608 <= m2 <= 16777216) as Hm2
      by (subst m2; destruct (rnd_up (Z.pos p) k); lia).
    change (2 ^ 24) with 16777216. change (2 ^ (24 - 1)) with 8388608.
    change (128 - 24) with 104.
    unfold below_bound.
    destruct (Z.ltb_spec m2 16777216) as [Hlt|Hge];
      [destruct (Z.leb_spec (ez + k) 104) as [He1|He1]
      |destruct (Z.leb_spec (ez + k + 1) 104) as [He1|He1]].
    + rewrite within_finite. rewrite Z2Pos.id by lia.
      destruct (Z.leb_spec ez (-38)) as [Hlo|Hhi].
      * destruct (Z_lt_le_dec (ez + k) (-37)) as [Hl|Hg].
        -- split; [intros _|intros _; lia].
           assert (2 ^ k <= 2 ^ (-38 - ez)) by (apply Z.pow_le_mono_r; lia). nia.
        -- destruct (Z.eq_dec (ez + k) (-37)) as [Heq|Hne].
           ++ replace (-38 - ez) with (k - 1) by lia. rewrite <- Htie. lia.
           ++ split; [lia|intros Hb; exfalso].
              assert (4 * 2 ^ (-38 - ez) <= 2 ^ k).
              { replace k with (2 + (k - 2)) at 1 by lia. rewrite Z.pow_add_r by lia.
                change (2 ^ 2) with 4.
                assert (2 ^ (-38 - ez) <= 2 ^ (k - 2)) by (apply Z.pow_le_mono_r; lia). lia. }
              nia.
      * split; [lia|intros Hb; exfalso].
        assert (2 <= 2 ^ (ez - -38)) by (apply (Z.pow_le_mono_r 2 1); lia).
        assert (2 <= 2 ^ k) by (apply (Z.pow_le_mono_r 2 1); lia). nia.
    + split; [discriminate|intros Hb; exfalso].
      destruct (Z.leb_spec ez (-38)) as [Hlo|Hhi].
      * assert (4 * 2 ^ (-38 - ez) <= 2 ^ k).
        { replace k with (2 + (k - 2)) at 1 by lia. rewrite Z.pow_add_r by lia.
          change (2 ^ 2) with 4.
          assert (2 ^ (-38 - ez) <= 2 ^ (k - 2)) by (apply Z.pow_le_mono_r; lia). lia. }
        nia.
      * assert (2 <= 2 ^ (ez - -38)) by (apply (Z.pow_le_mono_r 2 1); lia).
        assert (2 <= 2 ^ k) by (apply (Z.pow_le_mono_r 2 1); lia). nia.
    + assert (m2 = 16777216) as Hm2eq by lia.
      rewrite within_finite. change (Z.pos (Z.to_pos 8388608)) with 8388608.
      destruct (Z.leb_spec ez (-38)) as [Hlo|Hhi].
      * destruct (Z_lt_le_dec (ez + k) (-37)) as [Hl|Hg].
        -- split; [intros _|intros _; lia].
           assert (2 ^ k <= 2 ^ (-38 - ez)) by (apply Z.pow_le_mono_r; lia). nia.
        -- destruct (Z.eq_dec (ez + k) (-37)) as [Heq|Hne].
           ++ replace (-38 - ez) with (k - 1) by lia. rewrite <- Htie. lia.
           ++ split; [lia|intros Hb; exfalso].
              assert (4 * 2 ^ (-38 - ez) <= 2 ^ k).
              { replace k with (2 + (k - 2)) at 1 by lia. rewrite Z.pow_add_r by lia.
                change (2 ^ 2) with 4.
                assert (2 ^ (-38 - ez) <= 2 ^ (k - 2)) by (apply Z.pow_le_mono_r; lia). lia. }
              nia.
      * split; [lia|intros Hb; exfalso].
        assert (2 <= 2 ^ (ez - -38)) by (apply (Z.pow_le_mono_r 2 1); lia).
        assert (2 <= 2 ^ k) by (apply (Z.pow_le_mono_r 2 1); lia). nia.
    + split; [discriminate|intros Hb; exfalso].
      destruct (Z.leb_spec ez (-38)) as [Hlo|Hhi].
      * assert (4 * 2 ^ (-38 - ez) <= 2 ^ k).
        { replace k with (2 + (k - 2)) at 1 by lia. rewrite Z.pow_add_r by lia.
          change (2 ^ 2) with 4.
          assert (2 ^ (-38 - ez) <= 2 ^ (k - 2)) by (apply Z.pow_le_mono_r; lia). lia. }
        nia.
      * assert (2 <= 2 ^ (ez - -38)) by (apply (Z.pow_le_mono_r 2 1); lia).
        assert (2 <= 2 ^ k) by (apply (Z.pow_le_mono_r 2 1); lia). nia.
Qed.

(** *** The difference of two finite values *)

Lemma cond_Zopp_sign (s : bool) (m : positive) (k : Z) :
  cond_Zopp s (Z.pos m * k) = (if s then Z.neg m else Z.pos m) * k.
Proof. destruct s; cbn [cond_Zopp]; lia. Qed.

(** The absolute difference of two finite values is the rounding of the
    absolute value of their exact difference, an integer multiple of two to
    the smaller exponent. *)
Lemma abs_diff_finite (sx sy : bool) (mx my : positive) (ex ey : Z) :
  let ez := Z.min ex ey in
  let D := (if sx then Z.neg mx else Z.pos mx) * 2 ^ (ex - ez)
           - (if sy then Z.neg my else Z.pos my) * 2 ^ (ey - ez) in
  abs_diff (S754_finite sx mx ex) (S754_finite sy my ey)
  = match D with
    | 0 => S754_zero false
    | Z.pos p | Z.neg p => binary_round B32.prec B32.emax false p ez
    end.
Proof.
  intros ez D. unfold abs_diff, B32.sub, SFsub. fold ez.
  rewrite !shl_align_fst by (subst ez; lia). rewrite !cond_Zopp_sign. fold D.
  destruct D as [|p|p]; cbn [binary_normalize].
  - reflexivity.
  - apply SFabs_binary_round_false.
  - rewrite <- (SFabs_binary_round_false B32.prec B32.emax p ez). unfold binary_round.
    destruct (shl_align p ez (fexp B32.prec B32.emax (Z.pos (digits2_pos p) + ez)))
      as [mz ez'].
    apply SFabs_binary_round_aux.
Qed.

Lemma Qabs_dyadic (D e : Z) :
  (Qabs (inject_Z D * Qpower 2 e) == inject_Z (Z.abs D) * Qpower 2 e)%Q.
Proof.
  rewrite Qabs_Qmult. rewrite (Qabs_pos (Qpower 2 e)) by (apply Qlt_le_weak, Qpower_2_pos).
  reflexivity.
Qed.

(** The exact difference of two dyadic numbers, at the smaller exponent. *)
Lemma dyadic_diff (zx zy ex ey ez : Z) :
  ez <= ex -> ez <= ey ->
  (inject_Z zx * Qpower 2 ex - inject_Z zy * Qpower 2 ey
   == inject_Z (zx * 2 ^ (ex - ez) - zy * 2 ^ (ey - ez)) * Qpower 2 ez)%Q.
Proof.
  intros Hx Hy.
  assert (Qpower 2 ex == inject_Z (2 ^ (ex - ez)) * Qpower 2 ez)%Q as ->
    by (rewrite <- Qpower_2_shift by lia; replace (ez + (ex - ez)) with ex by lia;
        reflexivity).
  assert (Qpower 2 ey == inject_Z (2 ^ (ey - ez)) * Qpower 2 ez)%Q as ->
    by (rewrite <- Qpower_2_shift by lia; replace (ez + (ey - ez)) with ey by lia;
        reflexivity).
  unfold Z.sub at 3. rewrite inject_Z_plus, inject_Z_opp, !inject_Z_mult. ring.
Qed.

Lemma exact_match_dyadic (qx qy : Q) (D e : Z) :
  (qx - qy == inject_Z D * Qpower 2 e)%Q ->
  Qle_bool (Qabs (qx - qy)) tolerance_bound = true <-> below_bound (Z.abs D) e.
Proof.
  intros H. rewrite Qle_bool_iff, H, Qabs_dyadic. apply below_bound_iff.
Qed.

Lemma valid_canonical (s : bool) (m : positive) (e : Z) :
  valid_binary B32.prec B32.emax (S754_finite s m e) = true ->
  canonical_mantissa B32.prec B32.emax m e = true /\ -149 <= e.
Proof.
  intros H. pose proof (valid_exponent B32.prec B32.emax s m e H) as He.
  unfold valid_binary, bounded in H. apply andb_true_iff in H. destruct H as [H _].
  split; [exact H|exact He].
Qed.

(** The parity test on two binary32 values is the comparison of their exact
    difference with the bound. *)
Lemma within_tolerance_exact (x y : spec_float) :
  valid_binary B32.prec B32.emax x = true ->
  valid_binary B32.prec B32.emax y = true ->
  within_tolerance (abs_diff x y) = exact_match x y.
Proof.
  intros Hx Hy.
  destruct x as [sx|sx| |sx mx ex], y as [sy|sy| |sy my ey];
    try (destruct sx; reflexivity); try (destruct sx, sy; reflexivity); try reflexivity.
  - (* zero, finite *)
    destruct (valid_canonical sy my ey Hy) as [Hcan _].
    apply eq_true_iff_eq. unfold exact_match, SF2Q.
    change (abs_diff (S754_zero sx) (S754_finite sy my ey)) with (S754_finite false my ey).
    rewrite (within_canonical my ey Hcan).
    rewrite (exact_match_dyadic 0 _ (- (if sy then Z.neg my else Z.pos my)) ey).
    + now destruct sy.
    + rewrite inject_Z_opp. ring.
  - (* finite, zero *)
    destruct (valid_canonical sx mx ex Hx) as [Hcan _].
    apply eq_true_iff_eq. unfold exact_match, SF2Q.
    change (abs_diff (S754_finite sx mx ex) (S754_zero sy)) with (S754_finite false mx ex).
    rewrite (within_canonical mx ex Hcan).
    rewrite (exact_match_dyadic _ 0 (if sx then Z.neg mx else Z.pos mx) ex).
    + now destruct sx.
    + ring.
  - (* finite, finite *)
    destruct (valid_canonical sx mx ex Hx) as [_ Hex].
    destruct (valid_canonical sy my ey Hy) as [_ Hey].
    apply eq_true_iff_eq. unfold exact_match, SF2Q.
    rewrite abs_diff_finite. cbv zeta.
    rewrite (exact_match_dyadic _ _ _ _
               (dyadic_diff (if sx then Z.neg mx else Z.pos mx)
                            (if sy then Z.neg my else Z.pos my)
                            ex ey (Z.min ex ey) ltac:(lia) ltac:(lia))).
    destruct ((if sx then Z.neg mx else Z.pos mx) * 2 ^ (ex - Z.min ex ey)
              - (if sy then Z.neg my else Z.pos my) * 2 ^ (ey - Z.min ex ey)) as [|p|p].
    + split; [intros _|reflexivity]. unfold below_bound. cbn [Z.abs].
      destruct (Z.leb_spec (Z.min ex ey) (-38)).
      * assert (0 < 2 ^ (-38 - Z.min ex ey)) by (apply Z.pow_pos_nonneg; lia). lia.
      * lia.
    + apply round_match. lia.
    + apply round_match. lia.
Qed.

(** *** The text of the input tensor *)

Lemma round_half_even_bounds (num den k : Z) :
  0 < den -> 0 <= num <= k * den -> 0 <= round_half_even num den <= k.
Proof.
  intros Hden Hnum. unfold round_half_even.
  pose proof (Z.div_mod num den ltac:(lia)) as Hdm.
  pose proof (Z.mod_pos_bound num den Hden) as Hmod.
  assert (0 <= num / den) as Hq0 by (apply Z.div_pos; lia).
  assert (num / den <= k) as Hqk by (apply Z.div_le_upper_bound; lia).
  destruct (Z.eq_dec (num / den) k) as [Hk|Hk].
  - assert (num mod den = 0) as -> by nia.
    change (2 * 0) with 0. destruct (Z.compare_spec 0 den); try lia.
  - destruct (2 * (num mod den) ?= den); [destruct (Z.even (num / den))| |]; lia.
Qed.

Lemma fmt_u_bit (n : Z) : 0 <= n <= 1 -> strlen (fmt_u n) = 1.
Proof.
  intros H. assert (n = 0 \/ n = 1) as [-> | ->] by lia; reflexivity.
Qed.

(** A value of the unit interval prints as eight characters. *)
Lemma fmt_f6_unit_length (v : spec_float) : unit_binary32 v -> strlen (fmt_f6 v) = 8.
Proof.
  intros [->|[m [e [-> [Hm [He H]]]]]]; [reflexivity|].
  unfold fmt_f6. destruct (Z.leb_spec 0 e) as [Hpos|Hneg]; [lia|].
  assert (0 < 2 ^ (- e)) as Hden by (apply Z.pow_pos_nonneg; lia).
  assert (Z.pos m <= 2 ^ (- e)) as Hle.
  { destruct H as [Hlt|[-> ->]]; [|cbn; lia].
    assert (2 ^ 24 <= 2 ^ (- e)) by (apply Z.pow_le_mono_r; lia). lia. }
  pose proof (round_half_even_bounds (Z.pos m * 1000000) (2 ^ (- e)) 1000000 Hden
                ltac:(nia)) as Hn.
  remember (round_half_even (Z.pos m * 1000000) (2 ^ (- e))) as n eqn:En.
  cbn [app]. rewrite strlen_app, fmt_u_bit; [reflexivity|].
  split; [apply Z.div_pos; lia|apply Z.div_le_upper_bound; lia].
Qed.

Lemma join_items_cons (x : cstring) (l : list cstring) :
  l <> [] -> join_items (x :: l) = x ++ str "," ++ join_items l.
Proof. destruct l; [congruence|reflexivity]. Qed.

(** The loop of [make_input] stays inside the buffer and appends the values
    it draws, separated by commas. *)
Lemma input_loop_ok (g : c_rand) (in_dim : Z) (n : nat) :
  rand_conforms g ->
  forall (i : Z) (st : rand_state g) (b : cbuf),
    i + Z.of_nat n = in_dim ->
    buf_len b = strlen (buf_data b) ->
    buf_len b + Z.of_nat n * 9 < buf_cap b ->
    input_loop g in_dim n i st b
    = Some (mk_cbuf (buf_cap b)
                    (buf_data b ++ join_items (map fmt_f6 (draw_values g n st)))
                    (buf_len b + strlen (join_items (map fmt_f6 (draw_values g n st))))).
Proof.
  intros [HM Hr]. induction n as [|n IH]; intros i st b Hi Hlen Hfit.
  - cbn [input_loop draw_values map join_items]. rewrite app_nil_r.
    change (strlen []) with 0. rewrite Z.add_0_r. destruct b; reflexivity.
  - cbn [input_loop draw_values]. pose proof (Hr st) as Hrst.
    destruct (rand g st) as [r st']. cbn [fst] in Hrst.
    pose proof (fmt_f6_unit_length _ (unit_value_unit g r HM Hrst)) as Hv.
    destruct n as [|n].
    + destruct (Z.ltb_spec i (in_dim - 1)); [lia|].
      rewrite snprintf_at_fits by lia. cbn [obind input_loop draw_values map join_items].
      reflexivity.
    + destruct (Z.ltb_spec i (in_dim - 1)); [|lia].
      rewrite snprintf_at_fits by (buf_arith; lia).
      cbn [obind]. rewrite IH by (buf_arith; lia).
      cbn [buf_cap buf_data buf_len map]. rewrite join_items_cons.
      * f_equal. f_equal; [now repeat rewrite <- app_assoc|buf_arith].
      * intros E. apply (f_equal (@List.length cstring)) in E.
        rewrite length_map, draw_values_length in E. discriminate.
Qed.

Lemma strlen_join_fmt_f6 (l : list spec_float) :
  Forall unit_binary32 l -> strlen (join_items (map fmt_f6 l)) <= 9 * Z.of_nat (List.length l).
Proof.
  induction 1 as [|v l Hv Hl IH]; [cbn; lia|].
  destruct l as [|w l].
  - cbn [map join_items List.length]. rewrite (fmt_f6_unit_length v Hv). lia.
  - change (map fmt_f6 (v :: w :: l)) with (fmt_f6 v :: map fmt_f6 (w :: l)).
    rewrite join_items_cons by discriminate.
    repeat rewrite strlen_app. rewrite (fmt_f6_unit_length v Hv).
    change (strlen (str ",")) with 1. cbn [List.length] in *. lia.
Qed.

Lemma draw_values_unit (g : c_rand) (n : nat) (st : rand_state g) :
  rand_conforms g -> Forall unit_binary32 (draw_values g n st).
Proof.
  intros [HM Hr]. revert st. induction n as [|n IH]; intros st; cbn [draw_values].
  - constructor.
  - specialize (Hr st). destruct (rand g st) as [r st']. cbn [fst] in Hr.
    constructor; [apply unit_value_unit; assumption|apply IH].
Qed.

Ltac input_arith :=
  cbn [buf_cap buf_data buf_len app];
  repeat rewrite strlen_app;
  change (strlen []) with 0;
  change (strlen (str "[[[")) with 3;
  change (strlen (str "]]]")) with 3;
  try lia.

(** [make_input] never leaves its buffer, and returns the rank-3 literal of
    the values it draws. *)
Lemma make_input_ok (g : c_rand) (in_dim : Z) :
  rand_conforms g -> 0 <= in_dim <= INT_MAX ->
  make_input g in_dim
  = Some (str "[[[" ++ join_items (map fmt_f6 (input_values g in_dim)) ++ str "]]]").
Proof.
  intros Hg Hin. unfold make_input, input_values, INT_MAX in *.
  rewrite (to_size_t_small in_dim) by (unfold SIZE_MAX; lia).
  rewrite to_size_t_small by (unfold SIZE_MAX; lia).
  unfold malloc_buf. rewrite snprintf_at_fits by input_arith.
  cbn [obind buf_cap buf_data buf_len].
  rewrite (input_loop_ok g in_dim (Z.to_nat in_dim) Hg) by input_arith.
  cbn [obind buf_cap buf_data buf_len].
  pose proof (strlen_join_fmt_f6 _ (draw_values_unit g (Z.to_nat in_dim) (srand g 42) Hg))
    as HL.
  rewrite draw_values_length in HL.
  rewrite snprintf_at_fits by input_arith.
  cbn [obind buf_data app]. now rewrite <- app_assoc.
Qed.

(** ** Reading the payloads *)

Lemma starts_with_app (p rest : cstring) : starts_with p (p ++ rest) = true.
Proof.
  induction p as [|a p IH]; [reflexivity|]. cbn [starts_with app].
  now rewrite Ascii.eqb_refl, IH.
Qed.

Lemma starts_with_split (p s : cstring) :
  starts_with p s = true -> exists rest, s = p ++ rest.
Proof.
  revert s. induction p as [|a p IH]; intros s H.
  - now exists s.
  - destruct s as [|b s]; [discriminate|]. cbn [starts_with] in H.
    apply andb_true_iff in H. destruct H as [Hab Hp].
    apply Ascii.eqb_eq in Hab. subst b.
    destruct (IH s Hp) as [rest ->]. now exists rest.
Qed.

Lemma strstr_nil (hay : cstring) : strstr hay [] = Some hay.
Proof. destruct hay; reflexivity. Qed.

(** What [strstr] returns is a suffix that begins with the needle. *)
Lemma strstr_found (needle : cstring) (hay q : cstring) :
  strstr hay needle = Some q -> exists pre post, hay = pre ++ q /\ q = needle ++ post.
Proof.
  induction hay as [|a hay IH]; cbn [strstr].
  - destruct (starts_with needle []) eqn:E; [|discriminate].
    intros [= <-]. apply starts_with_split in E. destruct E as [post E].
    exists [], post. split; [reflexivity|exact E].
  - destruct (starts_with needle (a :: hay)) eqn:E.
    + intros [= <-]. apply starts_with_split in E. destruct E as [post E].
      exists [], post. split; [reflexivity|exact E].
    + intros H. destruct (IH H) as [pre [post [-> ->]]].
      exists (a :: pre), post. split; reflexivity.
Qed.

(** [strstr] finds every text that holds the needle. *)
Lemma strstr_holds (needle pre post : cstring) :
  strstr (pre ++ needle ++ post) needle <> None.
Proof.
  induction pre as [|a pre IH].
  - cbn [app]. destruct (needle ++ post) as [|b s] eqn:E; cbn [strstr].
    + destruct needle; [discriminate|discriminate].
    + rewrite <- E, starts_with_app. discriminate.
  - cbn [app strstr]. destruct (starts_with needle (a :: pre ++ needle ++ post));
      [discriminate|exact IH].
Qed.

(** With no first character of the needle before it, the needle is found
    where it stands. *)
Lemma strstr_first (c : ascii) (needle pre post : cstring) :
  forallb (fun a => negb (Ascii.eqb a c)) pre = true ->
  strstr (pre ++ (c :: needle) ++ post) (c :: needle) = Some ((c :: needle) ++ post).
Proof.
  induction pre as [|a pre IH]; intros Hpre.
  - cbn [app]. cbn [strstr]. change (c :: needle ++ post) with ((c :: needle) ++ post).
    now rewrite starts_with_app.
  - cbn [forallb] in Hpre. apply andb_true_iff in Hpre. destruct Hpre as [Ha Hpre].
    cbn [app strstr starts_with].
    assert (Ascii.eqb c a = false) as ->.
    { rewrite Ascii.eqb_sym. now apply negb_true_iff. }
    cbn [andb]. apply IH. exact Hpre.
Qed.

Lemma strchr_first (c : ascii) (pre post : cstring) :
  forallb (fun a => negb (Ascii.eqb a c)) pre = true ->
  strchr (pre ++ c :: post) c = Some (c :: post).
Proof.
  induction pre as [|a pre IH]; intros Hpre.
  - cbn [app strchr]. now rewrite Ascii.eqb_refl.
  - cbn [forallb] in Hpre. apply andb_true_iff in Hpre. destruct Hpre as [Ha Hpre].
    cbn [app strchr]. apply negb_true_iff in Ha. rewrite Ha. apply IH. exact Hpre.
Qed.

Lemma strchr_absent (c : ascii) (s : cstring) :
  forallb (fun a => negb (Ascii.eqb a c)) s = true -> strchr s c = None.
Proof.
  induction s as [|a s IH]; intros Hs; [reflexivity|].
  cbn [forallb] in Hs. apply andb_true_iff in Hs. destruct Hs as [Ha Hs].
  cbn [strchr]. apply negb_true_iff in Ha. rewrite Ha. apply IH. exact Hs.
Qed.

(** *** Decimal texts *)

Lemma digit_char_digit (d : Z) :
  0 <= d < 10 -> isdigit (digit_char d) = true /\ digit_val (digit_char d) = d.
Proof.
  intros H.
  assert (d = 0 \/ d = 1 \/ d = 2 \/ d = 3 \/ d = 4 \/ d = 5 \/ d = 6 \/ d = 7
          \/ d = 8 \/ d = 9) as Hd by lia.
  repeat (destruct Hd as [-> | Hd]; [split; reflexivity|]). subst d. split; reflexivity.
Qed.

(** Reading the digits that [fmt_digits] wrote gives the number back. *)
Lemma read_fmt_digits (rest : cstring) (fuel : nat) :
  forall (n : Z) (acc : cstring),
    0 <= n < 10 ^ Z.of_nat fuel ->
    exists m, forall k,
        read_digits (fmt_digits fuel n acc ++ rest) k = read_digits (acc ++ rest) (k * m + n).
Proof.
  induction fuel as [|fuel IH]; intros n acc Hn.
  - exists 1. intros k. cbn [fmt_digits]. change (10 ^ Z.of_nat 0) with 1 in Hn.
    f_equal. lia.
  - cbn [fmt_digits].
    assert (10 ^ Z.of_nat (S fuel) = 10 * 10 ^ Z.of_nat fuel) as Hpow
      by (rewrite Nat2Z.inj_succ, Z.pow_succ_r by lia; reflexivity).
    pose proof (Z.mod_pos_bound n 10 ltac:(lia)) as Hmod.
    destruct (digit_char_digit (n mod 10) Hmod) as [Hdig Hval].
    destruct (Z.ltb_spec n 10) as [Hlt|Hge].
    + exists 10. intros k. cbn [app read_digits]. rewrite Hdig, Hval.
      rewrite Z.mod_small by lia. f_equal. lia.
    + destruct (IH (n / 10) (digit_char (n mod 10) :: acc)) as [m Hm].
      { split; [apply Z.div_pos; lia|]. apply Z.div_lt_upper_bound; lia. }
      exists (10 * m). intros k. rewrite Hm. cbn [app read_digits]. rewrite Hdig, Hval.
      f_equal. pose proof (Z.div_mod n 10 ltac:(lia)). lia.
Qed.

Lemma fmt_u_fuel (n : Z) : 0 <= n -> n < 10 ^ Z.of_nat (S (Z.to_nat (Z.log2 n))).
Proof.
  intros Hn. rewrite Nat2Z.inj_succ, Z2Nat.id by apply Z.log2_nonneg.
  destruct (Z.eq_dec n 0) as [->|Hnz]; [reflexivity|].
  pose proof (Z.log2_spec n ltac:(lia)) as [_ Hhi].
  pose proof (Z.log2_nonneg n) as Hl.
  assert (2 ^ Z.succ (Z.log2 n) <= 10 ^ Z.succ (Z.log2 n))
    by (apply Z.pow_le_mono_l; lia).
  lia.
Qed.

Lemma read_fmt_u (n : Z) (rest : cstring) :
  0 <= n -> read_digits (fmt_u n ++ rest) 0 = read_digits rest n.
Proof.
  intros Hn. unfold fmt_u.
  destruct (read_fmt_digits rest (S (Z.to_nat (Z.log2 n))) n [])
    as [m Hm]; [split; [exact Hn|now apply fmt_u_fuel]|].
  rewrite Hm. cbn [app]. f_equal.
Qed.

Lemma fmt_u_head (n : Z) :
  0 <= n -> exists d rest, fmt_u n = d :: rest /\ isdigit d = true.
Proof.
  intros Hn. unfold fmt_u.
  generalize (Z.to_nat (Z.log2 n)) as fuel. intros fuel.
  assert (forall f m acc, 0 <= m ->
            (exists d rest, acc = d :: rest /\ isdigit d = true) ->
            exists d rest, fmt_digits f m acc = d :: rest /\ isdigit d = true) as Hgen.
  { induction f as [|f IH]; intros m acc Hm Hacc; cbn [fmt_digits]; [exact Hacc|].
    pose proof (Z.mod_pos_bound m 10 ltac:(lia)) as Hmod.
    destruct (digit_char_digit (m mod 10) Hmod) as [Hdig _].
    destruct (m <? 10).
    - do 2 eexists. split; [reflexivity|exact Hdig].
    - apply IH; [apply Z.div_pos; lia|]. do 2 eexists. split; [reflexivity|exact Hdig]. }
  cbn [fmt_digits].
  pose proof (Z.mod_pos_bound n 10 ltac:(lia)) as Hmod.
  destruct (digit_char_digit (n mod 10) Hmod) as [Hdig _].
  destruct (n <? 10).
  - do 2 eexists. split; [reflexivity|exact Hdig].
  - apply Hgen; [apply Z.div_pos; lia|]. do 2 eexists. split; [reflexivity|exact Hdig].
Qed.

Lemma isdigit_not_space (d : ascii) : isdigit d = true -> isspace d = false.
Proof.
  unfold isdigit, isspace. intros H. apply andb_true_iff in H. destruct H as [H1 H2].
  apply Z.leb_le in H1. apply Z.leb_le in H2.
  destruct (Z.eqb_spec (Z.of_nat (nat_of_ascii d)) 32); [lia|].
  destruct (Z.leb_spec 9 (Z.of_nat (nat_of_ascii d))); [|reflexivity].
  destruct (Z.leb_spec (Z.of_nat (nat_of_ascii d)) 13); [lia|reflexivity].
Qed.

Lemma isdigit_not_blank (d : ascii) :
  isdigit d = true -> (Ascii.eqb d " "%char || Ascii.eqb d "009"%char) = false.
Proof.
  intros H. apply orb_false_iff. split; apply Ascii.eqb_neq; intros ->; discriminate.
Qed.

Lemma isdigit_not_sign (d : ascii) : isdigit d = true -> d <> "-"%char /\ d <> "+"%char.
Proof. intros H. split; intros ->; discriminate. Qed.

Lemma read_digits_end (rest : cstring) (n : Z) :
  ends_number rest = true -> read_digits rest n = n.
Proof.
  destruct rest as [|a rest]; [reflexivity|]. cbn [ends_number read_digits].
  intros H. apply negb_true_iff in H. now rewrite H.
Qed.

(** The sign and the digits of [strtoll], on a text that starts with
    neither white space nor a sign. *)
Lemma strtoll_digits (d : ascii) (s : cstring) :
  isdigit d = true ->
  strtoll (d :: s) = clamp_llong (read_digits (d :: s) 0).
Proof.
  intros Hd. unfold strtoll. cbn [skip_space]. rewrite (isdigit_not_space d Hd).
  destruct d as [[] [] [] [] [] [] [] []]; try discriminate Hd; reflexivity.
Qed.

Lemma strtoll_minus (s : cstring) :
  strtoll ("-"%char :: s) = clamp_llong (- read_digits s 0).
Proof. reflexivity. Qed.

(** [strtoll] reads back the decimal text of an integer, saturated to the
    range of [long long]. *)
Lemma strtoll_fmt_d (n : Z) (rest : cstring) :
  ends_number rest = true -> strtoll (fmt_d n ++ rest) = clamp_llong n.
Proof.
  intros Hrest. unfold fmt_d. destruct (Z.ltb_spec n 0) as [Hneg|Hpos].
  - cbn [app]. rewrite strtoll_minus, read_fmt_u by lia.
    rewrite read_digits_end by assumption. f_equal. lia.
  - destruct (fmt_u_head n Hpos) as [d [r [E Hd]]].
    pose proof (read_fmt_u n rest Hpos) as Hread. rewrite E in *. cbn [app] in *.
    rewrite strtoll_digits by assumption. rewrite Hread.
    now rewrite read_digits_end.
Qed.

Lemma skip_blanks_app (blanks s : cstring) :
  forallb is_blank blanks = true -> skip_blanks (blanks ++ s) = skip_blanks s.
Proof.
  induction blanks as [|b blanks IH]; intros H; [reflexivity|].
  cbn [forallb] in H. apply andb_true_iff in H. destruct H as [Hb H].
  cbn [app skip_blanks]. unfold is_blank in Hb. rewrite Hb. now apply IH.
Qed.

Lemma fmt_d_head (n : Z) :
  exists c rest, fmt_d n = c :: rest /\ is_blank c = false.
Proof.
  unfold fmt_d. destruct (Z.ltb_spec n 0) as [Hneg|Hpos].
  - do 2 eexists. split; reflexivity.
  - destruct (fmt_u_head n Hpos) as [d [r [E Hd]]]. exists d, r. split; [exact E|].
    unfold is_blank. now apply isdigit_not_blank.
Qed.

Lemma skip_blanks_fmt_d (n : Z) (rest : cstring) :
  skip_blanks (fmt_d n ++ rest) = fmt_d n ++ rest.
Proof.
  destruct (fmt_d_head n) as [c [r [-> Hc]]]. cbn [app skip_blanks].
  unfold is_blank in Hc. now rewrite Hc.
Qed.

Lemma strstr_here (needle hay : cstring) :
  starts_with needle hay = true -> strstr hay needle = Some hay.
Proof. intros H. destruct hay; cbn [strstr]; now rewrite H. Qed.

(** [strstr] returns the first occurrence. *)
Lemma strstr_first_at (needle pre tail : cstring) :
  first_at needle pre tail = true ->
  strstr (pre ++ needle ++ tail) needle = Some (needle ++ tail).
Proof.
  induction pre as [|a pre IH]; intros H.
  - cbn [app]. apply strstr_here, starts_with_app.
  - cbn [first_at] in H. apply andb_true_iff in H. destruct H as [Hno H].
    apply negb_true_iff in Hno. cbn [app] in *. cbn [strstr]. rewrite Hno.
    now apply IH.
Qed.

Lemma skip_space_app (ws t : cstring) :
  forallb isspace ws = true -> skip_space (ws ++ t) = skip_space t.
Proof.
  induction ws as [|a ws IH]; intros H; [reflexivity|].
  cbn [forallb] in H. apply andb_true_iff in H. destruct H as [Ha H].
  cbn [app skip_space]. rewrite Ha. now apply IH.
Qed.

Lemma strtoll_spaces (ws t : cstring) :
  forallb isspace ws = true -> strtoll (ws ++ t) = strtoll t.
Proof. intros H. unfold strtoll. now rewrite skip_space_app. Qed.

(** The loop of [parse_handle] stops inside the white space or at the text
    that follows it, when that text does not begin with a space or a
    tab. *)
Lemma skip_blanks_spaces (ws t : cstring) :
  forallb isspace ws = true -> skip_blanks t = t ->
  exists ws', skip_blanks (ws ++ t) = ws' ++ t /\ forallb isspace ws' = true.
Proof.
  induction ws as [|a ws IH]; intros H Ht.
  - exists []. split; [exact Ht|reflexivity].
  - pose proof H as Hall. cbn [forallb] in H. apply andb_true_iff in H. destruct H as [Ha H].
    cbn [app skip_blanks].
    destruct (Ascii.eqb a " "%char || Ascii.eqb a "009"%char).
    + now apply IH.
    + exists (a :: ws). split; [reflexivity|exact Hall].
Qed.

Lemma strtoll_skip_blanks (ws t : cstring) :
  forallb isspace ws = true -> skip_blanks t = t ->
  strtoll (skip_blanks (ws ++ t)) = strtoll t.
Proof.
  intros H Ht. destruct (skip_blanks_spaces ws t H Ht) as [ws' [-> H']].
  now apply strtoll_spaces.
Qed.

(** [parse_handle] on a payload cut at the first marker, the first colon
    after it and the white space after the colon. *)
Lemma parse_handle_cut (pre mid blanks t : cstring) :
  first_at (quoted "handle") pre (mid ++ str ":" ++ blanks ++ t) = true ->
  lacks ":"%char mid = true ->
  forallb isspace blanks = true ->
  skip_blanks t = t ->
  parse_handle (pre ++ quoted "handle" ++ mid ++ str ":" ++ blanks ++ t) = Some (strtoll t).
Proof.
  intros Hpre Hmid Hblanks Ht. unfold parse_handle.
  rewrite (strstr_first_at _ _ _ Hpre).
  replace (quoted "handle" ++ mid ++ str ":" ++ blanks ++ t)
    with ((quoted "handle" ++ mid) ++ ":"%char :: blanks ++ t)
    by (now rewrite <- app_assoc).
  rewrite strchr_first.
  - cbn [tl]. now rewrite strtoll_skip_blanks.
  - unfold lacks in *. rewrite forallb_app, Hmid, andb_true_r. reflexivity.
Qed.

(** [parse_handle] reads the number written after the first colon that
    follows the first ["handle"] marker. *)
Lemma parse_handle_payload (pre mid blanks rest : cstring) (n : Z) :
  first_at (quoted "handle") pre (mid ++ str ":" ++ blanks ++ fmt_d n ++ rest) = true ->
  lacks ":"%char mid = true ->
  forallb isspace blanks = true ->
  ends_number rest = true ->
  parse_handle (pre ++ quoted "handle" ++ mid ++ str ":" ++ blanks ++ fmt_d n ++ rest)
  = Some (clamp_llong n).
Proof.
  intros Hpre Hmid Hblanks Hrest.
  rewrite (parse_handle_cut pre mid blanks (fmt_d n ++ rest) Hpre Hmid Hblanks
                            (skip_blanks_fmt_d n rest)).
  now rewrite strtoll_fmt_d.
Qed.

(** Where no number stands, [strtoll] returns 0. *)
Lemma strtoll_no_number (rest : cstring) : no_number rest = true -> strtoll rest = 0.
Proof.
  destruct rest as [|a r]; [reflexivity|]. cbn [no_number]. intros H.
  apply andb_true_iff in H. destruct H as [H Hsign].
  apply andb_true_iff in H. destruct H as [Hsp Hdig].
  apply negb_true_iff in Hsp. apply negb_true_iff in Hdig.
  unfold strtoll. cbn [skip_space]. rewrite Hsp.
  destruct (Ascii.eqb_spec a "-"%char) as [->|Hm].
  - cbn [orb] in Hsign. now rewrite read_digits_end.
  - destruct (Ascii.eqb_spec a "+"%char) as [->|Hp].
    + cbn [orb] in Hsign. now rewrite read_digits_end.
    + assert (match a :: r with
              | "-"%char :: r0 => (true, r0)
              | "+"%char :: r0 => (false, r0)
              | _ => (false, a :: r)
              end = (false, a :: r)) as ->.
      { destruct a as [[] [] [] [] [] [] [] []]; try reflexivity; congruence. }
      cbn [read_digits]. now rewrite Hdig.
Qed.

Lemma no_number_no_blank (rest : cstring) : no_number rest = true -> skip_blanks rest = rest.
Proof.
  destruct rest as [|a r]; [reflexivity|]. cbn [no_number skip_blanks]. intros H.
  apply andb_true_iff in H. destruct H as [H _].
  apply andb_true_iff in H. destruct H as [Hsp _]. apply negb_true_iff in Hsp.
  destruct (Ascii.eqb_spec a " "%char) as [->|_]; [discriminate|].
  destruct (Ascii.eqb_spec a "009"%char) as [->|_]; [discriminate|]. reflexivity.
Qed.

(** A handle that is not written as a number parses to 0. *)
Lemma parse_handle_no_number (pre mid blanks rest : cstring) :
  first_at (quoted "handle") pre (mid ++ str ":" ++ blanks ++ rest) = true ->
  lacks ":"%char mid = true ->
  forallb isspace blanks = true ->
  no_number rest = true ->
  parse_handle (pre ++ quoted "handle" ++ mid ++ str ":" ++ blanks ++ rest) = Some 0.
Proof.
  intros Hpre Hmid Hblanks Hrest.
  rewrite (parse_handle_cut pre mid blanks rest Hpre Hmid Hblanks
                            (no_number_no_blank rest Hrest)).
  now rewrite strtoll_no_number.
Qed.

(** Whatever the payload, a handle that [parse_handle] returns is in the
    range of [long long]. *)
Lemma parse_handle_range (js : cstring) (h : Z) :
  parse_handle js = Some h -> LLONG_MIN <= h <= LLONG_MAX.
Proof.
  unfold parse_handle.
  destruct (strstr js (quoted "handle")) as [p|]; [|intros [= <-]; unfold LLONG_MIN, LLONG_MAX; lia].
  destruct (strchr p ":"%char) as [colon|]; [|discriminate].
  intros [= <-]. unfold strtoll.
  destruct (skip_space (skip_blanks (tl colon))) as [|c r].
  - unfold LLONG_MIN, LLONG_MAX. cbn. lia.
  - destruct (match c :: r with
              | "-"%char :: r0 => (true, r0)
              | "+"%char :: r0 => (false, r0)
              | _ => (false, c :: r)
              end) as [neg s2].
    unfold LLONG_MIN, LLONG_MAX. lia.
Qed.

(** [is_error] holds of the payloads that contain ["error"], quotes
    included, and of no others. *)
Lemma is_error_iff (r : option cstring) :
  is_error r = true <-> exists pre post, r = Some (pre ++ quoted "error" ++ post).
Proof.
  unfold is_error. destruct r as [s|].
  - destruct (strstr s (quoted "error")) as [q|] eqn:E.
    + split; [intros _|reflexivity].
      destruct (strstr_found _ _ _ E) as [pre [post [-> ->]]]. now exists pre, post.
    + split; [discriminate|]. intros [pre [post [= ->]]].
      exfalso. now apply (strstr_holds (quoted "error") pre post).
  - split; [discriminate|]. intros [pre [post H]]. discriminate.
Qed.

(** ** Reading the output values *)

Lemma stored_from_nil (out : farray) (i j : Z) : stored_from out i [] j = out j.
Proof.
  unfold stored_from. cbn [List.length]. destruct (Z.leb_spec i j); [|reflexivity].
  destruct (Z.ltb_spec j (i + Z.of_nat 0)); [lia|reflexivity].
Qed.

Lemma stored_from_cons (out : farray) (i : Z) (v : spec_float) (vals : list spec_float) (j : Z) :
  stored_from (upd out i v) (i + 1) vals j = stored_from out i (v :: vals) j.
Proof.
  unfold stored_from, upd. cbn [List.length]. rewrite Nat2Z.inj_succ.
  destruct (Z.eqb_spec j i) as [->|Hne].
  - destruct (Z.leb_spec (i + 1) i); [lia|].
    destruct (Z.leb_spec i i); [|lia].
    destruct (Z.ltb_spec i (i + Z.succ (Z.of_nat (List.length vals)))); [|lia].
    cbn [andb]. now rewrite Z.sub_diag.
  - destruct (Z.leb_spec (i + 1) j) as [H1|H1];
      destruct (Z.ltb_spec j (i + 1 + Z.of_nat (List.length vals))) as [H2|H2];
      destruct (Z.leb_spec i j) as [H3|H3];
      destruct (Z.ltb_spec j (i + Z.succ (Z.of_nat (List.length vals)))) as [H4|H4];
      cbn [andb]; try lia; try reflexivity.
    replace (Z.to_nat (j - i)) with (S (Z.to_nat (j - (i + 1)))) by lia. reflexivity.
Qed.

Lemma stored_from_one (out : farray) (i : Z) (v : spec_float) (j : Z) :
  upd out i v j = stored_from out i [v] j.
Proof.
  rewrite <- stored_from_cons. now rewrite stored_from_nil.
Qed.

(** The loop of [extract_first_n] on the text of a list of values: it stores
    them in order, as many as it is asked for or as the list holds. *)
Lemma extract_loop_decode (strtof : c_strtof) (post : cstring) (n : Z) :
  forall (items : list (cstring * spec_float)) (fuel : nat) (i : Z) (out : farray),
    Forall (fun tv => reads strtof (fst tv) (snd tv)) items ->
    items <> [] ->
    i + Z.of_nat fuel = n ->
    (fuel <= List.length items)%nat \/ strchr post ","%char = None ->
    let r := extract_loop strtof fuel i n
                          (join_items (map fst items) ++ "]"%char :: post) out in
    snd r = i + Z.of_nat (Nat.min fuel (List.length items)) /\
    forall j, fst r j = stored_from out i (firstn fuel (map snd items)) j.
Proof.
  induction items as [|[t v] rest IH]; intros fuel i out Hreads Hne Hi Hpost; [congruence|].
  pose proof (Forall_inv Hreads) as Ht. pose proof (Forall_inv_tail Hreads) as Hrest.
  cbn [fst snd] in Ht.
  destruct fuel as [|f].
  - cbn [extract_loop Nat.min firstn fst snd]. split; [lia|].
    intros j. now rewrite stored_from_nil.
  - cbn [extract_loop map firstn fst snd]. destruct rest as [|tv2 rest'].
    + (* the last value of the text *)
      cbn [map join_items firstn List.length].
      rewrite (Ht "]"%char post (or_intror eq_refl)).
      destruct (Z.eqb_spec i (n - 1)) as [Hlast|Hmore].
      * cbn [strchr]. rewrite Ascii.eqb_refl. cbn [tl].
        assert (f = O) as -> by lia. cbn [extract_loop fst snd Nat.min]. split; [lia|].
        intros j. apply stored_from_one.
      * cbn [strchr]. change (Ascii.eqb "]" ",") with false. cbv iota.
        destruct Hpost as [Hlen|Hnone]; [cbn [List.length] in Hlen; lia|].
        rewrite Hnone. cbn [fst snd]. split.
        -- rewrite Nat.min_r by lia. lia.
        -- intros j. destruct f; apply stored_from_one.
    + (* a value followed by a comma and more values *)
      change (join_items (t :: map fst (tv2 :: rest')))
        with (t ++ str "," ++ join_items (map fst (tv2 :: rest'))).
      repeat rewrite <- app_assoc. cbn [str list_ascii_of_string app].
      rewrite (Ht ","%char _ (or_introl eq_refl)).
      destruct (Z.eqb_spec i (n - 1)) as [Hlast|Hmore].
      * assert (f = O) as -> by lia.
        destruct (strchr _ "]"%char) as [q|];
          cbn [extract_loop fst snd Nat.min firstn List.length].
        -- split; [lia|]. intros j. apply stored_from_one.
        -- split; [lia|]. intros j. apply stored_from_one.
      * cbn [strchr]. rewrite Ascii.eqb_refl. cbn [tl].
        destruct (IH f (i + 1) (upd out i v) Hrest ltac:(discriminate) ltac:(lia))
          as [Hsnd Hfst].
        { destruct Hpost as [Hlen|Hnone]; [left; cbn [List.length] in *; lia|now right]. }
        cbv zeta in Hsnd, Hfst. split.
        -- rewrite Hsnd. cbn [List.length Nat.min]. lia.
        -- intros j. rewrite Hfst. apply stored_from_cons.
Qed.

(** [extract_first_n] on a payload whose first ["[["] opens a list of
    values closed by ["]"]. *)
Lemma extract_first_n_decode (strtof : c_strtof) (pre post : cstring)
      (items : list (cstring * spec_float)) (out : farray) (n : Z) :
  lacks "["%char pre = true ->
  Forall (fun tv => reads strtof (fst tv) (snd tv)) items ->
  items <> [] ->
  0 <= n ->
  n <= Z.of_nat (List.length items) \/ strchr post ","%char = None ->
  let js := pre ++ str "[[" ++ join_items (map fst items) ++ str "]" ++ post in
  let r := extract_first_n strtof js out n in
  snd r = Z.min n (Z.of_nat (List.length items)) /\
  forall j, fst r j = stored_from out 0 (firstn (Z.to_nat n) (map snd items)) j.
Proof.
  intros Hpre Hreads Hne Hn Hpost js r. subst js r. unfold extract_first_n.
  change (str "[[") with ("["%char :: ["["%char]).
  rewrite (strstr_first "["%char ["["%char] pre) by exact Hpre.
  cbn [app skipn str list_ascii_of_string].
  destruct (extract_loop_decode strtof post n items (Z.to_nat n) 0 out Hreads Hne
              ltac:(lia)) as [Hsnd Hfst].
  { destruct Hpost as [Hlen|Hnone]; [left; lia|now right]. }
  cbv zeta in Hsnd, Hfst. split; [|exact Hfst].
  rewrite Hsnd. lia.
Qed.

(** When the payload has a ["[["] and at least one value is asked for, the
    first element is always overwritten with what [strtof] returns for the
    text after the brackets. *)
Lemma extract_first_n_head (strtof : c_strtof) (js p : cstring) (out : farray) (n : Z) :
  strstr js (str "[[") = Some p -> 1 <= n ->
  let r := extract_first_n strtof js out n in
  1 <= snd r /\ fst r 0 = fst (strtof (skipn 2 p)).
Proof.
  intros Hp Hn. unfold extract_first_n. rewrite Hp.
  destruct (Z.to_nat n) as [|f] eqn:E; [lia|]. cbn [extract_loop].
  destruct (strtof (skipn 2 p)) as [v p1]. cbn [fst].
  destruct (strchr p1 (if 0 =? n - 1 then "]"%char else ","%char)) as [q|].
  - pose proof (extract_loop_frame strtof f (0 + 1) n (tl q) (upd out 0 v)) as H.
    cbv zeta in H. destruct H as [Hw Hframe]. split; [lia|].
    rewrite Hframe by lia. apply upd_same.
  - cbn [fst snd]. split; [lia|apply upd_same].
Qed.

(** ** The descriptors read back *)

Lemma expect_app (p rest : cstring) : expect p (p ++ rest) = Some rest.
Proof.
  unfold expect. rewrite starts_with_app. f_equal.
  induction p as [|a p IH]; [reflexivity|exact IH].
Qed.

(** Reading the digits that [fmt_digits] wrote gives the number back, and
    stops after them. *)
Lemma read_nat_fmt_digits (rest : cstring) (fuel : nat) :
  forall (n : Z) (acc : cstring),
    0 <= n < 10 ^ Z.of_nat fuel ->
    exists m, forall k,
        read_nat (fmt_digits fuel n acc ++ rest) k = read_nat (acc ++ rest) (k * m + n).
Proof.
  induction fuel as [|fuel IH]; intros n acc Hn.
  - exists 1. intros k. cbn [fmt_digits]. change (10 ^ Z.of_nat 0) with 1 in Hn.
    f_equal. lia.
  - cbn [fmt_digits].
    assert (10 ^ Z.of_nat (S fuel) = 10 * 10 ^ Z.of_nat fuel) as Hpow
      by (rewrite Nat2Z.inj_succ, Z.pow_succ_r by lia; reflexivity).
    pose proof (Z.mod_pos_bound n 10 ltac:(lia)) as Hmod.
    destruct (digit_char_digit (n mod 10) Hmod) as [Hdig Hval].
    destruct (Z.ltb_spec n 10) as [Hlt|Hge].
    + exists 10. intros k. cbn [app read_nat]. rewrite Hdig, Hval.
      rewrite Z.mod_small by lia. f_equal. lia.
    + destruct (IH (n / 10) (digit_char (n mod 10) :: acc)) as [m Hm].
      { split; [apply Z.div_pos; lia|]. apply Z.div_lt_upper_bound; lia. }
      exists (10 * m). intros k. rewrite Hm. cbn [app read_nat]. rewrite Hdig, Hval.
      f_equal. pose proof (Z.div_mod n 10 ltac:(lia)). lia.
Qed.

Lemma read_nat_end (rest : cstring) (n : Z) :
  ends_number rest = true -> read_nat rest n = (n, rest).
Proof.
  destruct rest as [|a rest]; [reflexivity|]. cbn [ends_number read_nat].
  intros H. apply negb_true_iff in H. now rewrite H.
Qed.

(** The reader's number is the one [printf] wrote for ["%d"]. *)
Lemma read_number_fmt_d (n : Z) (rest : cstring) :
  0 <= n -> ends_number rest = true -> read_number (fmt_d n ++ rest) = Some (n, rest).
Proof.
  intros Hn Hrest. unfold fmt_d. destruct (Z.ltb_spec n 0) as [Hneg|_]; [lia|].
  assert (read_nat (fmt_u n ++ rest) 0 = (n, rest)) as Hnat.
  { unfold fmt_u.
    destruct (read_nat_fmt_digits rest (S (Z.to_nat (Z.log2 n))) n [])
      as [m Hm]; [split; [exact Hn|now apply fmt_u_fuel]|].
    rewrite Hm. cbn [app]. now rewrite read_nat_end. }
  destruct (fmt_u_head n Hn) as [d [r [E Hd]]].
  unfold read_number. rewrite E in *. cbn [app] in *. rewrite Hd. now rewrite Hnat.
Qed.

Lemma read_shape_text (w : Z) (rest : cstring) :
  0 <= w -> read_shape (shape_text w ++ rest) = Some ((w, 1), rest).
Proof.
  intros Hw. unfold read_shape, shape_text.
  repeat rewrite <- app_assoc.
  replace (str "{" ++ quoted "Width" ++ str ":" ++ fmt_d w ++ str "," ++ quoted "Height"
               ++ str ":1}" ++ rest)
    with ((str "{" ++ quoted "Width" ++ str ":")
            ++ fmt_d w ++ (str "," ++ quoted "Height" ++ str ":") ++ str "1}" ++ rest)
    by reflexivity.
  rewrite expect_app.
  rewrite read_number_fmt_d by (try assumption; reflexivity).
  rewrite expect_app. reflexivity.
Qed.

Lemma read_string_quoted (rest : cstring) :
  read_string (quoted "relu" ++ rest) = Some (str "relu", rest).
Proof. reflexivity. Qed.

Lemma read_flag_true (rest : cstring) : read_flag (str "true" ++ rest) = Some (true, rest).
Proof. reflexivity. Qed.

(** The text of an array item is not empty. *)
Lemma join_items_length (texts : list cstring) :
  Forall (fun t => t <> []) texts -> (List.length texts <= List.length (join_items texts))%nat.
Proof.
  induction 1 as [|t texts Ht Hts IH]; [cbn; lia|].
  destruct texts as [|u texts].
  - cbn [join_items List.length]. destruct t; [congruence|cbn; lia].
  - change (join_items (t :: u :: texts)) with (t ++ str "," ++ join_items (u :: texts)).
    rewrite !length_app. destruct t; [congruence|]. cbn [List.length] in *. lia.
Qed.

(** Items that the reader reads back, one after the other. *)
Lemma read_items_join {A : Type} (item : cstring -> option (A * cstring))
      (rest : cstring) :
  forall (pairs : list (A * cstring)) (fuel : nat),
    Forall (fun p => forall r, item (snd p ++ r) = Some (fst p, r)) pairs ->
    pairs <> [] ->
    (List.length pairs <= fuel)%nat ->
    match rest with ","%char :: _ => False | _ => True end ->
    read_items fuel item (join_items (map snd pairs) ++ rest) = Some (map fst pairs, rest).
Proof.
  induction pairs as [|[a t] pairs IH]; intros fuel Hread Hne Hfuel Hrest; [congruence|].
  pose proof (Forall_inv Hread) as Ht. pose proof (Forall_inv_tail Hread) as Hts.
  cbn [fst snd] in Ht.
  destruct fuel as [|f]; [cbn in Hfuel; lia|].
  destruct pairs as [|[b u] pairs].
  - cbn [map join_items read_items fst snd]. rewrite Ht.
    destruct rest as [|c rest]; [reflexivity|].
    destruct (Ascii.eqb_spec c ","%char) as [->|Hc]; [contradiction|].
    destruct c as [[] [] [] [] [] [] [] []]; try reflexivity; congruence.
  - change (join_items (map snd ((a, t) :: (b, u) :: pairs)))
      with (t ++ str "," ++ join_items (map snd ((b, u) :: pairs))).
    repeat rewrite <- app_assoc. cbn [read_items]. rewrite Ht. cbn [str app list_ascii_of_string].
    rewrite (IH f Hts ltac:(discriminate) ltac:(cbn [List.length] in *; lia) Hrest).
    reflexivity.
Qed.

Lemma read_array_json {A : Type} (item : cstring -> option (A * cstring))
      (pairs : list (A * cstring)) :
  Forall (fun p => forall r, item (snd p ++ r) = Some (fst p, r)) pairs ->
  Forall (fun t => t <> []) (map snd pairs) ->
  pairs <> [] ->
  read_array item (json_array (map snd pairs)) = Some (map fst pairs).
Proof.
  intros Hread Hnonempty Hne. unfold read_array, json_array.
  rewrite expect_app.
  rewrite (read_items_join item (str "]") pairs); try assumption.
  - reflexivity.
  - pose proof (join_items_length _ Hnonempty) as H. rewrite length_map in H.
    rewrite length_app. lia.
  - exact Logic.I.
Qed.

(** The shapes descriptor of the widths [ws], read back. *)
Lemma read_shapes_json (ws : list Z) :
  Forall (fun w => 0 <= w) ws -> ws <> [] ->
  read_shapes (json_array (map shape_text ws)) = Some (map (fun w => (w, 1)) ws).
Proof.
  intros Hpos Hne.
  pose proof (read_array_json read_shape (map (fun w => ((w, 1), shape_text w)) ws)) as H.
  rewrite !map_map in H. cbn [fst snd] in H. apply H.
  - apply Forall_map. apply Forall_impl with (2 := Hpos). intros w Hw r. cbn [fst snd].
    now apply read_shape_text.
  - apply Forall_map. apply Forall_forall. intros w _. discriminate.
  - destruct ws; [congruence|discriminate].
Qed.

Lemma read_strings_json (n : nat) :
  (0 < n)%nat ->
  read_strings (json_array (repeat (quoted "relu") n)) = Some (repeat (str "relu") n).
Proof.
  intros Hn.
  pose proof (read_array_json read_string (repeat (str "relu", quoted "relu") n)) as H.
  rewrite !map_repeat in H. cbn [fst snd] in H. apply H.
  - apply Forall_forall. intros p Hp. apply repeat_spec in Hp. subst p. intros r. reflexivity.
  - apply Forall_forall. intros t Ht. apply repeat_spec in Ht. subst t. discriminate.
  - destruct n; [lia|discriminate].
Qed.

Lemma read_flags_json (n : nat) :
  (0 < n)%nat ->
  read_flags (json_array (repeat (str "true") n)) = Some (repeat true n).
Proof.
  intros Hn.
  pose proof (read_array_json read_flag (repeat (true, str "true") n)) as H.
  rewrite !map_repeat in H. cbn [fst snd] in H. apply H.
  - apply Forall_forall. intros p Hp. apply repeat_spec in Hp. subst p. intros r. reflexivity.
  - apply Forall_forall. intros t Ht. apply repeat_spec in Ht. subst t. discriminate.
  - destruct n; [lia|discriminate].
Qed.

(** ** The protocol of a benchmark case *)

Lemma flat_map_stolen {X : Type} (f : event -> list X) (n : nat) (c : call)
      (r : option cstring) :
  f (EvCopy n) = [] -> f (EvFreeCString n) = [] ->
  flat_map f (stolen_events n c r) = f (EvCall c r).
Proof.
  intros Hc Hf. unfold stolen_events. destruct r; cbn [flat_map].
  - now rewrite Hc, Hf, !app_nil_r.
  - now rewrite app_nil_r.
Qed.

Lemma flat_map_released {X : Type} (f : event -> list X) (n : nat) (c : call)
      (r : option cstring) :
  f (EvFreeCString n) = [] ->
  flat_map f (released_events n c r) = f (EvCall c r).
Proof.
  intros Hf. unfold released_events. destruct r; cbn [flat_map].
  - now rewrite Hf, !app_nil_r.
  - now rewrite app_nil_r.
Qed.

Ltac views :=
  unfold calls, prints, perturbs, creations, enables, frees, clock_readings, speedups, marks
    in *;
  repeat rewrite flat_map_app;
  repeat rewrite flat_map_stolen by reflexivity;
  repeat rewrite flat_map_released by reflexivity;
  repeat match goal with
         | H : flat_map ?f ?es = _ |- context [flat_map ?f ?es] => rewrite H
         end;
  cbn [flat_map app mark_of].

(** One warm-up or timed call. *)
Lemma forward_once_events (w : world) (h : Z) (input : cstring) (tr : list event) :
  exists es, forward_once w h input tr = (Some tt, tr ++ es) /\
             calls es = [forward_call h input] /\ prints es = [] /\ marks es = [] /\
             perturbs es = [].
Proof.
  unfold forward_once, bind. rewrite stolen_run.
  destruct (copy_ok w tr (Paragon_Call h (str "Forward") input));
    (eexists; split; [reflexivity|]; repeat split; views; reflexivity).
Qed.

Lemma repeat_forward_events (w : world) (h : Z) (input : cstring) (n : nat) :
  forall tr, exists es,
    repeat_M n (forward_once w h input) tr = (Some tt, tr ++ es) /\
    calls es = repeat (forward_call h input) n /\ prints es = [] /\ marks es = [] /\
    perturbs es = [].
Proof.
  induction n as [|n IH]; intros tr; cbn [repeat_M].
  - exists []. rewrite app_nil_r. repeat split; reflexivity.
  - unfold bind.
    destruct (forward_once_events w h input tr) as [es1 [-> [Hc1 [Hp1 [Hm1 Hq1]]]]].
    destruct (IH (tr ++ es1)) as [es2 [-> [Hc2 [Hp2 [Hm2 Hq2]]]]].
    exists (es1 ++ es2). rewrite app_assoc. split; [reflexivity|].
    repeat split; views; reflexivity.
Qed.

(** A timed phase always completes; it adds its calls, its two clock
    readings and its report line. *)
Lemma measure_events (w : world) (h : Z) (input : cstring) (runs : Z) (tr : list event) :
  exists t0 t1 out es,
    measure w h input runs tr = (Some (B64.sub t1 t0, out), tr ++ es) /\
    phase_events w h input runs t0 t1 out es.
Proof.
  unfold measure, bind.
  destruct (repeat_forward_events w h input 10 tr) as [es1 [-> [Hc1 [Hp1 [Hm1 Hq1]]]]].
  unfold now_sec at 1.
  destruct (repeat_forward_events w h input (Z.to_nat runs)
              ((tr ++ es1) ++ [EvClock (clock w (tr ++ es1))]))
    as [es2 [-> [Hc2 [Hp2 [Hm2 Hq2]]]]].
  unfold now_sec. rewrite stolen_run.
  match goal with
  | |- context [copy_ok w ?t ?c] => destruct (copy_ok w t c) eqn:Hok
  end; unfold emit, ret; do 3 eexists.
  - eexists (es1 ++ [EvClock _] ++ es2 ++ [EvClock _] ++ stolen_events _ _ _ ++ [EvPrint _]).
    split; [repeat rewrite <- app_assoc; reflexivity|].
    unfold phase_events, phase_calls, time_line.
    split; [|split; [|split; [|split]]]; views.
    + rewrite repeat_app. cbn [repeat app]. repeat rewrite <- app_assoc. reflexivity.
    + reflexivity.
    + reflexivity.
    + reflexivity.
    + match type of Hok with copy_ok _ ?t _ = _ => exists t end.
      unfold extract_call. rewrite Hok. repeat rewrite <- app_assoc. reflexivity.
  - eexists (es1 ++ [EvClock _] ++ es2 ++ [EvClock _] ++ released_events _ _ _ ++ [EvPrint _]).
    split; [repeat rewrite <- app_assoc; reflexivity|].
    unfold phase_events, phase_calls, time_line.
    split; [|split; [|split; [|split]]]; views.
    + rewrite repeat_app. cbn [repeat app]. repeat rewrite <- app_assoc. reflexivity.
    + reflexivity.
    + reflexivity.
    + reflexivity.
    + match type of Hok with copy_ok _ ?t _ = _ => exists t end.
      unfold extract_call. rewrite Hok. repeat rewrite <- app_assoc. reflexivity.
Qed.

Lemma wp_measure_events (w : world) (h : Z) (input : cstring) (runs : Z) Q tr :
  (forall t0 t1 out es,
      phase_events w h input runs t0 t1 out es ->
      Q (Some (B64.sub t1 t0, out)) (tr ++ es)) ->
  wp (measure w h input runs) Q tr.
Proof.
  intros HQ. unfold wp.
  destruct (measure_events w h input runs tr) as [t0 [t1 [out [es [-> H]]]]].
  now apply HQ.
Qed.

(** The parity block prints its header, ten rows and the count. *)
Lemma parity_run (w : world) (cpu_js gpu_js : cstring) (tr : list event) :
  parity w (Some cpu_js) (Some gpu_js) tr
  = (Some tt, tr ++ map EvPrint (parity_lines (strtof w) cpu_js gpu_js)).
Proof.
  unfold parity, parity_lines, indices10, bind, lift, ret, emit.
  cbn [fold_right map app]. repeat rewrite <- app_assoc. reflexivity.
Qed.

Lemma wp_parity (w : world) (cpu_out gpu_out : option cstring) Q tr :
  match cpu_out, gpu_out with
  | Some cpu_js, Some gpu_js =>
      Q (Some tt) (tr ++ map EvPrint (parity_lines (strtof w) cpu_js gpu_js))
  | _, _ => Q None tr
  end ->
  wp (parity w cpu_out gpu_out) Q tr.
Proof.
  unfold wp. destruct cpu_out as [c|]; [destruct gpu_out as [g|]|].
  - now rewrite parity_run.
  - exact (fun H => H).
  - exact (fun H => H).
Qed.

Lemma prints_map (ls : list line) : prints (map EvPrint ls) = ls.
Proof. induction ls as [|l ls IH]; [reflexivity|]. cbn. now f_equal. Qed.

Lemma flat_map_prints_nil {X : Type} (f : event -> list X) (ls : list line) :
  (forall l, f (EvPrint l) = []) -> flat_map f (map EvPrint ls) = [].
Proof.
  intros H. induction ls as [|l ls IH]; [reflexivity|]. cbn [map flat_map].
  now rewrite H, IH.
Qed.

Lemma prints_map_flat (ls : list line) :
  flat_map (fun e => match e with EvPrint l => [l] | _ => [] end) (map EvPrint ls) = ls.
Proof. exact (prints_map ls). Qed.

(** A timed phase creates, enables and releases nothing. *)
Lemma phase_events_marks (w : world) (h : Z) (input : cstring) (runs : Z)
      (t0 t1 : spec_float) (out : option cstring) (es : list event) :
  phase_events w h input runs t0 t1 out es ->
  frees es = [] /\ creations es = [] /\ enables es = [] /\ clock_readings es = [t0; t1].
Proof.
  intros [_ [_ [Hm _]]].
  rewrite frees_marks, creations_marks, enables_marks, clock_readings_marks, Hm.
  repeat split; reflexivity.
Qed.

Ltac wp_go :=
  lazymatch goal with
  | |- wp (bind _ _) _ _ => apply wp_bind
  | |- wp (ret _) _ _ => apply wp_ret
  | |- wp (lift _) _ _ => apply wp_lift
  | |- wp (emit _) _ _ => apply wp_emit
  | |- wp (stolen _ _) _ _ => apply wp_stolen; intros ?
  | |- wp (print_payload _ _) _ _ => apply wp_print_payload
  | |- wp (measure _ _ _ _) _ _ => apply wp_measure_events; intros ? ? ? ? ?
  | |- wp (parity _ _ _) _ _ => apply wp_parity
  | |- wp (if ?b then _ else _) _ _ => destruct b eqn:?
  | |- match ?o with Some _ => _ | None => _ end => destruct o eqn:?
  end; cbv beta iota zeta.

Ltac views_all :=
  unfold calls, prints, perturbs, creations, enables, frees, clock_readings in *;
  repeat rewrite flat_map_app;
  repeat rewrite flat_map_stolen by reflexivity;
  repeat rewrite flat_map_released by reflexivity;
  repeat rewrite prints_map_flat;
  repeat rewrite flat_map_prints_nil by (intros; reflexivity);
  repeat match goal with
         | H : flat_map ?f ?es = _ |- context [flat_map ?f ?es] => rewrite H
         end;
  cbn [flat_map app].

Ltac use_error :=
  cbv zeta;
  match goal with
  | H : is_error (Some ?s) = _ |- context [is_error (Some ?s)] => rewrite H
  end.

Lemma run_case_outcome (w : world) (name : cstring)
      (in_dim hidden hidden_layers out_dim runs : Z) (tr0 : list event) :
  wp (run_case w name in_dim hidden hidden_layers out_dim runs)
     (fun a tr =>
        a = Some tt ->
        exists es, tr = tr0 ++ es /\
                   case_outcome w name in_dim hidden hidden_layers out_dim runs es) tr0.
Proof.
  unfold run_case.
  repeat wp_go.
  all: try (intros ?; discriminate).
  all: intros _; eexists; (split; [repeat rewrite <- app_assoc; reflexivity|]).
  all: match goal with
       | H : (if ?b then None else Some ?v) = Some ?z |- _ =>
           destruct b; [discriminate|];
           assert (z = v) as -> by (symmetry; exact (f_equal (fun o => match o with
                                                                       | Some x => x
                                                                       | None => v
                                                                       end) H));
           clear H
       end.
  all: repeat match goal with
              | H : phase_events _ _ _ _ _ _ _ _ |- _ =>
                  let Hm := fresh in
                  pose proof (phase_events_marks _ _ _ _ _ _ _ _ H) as Hm;
                  destruct Hm as (? & ? & ? & ?); destruct H as (? & ? & _ & ? & _)
              end.
  all: unfold case_outcome; do 4 eexists.
  all: split; [eassumption|]; split; [eassumption|]; split; [eassumption|].
  all: split; [views_all; reflexivity|].
  all: use_error.
  - repeat split; views_all; reflexivity.
  - do 2 eexists. split; [eassumption|]. split; [views_all; reflexivity|].
    split; [views_all; reflexivity|]. use_error.
    repeat split; views_all; reflexivity.
  - do 2 eexists. split; [eassumption|]. split; [views_all; reflexivity|].
    split; [views_all; reflexivity|]. use_error.
    do 5 eexists. split; [eassumption|]. split; [views_all; reflexivity|]. use_error.
    split; [|split]; views_all; reflexivity.
  - do 2 eexists. split; [eassumption|]. split; [views_all; reflexivity|].
    split; [views_all; reflexivity|]. use_error.
    do 5 eexists. split; [eassumption|]. split; [views_all; reflexivity|]. use_error.
    do 4 eexists. split; [|split]; views_all;
      rewrite ?app_nil_r, <- ?app_assoc; reflexivity.
Qed.

(** ** Runs that complete, and the loop of [main] *)

Lemma sizes_layers (in_dim hidden hidden_layers out_dim : Z) :
  sizes_ok in_dim hidden hidden_layers out_dim ->
  build_layers_json in_dim hidden hidden_layers out_dim
  = Some (json_array (map shape_text (layer_widths in_dim hidden hidden_layers out_dim))) /\
  build_activ_json (1 + hidden_layers + 1)
  = Some (json_array (repeat (quoted "relu") (Z.to_nat (hidden_layers + 2)))) /\
  build_fully_json (1 + hidden_layers + 1)
  = Some (json_array (repeat (str "true") (Z.to_nat (hidden_layers + 2)))).
Proof.
  intros (Hin & Hhid & Hhl & Hout). unfold INT_MAX in *.
  replace (1 + hidden_layers + 1) with (hidden_layers + 2) by lia.
  split; [|split].
  - apply build_layers_json_ok; unfold in_int, INT_MIN, INT_MAX; lia.
  - unfold build_activ_json. apply build_items_json_ok; [|unfold INT_MAX; lia].
    change (strlen (quoted "relu")) with 6. lia.
  - unfold build_fully_json. apply build_items_json_ok; [|unfold INT_MAX; lia].
    change (strlen (str "true")) with 4. lia.
Qed.

Ltac engine_contra Hnull Hparse :=
  match goal with
  | H : engine _ ?tr ?c = None |- _ => exact (Hnull tr c H)
  | H : None = engine _ ?tr ?c |- _ => exact (Hnull tr c (eq_sym H))
  | H : engine _ ?tr (Paragon_NewNetworkFloat32 _ _ _ _ _) = Some ?s,
    P : parse_handle ?s = None |- _ => exact (Hparse _ _ _ _ _ _ _ H P)
  end.

(** With positive [int] sizes, an engine that answers, a [malloc] that
    returns a buffer for every copy and a generator that conforms to the C
    standard, a benchmark case runs to its end from any trace. *)
Lemma run_case_completes (w : world) (name : cstring)
      (in_dim hidden hidden_layers out_dim runs : Z) (tr0 : list event) :
  sizes_ok in_dim hidden hidden_layers out_dim ->
  engine_answers w ->
  malloc_succeeds w ->
  rand_conforms (c_gen w) ->
  fst (run_case w name in_dim hidden hidden_layers out_dim runs tr0) = Some tt.
Proof.
  intros Hsizes [Hnull Hparse] Hmalloc Hrand.
  destruct (sizes_layers _ _ _ _ Hsizes) as (Hl & Ha & Hf).
  pose proof (make_input_ok (c_gen w) in_dim Hrand) as Hinput.
  destruct Hsizes as (Hin & Hhid & Hhl & Hout).
  specialize (Hinput ltac:(lia)).
  change (wp (run_case w name in_dim hidden hidden_layers out_dim runs)
             (fun a _ => a = Some tt) tr0).
  unfold run_case.
  repeat wp_go.
  all: try reflexivity.
  all: exfalso.
  all: try match goal with
           | H : copy_ok ?w' ?t ?c = false |- _ =>
               rewrite (copy_ok_succeeds w' t c Hmalloc) in H; discriminate H
           end.
  all: match goal with
       | H : (if ?b then None else Some ?v) = _ |- _ =>
           destruct (Z.ltb_spec INT_MAX (1 + hidden_layers + 1)) as [Hbad|_]; [lia|];
           try discriminate H;
           match type of H with
           | _ = Some ?z =>
               assert (z = v) as -> by (symmetry; exact (f_equal (fun o => match o with
                                                                           | Some x => x
                                                                           | None => v
                                                                           end) H));
               clear H
           end
       end.
  all: try congruence.
  all: try engine_contra Hnull Hparse.
  all: repeat match goal with
              | H : phase_events _ _ _ _ _ _ _ _ |- _ => destruct H as (_ & _ & _ & _ & [? ?])
              end.
  all: repeat match goal with
              | H : _ = (if copy_ok ?w' ?t ?c then _ else _) |- _ =>
                  rewrite (copy_ok_succeeds w' t c Hmalloc) in H
              end.
  all: subst; engine_contra Hnull Hparse.
Qed.

(** *** The loop over the table *)

Lemma flat_map_concat_map {A B : Type} (f : A -> list B) (ls : list (list A)) :
  flat_map f (List.concat ls) = List.concat (map (flat_map f) ls).
Proof.
  induction ls as [|l ls IH]; [reflexivity|]. cbn [List.concat map].
  now rewrite flat_map_app, IH.
Qed.

(** The loop of [main] adds, case after case, what each case adds. *)
Lemma run_cases_outcome (w : world) (cs : list (cstring * Z * Z)) :
  forall tr0,
    wp (run_cases w cs)
       (fun a tr =>
          a = Some tt ->
          exists ess, tr = tr0 ++ List.concat ess /\
                      Forall2 (fun c es => case_outcome w (fst (fst c)) IN (snd (fst c))
                                                        (snd c) OUT RUNS es) cs ess) tr0.
Proof.
  induction cs as [|[[name hidden] hidden_layers] cs IH]; intros tr0; cbn [run_cases fold_right].
  - apply wp_ret. intros _. exists []. cbn [List.concat]. rewrite app_nil_r. split; constructor.
  - apply wp_bind.
    apply (wp_conseq _ _ _ _ (run_case_outcome w name IN hidden hidden_layers OUT RUNS tr0)).
    intros [[]|] tr1 H1; [|intros ?; discriminate].
    destruct (H1 eq_refl) as [es1 [-> Hes1]].
    apply (wp_conseq _ _ _ _ (IH (tr0 ++ es1))).
    intros a tr2 H2 Ha. destruct (H2 Ha) as [ess [-> Hess]].
    exists (es1 :: ess). cbn [List.concat]. rewrite app_assoc. split; [reflexivity|].
    constructor; assumption.
Qed.

Lemma run_cases_completes (w : world) (cs : list (cstring * Z * Z)) :
  Forall (fun c => sizes_ok IN (snd (fst c)) (snd c) OUT) cs ->
  engine_answers w -> malloc_succeeds w -> rand_conforms (c_gen w) ->
  forall tr0, fst (run_cases w cs tr0) = Some tt.
Proof.
  intros Hcs Heng Hmalloc Hrand. induction Hcs as [|[[name hidden] hidden_layers] cs Hc Hcs IH];
    intros tr0; cbn [run_cases fold_right]; [reflexivity|].
  unfold bind. cbn [fst snd] in Hc.
  pose proof (run_case_completes w name IN hidden hidden_layers OUT RUNS tr0 Hc Heng Hmalloc
                                 Hrand) as Hrun.
  destruct (run_case w name IN hidden hidden_layers OUT RUNS tr0) as [[[]|] tr1];
    [|discriminate].
  apply IH.
Qed.

Lemma cases_sizes : Forall (fun c => sizes_ok IN (snd (fst c)) (snd c) OUT) cases.
Proof.
  unfold cases, sizes_ok, IN, OUT, INT_MAX. repeat constructor; cbn [fst snd]; lia.
Qed.

(** What one case adds, as far as creation and release go. *)
Lemma case_outcome_summary (w : world) (c : cstring * Z * Z) (es : list event) :
  sizes_ok IN (snd (fst c)) (snd c) OUT ->
  case_outcome w (fst (fst c)) IN (snd (fst c)) (snd c) OUT RUNS es ->
  exists s,
    creations es = [Some s] /\
    frees es = (if is_error (Some s) then [] else [handle_of s]) /\
    new_calls es = [case_call c] /\
    case_names es = [fst (fst c)].
Proof.
  destruct c as [[name hidden] hidden_layers]. cbn [fst snd]. intros Hsizes Hout.
  destruct (sizes_layers _ _ _ _ Hsizes) as (Hl & Ha & Hf).
  destruct Hout as (layers & activ & fully & s & Hl' & Ha' & Hf' & Hcre & Hrest).
  rewrite Hl in Hl'. rewrite Ha in Ha'. rewrite Hf in Hf'.
  injection Hl' as <-. injection Ha' as <-. injection Hf' as <-.
  exists s. split; [exact Hcre|]. cbv zeta in Hrest. unfold new_calls, case_names, case_call.
  destruct (is_error (Some s)).
  - destruct Hrest as (Hc & Hp & Hfr & _). rewrite Hc, Hp, Hfr. repeat split.
  - destruct Hrest as (h & s2 & Hh & _ & Hfr & Hrest). unfold handle_of. rewrite Hh, Hfr.
    split; [reflexivity|].
    destruct (is_error (Some s2)).
    + destruct Hrest as (Hc & Hp & _). rewrite Hc, Hp. split; reflexivity.
    + destruct Hrest as (input & s3 & s4 & t0 & t1 & _ & _ & Hrest).
      assert (forall h input runs,
                 filter (fun c => match c with
                                  | Paragon_NewNetworkFloat32 _ _ _ _ _ => true
                                  | _ => false
                                  end) (phase_calls h input runs) = []) as Hphase.
      { intros h' input' runs'. unfold phase_calls. rewrite filter_app. cbn [filter app].
        rewrite app_nil_r. induction (10 + Z.to_nat runs')%nat as [|k IHk]; [reflexivity|].
        cbn [repeat filter forward_call]. exact IHk. }
      destruct (is_error (Some s4)).
      * destruct Hrest as (Hc & Hp & _). rewrite Hc, Hp. cbn [app filter].
        rewrite filter_app, Hphase. split; reflexivity.
      * destruct Hrest as (t2 & t3 & cj & gj & Hc & _ & Hp). rewrite Hc, Hp.
        cbn [app filter]. rewrite !filter_app, !Hphase. split; reflexivity.
Qed.

Lemma new_calls_app (tr es : list event) : new_calls (tr ++ es) = new_calls tr ++ new_calls es.
Proof. unfold new_calls, calls. now rewrite flat_map_app, filter_app. Qed.

Lemma case_names_app (tr es : list event) :
  case_names (tr ++ es) = case_names tr ++ case_names es.
Proof. unfold case_names, prints. now rewrite !flat_map_app. Qed.

(** The cases of a table, run one after the other: one creation per case in
    the order of the table, and one release for each answer that is not an
    error. *)
Lemma cases_summary (w : world) (cs : list (cstring * Z * Z)) (ess : list (list event)) :
  Forall (fun c => sizes_ok IN (snd (fst c)) (snd c) OUT) cs ->
  Forall2 (fun c es => case_outcome w (fst (fst c)) IN (snd (fst c)) (snd c) OUT RUNS es)
          cs ess ->
  exists answers,
    List.length answers = List.length cs /\
    creations (List.concat ess) = map Some answers /\
    frees (List.concat ess)
    = flat_map (fun s => if is_error (Some s) then [] else [handle_of s]) answers /\
    new_calls (List.concat ess) = map case_call cs /\
    case_names (List.concat ess) = map (fun c => fst (fst c)) cs.
Proof.
  intros Hsizes Hout. induction Hout as [|c es cs ess Hc Hrest IH].
  - exists []. repeat split.
  - pose proof (Forall_inv Hsizes) as Hsz. pose proof (Forall_inv_tail Hsizes) as Hszs.
    destruct (IH Hszs) as (answers & Hlen & Hcre & Hfr & Hnew & Hnames).
    destruct (case_outcome_summary w c es Hsz Hc) as (s & Hcre1 & Hfr1 & Hnew1 & Hnames1).
    exists (s :: answers). cbn [List.concat List.length map flat_map].
    rewrite new_calls_app, case_names_app, Hnew, Hnames, Hnew1, Hnames1.
    unfold creations, frees in *. rewrite !flat_map_app, Hcre, Hfr, Hcre1, Hfr1.
    repeat split. now rewrite Hlen.
Qed.

Lemma main_trace (w : world) :
  main w [] = run_cases w cases [EvPrint PrBanner].
Proof. reflexivity. Qed.

(** [main], when it runs to its end. *)
Lemma main_summary (w : world) :
  fst (main w []) = Some tt ->
  exists es answers,
    snd (main w []) = EvPrint PrBanner :: es /\
    List.length answers = List.length cases /\
    creations es = map Some answers /\
    frees es = flat_map (fun s => if is_error (Some s) then [] else [handle_of s]) answers /\
    new_calls es = map case_call cases /\
    case_names es = map (fun c => fst (fst c)) cases.
Proof.
  rewrite main_trace. intros Hdone.
  pose proof (run_cases_outcome w cases [EvPrint PrBanner]) as H. unfold wp in H.
  destruct (H Hdone) as [ess [Htr Hout]].
  destruct (cases_summary w cases ess cases_sizes Hout)
    as (answers & Hlen & Hcre & Hfr & Hnew & Hnames).
  exists (List.concat ess), answers. rewrite Htr. repeat split; assumption.
Qed.

Lemma main_completes (w : world) :
  engine_answers w -> malloc_succeeds w -> rand_conforms (c_gen w) ->
  fst (main w []) = Some tt.
Proof.
  intros Heng Hmalloc Hrand. rewrite main_trace.
  apply (run_cases_completes w cases cases_sizes Heng Hmalloc Hrand).
Qed.

(** The sample engine answers every call, and its creation payloads can be
    read. *)
Lemma sample_engine_answers (fails : call -> bool) (clk : list event -> spec_float)
      (g : c_rand) (f : c_strtof) (m : list event -> Z -> bool) :
  engine_answers (mk_world (sample_engine fails) clk g f m).
Proof.
  split.
  - intros tr c. cbn [engine]. unfold sample_engine.
    destruct (fails c); [discriminate|]. destruct c; try discriminate.
    destruct (cstring_eqb method (str "ExtractOutput")); discriminate.
  - intros tr layers activ fully f1 f2 s. cbn [engine]. unfold sample_engine.
    destruct (fails _); intros [= <-]; discriminate.
Qed.

(** *** Buffers over the whole program *)

Lemma preserves_run_cases (w : world) (I : list event -> Prop)
      (I_local : forall tr e, local_event e -> I tr -> I (tr ++ [e]))
      (I_stolen : forall tr c, I tr -> I (snd (stolen w c tr)))
      (cs : list (cstring * Z * Z)) :
  preserves I (run_cases w cs).
Proof.
  induction cs as [|[[name hidden] hidden_layers] cs IH]; cbn [run_cases fold_right].
  - apply preserves_ret.
  - apply preserves_bind; [|intros _; exact IH].
    apply preserves_run_case; assumption.
Qed.

Lemma main_Bracketed (w : world) : Bracketed w [] (snd (main w [])).
Proof.
  rewrite main_trace.
  apply (preserves_run_cases w (Bracketed w []) (Bracketed_local w) (Bracketed_stolen w)
                             cases).
  apply (Bracketed_local w [] (EvPrint PrBanner)); constructor.
Qed.

Lemma run_case_outcome_trace (w : world) (name : cstring)
      (in_dim hidden hidden_layers out_dim runs : Z) :
  fst (run_case w name in_dim hidden hidden_layers out_dim runs []) = Some tt ->
  case_outcome w name in_dim hidden hidden_layers out_dim runs
               (trace_of w name in_dim hidden hidden_layers out_dim runs).
Proof.
  intros Hdone.
  pose proof (run_case_outcome w name in_dim hidden hidden_layers out_dim runs []) as H.
  unfold wp in H. destruct (H Hdone) as [es [Htr Hout]]. unfold trace_of.
  now rewrite Htr.
Qed.

(** A null answer to the creation call: the run stops at the [printf] that
    would print it, after the call alone. *)
Lemma run_case_null_creation (w : world) (name : cstring)
      (in_dim hidden hidden_layers out_dim runs : Z) (tr0 : list event) :
  sizes_ok in_dim hidden hidden_layers out_dim ->
  (forall tr layers activ fully f1 f2,
      engine w tr (Paragon_NewNetworkFloat32 layers activ fully f1 f2) = None) ->
  exists layers activ fully,
    build_layers_json in_dim hidden hidden_layers out_dim = Some layers /\
    build_activ_json (1 + hidden_layers + 1) = Some activ /\
    build_fully_json (1 + hidden_layers + 1) = Some fully /\
    run_case w name in_dim hidden hidden_layers out_dim runs tr0
    = (None,
       tr0 ++ [EvPrint (PrCase name);
               EvPrint (PrShape in_dim hidden hidden_layers out_dim
                                (est_vram_mb_fc in_dim hidden hidden_layers out_dim));
               EvCall (Paragon_NewNetworkFloat32 layers activ fully true false) None]).
Proof.
  intros Hsizes Hnull.
  destruct (sizes_layers _ _ _ _ Hsizes) as (Hl & Ha & Hf).
  destruct Hsizes as (Hin & Hhid & Hhl & Hout).
  do 3 eexists. split; [exact Hl|]. split; [exact Ha|]. split; [exact Hf|].
  unfold run_case.
  destruct (Z.ltb_spec INT_MAX (1 + hidden_layers + 1)) as [Hbad|_]; [lia|].
  unfold bind at 1. cbn [lift ret]. unfold bind at 1. rewrite Hl. cbn [lift ret].
  unfold bind at 1. rewrite Ha. cbn [lift ret].
  unfold bind at 1. rewrite Hf. cbn [lift ret].
  unfold bind at 1. cbn [emit]. unfold bind at 1. cbn [emit].
  unfold bind at 1. rewrite stolen_run. unfold copy_ok. rewrite Hnull. cbn [stolen_events].
  unfold bind at 1. cbn [print_payload undefined].
  now repeat rewrite <- app_assoc.
Qed.

(** ** The buffers a case allocates *)

(** *** The two embeddings agree *)

Lemma pure_retH {A : Type} (a : A) : pure_h (retH a).
Proof. intros hp tr. now exists a, hp. Qed.

Lemma pure_log_op (o : mem_op) : pure_h (log_op o).
Proof. intros hp tr. do 2 eexists. reflexivity. Qed.

Lemma pure_malloc_h (s : cstring) : pure_h (malloc_h s).
Proof. intros hp tr. do 2 eexists. reflexivity. Qed.

Lemma pure_free_h (p : lptr) : pure_h (free_h p).
Proof. destruct p as [[id s]|]; [apply pure_log_op|apply pure_retH]. Qed.

Lemma pure_use_h (p : lptr) : pure_h (use_h p).
Proof. destruct p as [[id s]|]; [apply pure_log_op|apply pure_retH]. Qed.

Lemma pure_bindH {A B : Type} (m : MH A) (k : A -> MH B) :
  pure_h m -> (forall a, pure_h (k a)) -> pure_h (bindH m k).
Proof.
  intros Hm Hk hp tr. unfold bindH, bind.
  destruct (Hm hp tr) as [a [hp1 ->]]. cbn [fst snd]. apply Hk.
Qed.

Lemma pure_cleanup_h (layers activ fully : lbuf) : pure_h (cleanup_h layers activ fully).
Proof.
  unfold cleanup_h. repeat (apply pure_bindH; [|intros ?]); apply pure_free_h.
Qed.

Lemma erases_retH {A B : Type} (R : A -> B -> Prop) (a : A) (b : B) :
  R a b -> erases R (retH a) (ret b).
Proof. intros H hp tr. split; [reflexivity|exact H]. Qed.

Lemma erases_liftM {A : Type} (m : M A) : erases eq (liftM m) m.
Proof.
  intros hp tr. unfold liftM, bind. destruct (m tr) as [[a|] tr1]; split; reflexivity.
Qed.

Lemma erases_bind {A B A' B' : Type} (R1 : A -> A' -> Prop) (R2 : B -> B' -> Prop)
      (mh : MH A) (kh : A -> MH B) (m : M A') (k : A' -> M B') :
  erases R1 mh m -> (forall a a', R1 a a' -> erases R2 (kh a) (k a')) ->
  erases R2 (bindH mh kh) (bind m k).
Proof.
  intros Hm Hk hp tr. unfold bindH, bind. destruct (Hm hp tr) as [Htr Hres].
  destruct (mh hp tr) as [[[a hp1]|] tr1]; destruct (m tr) as [[a'|] tr1'];
    cbn [fst snd] in *; subst; try contradiction.
  - apply (Hk a a' Hres).
  - split; reflexivity.
Qed.

(** Steps on the allocator before a step. *)
Lemma erases_pure_l {A B C : Type} (R : A -> B -> Prop) (mh0 : MH C) (kh : C -> MH A)
      (m : M B) :
  pure_h mh0 -> (forall c, erases R (kh c) m) -> erases R (bindH mh0 kh) m.
Proof.
  intros H0 Hk hp tr. unfold bindH, bind. destruct (H0 hp tr) as [c [hp1 ->]].
  cbn [fst snd]. apply Hk.
Qed.

(** Steps on the allocator after a step. *)
Lemma erases_pure_r {A B C : Type} (R : A -> B -> Prop) (mh : MH A) (kh : A -> MH C)
      (m : M B) :
  erases R mh m -> (forall a, pure_h (kh a)) ->
  erases (fun _ _ => True) (bindH mh kh) m.
Proof.
  intros Hm Hk hp tr. unfold bindH, bind. destruct (Hm hp tr) as [Htr Hres].
  destruct (mh hp tr) as [[[a hp1]|] tr1]; destruct (m tr) as [[b|] tr1'];
    cbn [fst snd] in *; subst; try contradiction.
  - destruct (Hk a hp1 tr1') as [c [hp2 ->]]. split; [reflexivity|exact Logic.I].
  - split; reflexivity.
Qed.

Lemma erases_pure_ret {A : Type} (mh : MH A) :
  pure_h mh -> erases (fun _ _ => True) mh (ret tt).
Proof.
  intros H hp tr. destruct (H hp tr) as [a [hp1 ->]]. split; [reflexivity|exact Logic.I].
Qed.

Lemma erases_build_h (text : option cstring) :
  erases (fun p s => snd p = s) (build_h text) (lift text).
Proof.
  intros hp tr. unfold build_h, bindH, liftM, bind, malloc_h.
  destruct text as [s|]; cbn; split; reflexivity.
Qed.

Lemma erases_stolen_h (w : world) (c : call) :
  erases (fun p r => bytes p = r) (stolen_h w c) (stolen w c).
Proof.
  intros hp tr. unfold stolen_h, stolen, bindH, liftM, bind, foreign.
  destruct (engine w tr c) as [s|]; cbn; [|split; reflexivity].
  unfold bindH, liftM, bind, malloc. cbn.
  destruct (malloc_ok w (tr ++ [EvCall c (Some s)]) (strlen s + 1)); cbn; split; reflexivity.
Qed.

Lemma erases_print_h (mk : cstring -> line) (r : lptr) :
  erases eq (print_h mk r) (print_payload mk (bytes r)).
Proof.
  unfold print_h. apply erases_pure_l; [apply pure_use_h|intros _; apply erases_liftM].
Qed.

Lemma erases_forward_once_h (w : world) (h : Z) (input : lbuf) :
  erases eq (forward_once_h w h input) (forward_once w h (snd input)).
Proof.
  unfold forward_once_h, forward_once.
  apply erases_pure_l; [apply pure_use_h|intros _].
  intros hp tr. destruct (erases_stolen_h w (forward_call h (snd input)) hp tr) as [Htr Hres].
  unfold bindH, bind, forward_call in *.
  destruct (stolen_h w _ hp tr) as [[[p hp1]|] tr1];
    destruct (stolen w _ tr) as [[r|] tr1']; cbn [fst snd] in *; subst; try contradiction.
  - destruct (pure_free_h p hp1 tr1') as [[] [hp2 ->]]. split; reflexivity.
  - split; reflexivity.
Qed.

Lemma erases_repeat_H (n : nat) (bh : MH unit) (b : M unit) :
  erases eq bh b -> erases eq (repeat_H n bh) (repeat_M n b).
Proof.
  intros Hb. induction n as [|n IH]; cbn [repeat_H repeat_M].
  - now apply erases_retH.
  - apply (erases_bind eq eq); [exact Hb|intros _ _ _; exact IH].
Qed.

Lemma erases_measure_h (w : world) (h : Z) (input : lbuf) (runs : Z) :
  erases (fun x y => fst x = fst y /\ bytes (snd x) = snd y)
         (measure_h w h input runs) (measure w h (snd input) runs).
Proof.
  unfold measure_h, measure.
  apply (erases_bind eq); [apply erases_repeat_H, erases_forward_once_h|intros _ _ _].
  apply (erases_bind eq); [apply erases_liftM|intros t0 ? <-].
  apply (erases_bind eq); [apply erases_repeat_H, erases_forward_once_h|intros _ _ _].
  apply (erases_bind eq); [apply erases_liftM|intros t1 ? <-].
  cbv zeta.
  apply (erases_bind (fun p r => bytes p = r)); [apply erases_stolen_h|intros out r <-].
  apply (erases_bind eq); [apply erases_liftM|intros _ _ _].
  apply erases_retH. split; reflexivity.
Qed.

Lemma erases_parity_h (w : world) (cpu_out gpu_out : lptr) :
  erases eq (parity_h w cpu_out gpu_out) (parity w (bytes cpu_out) (bytes gpu_out)).
Proof.
  unfold parity_h.
  apply erases_pure_l; [apply pure_use_h|intros _].
  apply erases_pure_l; [apply pure_use_h|intros _]. apply erases_liftM.
Qed.

Lemma pure_then_cleanup (r : lptr) (layers activ fully : lbuf) :
  pure_h (free_h r ;;~ cleanup_h layers activ fully).
Proof. apply pure_bindH; [apply pure_free_h|intros _; apply pure_cleanup_h]. Qed.

Lemma erases_free_cleanup (h : Z) (layers activ fully : lbuf) :
  erases (fun _ _ => True)
         (liftM (emit (EvFree h)) ;;~ cleanup_h layers activ fully) (emit (EvFree h)).
Proof.
  apply (erases_pure_r eq); [apply erases_liftM|intros _; apply pure_cleanup_h].
Qed.

Lemma erases_compare_and_done_h (cpu_out : lptr) (input : lbuf) (h : Z)
      (layers activ fully : lbuf) :
  erases (fun _ _ => True) (compare_and_done_h cpu_out input h layers activ fully)
         (emit (EvFree h)).
Proof.
  unfold compare_and_done_h.
  apply erases_pure_l; [apply pure_free_h|intros _].
  apply erases_pure_l; [apply pure_free_h|intros _].
  apply erases_free_cleanup.
Qed.

(** [run_case] with its buffers does what [run_case] does. *)
Lemma erases_run_case (w : world) (name : cstring)
      (in_dim hidden hidden_layers out_dim runs : Z) :
  erases (fun _ _ => True)
         (run_case_mem w name in_dim hidden hidden_layers out_dim runs)
         (run_case w name in_dim hidden hidden_layers out_dim runs).
Proof.
  unfold run_case_mem, run_case.
  apply (erases_bind eq); [apply erases_liftM|intros total_layers ? <-].
  apply (erases_bind (fun p s => snd p = s)); [apply erases_build_h|intros layers ? <-].
  apply (erases_bind (fun p s => snd p = s)); [apply erases_build_h|intros activ ? <-].
  apply (erases_bind (fun p s => snd p = s)); [apply erases_build_h|intros fully ? <-].
  cbv zeta.
  apply (erases_bind eq); [apply erases_liftM|intros _ _ _].
  apply (erases_bind eq); [apply erases_liftM|intros _ _ _].
  do 3 (apply erases_pure_l; [apply pure_use_h|intros _]).
  apply (erases_bind (fun p r => bytes p = r)); [apply erases_stolen_h|intros r ? <-].
  apply (erases_bind eq); [apply erases_print_h|intros _ _ _].
  apply erases_pure_l; [apply pure_use_h|intros _].
  destruct (is_error (bytes r)); [apply erases_pure_ret, pure_then_cleanup|].
  apply erases_pure_l; [apply pure_use_h|intros _].
  apply (erases_bind eq); [apply erases_liftM|intros js ? <-].
  apply (erases_bind eq); [apply erases_liftM|intros h ? <-].
  apply erases_pure_l; [apply pure_free_h|intros _].
  apply (erases_bind (fun p r => bytes p = r)); [apply erases_stolen_h|intros r2 ? <-].
  apply (erases_bind eq); [apply erases_print_h|intros _ _ _].
  apply erases_pure_l; [apply pure_use_h|intros _].
  destruct (is_error (bytes r2)).
  { apply erases_pure_l; [apply pure_free_h|intros _]. apply erases_free_cleanup. }
  apply erases_pure_l; [apply pure_free_h|intros _].
  apply (erases_bind (fun p s => snd p = s)); [apply erases_build_h|intros input ? <-].
  apply (erases_bind eq); [apply erases_liftM|intros _ _ _].
  apply (erases_bind (fun p r => bytes p = r)); [apply erases_stolen_h|intros r3 ? <-].
  apply (erases_bind eq); [apply erases_print_h|intros _ _ _].
  apply erases_pure_l; [apply pure_free_h|intros _].
  apply (erases_bind (fun x y => fst x = fst y /\ bytes (snd x) = snd y));
    [apply erases_measure_h|intros [cpu_t cpu_out] [cpu_t' cpu_out'] [Ht Ho]].
  cbn [fst snd] in Ht, Ho. subst cpu_t' cpu_out'. cbn [fst snd].
  apply (erases_bind eq); [apply erases_liftM|intros _ _ _].
  apply (erases_bind (fun p r => bytes p = r)); [apply erases_stolen_h|intros r4 ? <-].
  apply (erases_bind eq); [apply erases_print_h|intros _ _ _].
  apply erases_pure_l; [apply pure_use_h|intros _].
  destruct (is_error (bytes r4)).
  { apply erases_pure_l; [apply pure_free_h|intros _]. apply erases_compare_and_done_h. }
  apply erases_pure_l; [apply pure_free_h|intros _].
  apply (erases_bind (fun x y => fst x = fst y /\ bytes (snd x) = snd y));
    [apply erases_measure_h|intros [gpu_t gpu_out] [gpu_t' gpu_out'] [Ht Ho]].
  cbn [fst snd] in Ht, Ho. subst gpu_t' gpu_out'. cbn [fst snd].
  apply (erases_bind eq); [apply erases_liftM|intros _ _ _].
  apply (erases_bind eq); [apply erases_parity_h|intros _ _ _].
  apply erases_pure_l; [apply pure_free_h|intros _].
  apply erases_compare_and_done_h.
Qed.

(** *** Every buffer is freed once *)

Lemma hoare_bind {A B : Type} (m : MH A) (k : A -> MH B) (hp : heap) Q :
  hoare m hp (fun a hp1 => hoare (k a) hp1 Q) -> hoare (bindH m k) hp Q.
Proof.
  intros H tr. unfold bindH, bind. specialize (H tr).
  destruct (m hp tr) as [[[a hp1]|] tr1]; cbn [fst snd] in *; [apply H|exact Logic.I].
Qed.

Lemma hoare_retH {A : Type} (a : A) (hp : heap) (Q : A -> heap -> Prop) :
  Q a hp -> hoare (retH a) hp Q.
Proof. intros H tr. exact H. Qed.

Lemma hoare_liftM {A : Type} (m : M A) (hp : heap) (Q : A -> heap -> Prop) :
  (forall a, Q a hp) -> hoare (liftM m) hp Q.
Proof.
  intros H tr. unfold liftM, bind. destruct (m tr) as [[a|] tr1]; cbn; [apply H|exact Logic.I].
Qed.

Lemma hoare_log_op (o : mem_op) (hp : heap) (Q : unit -> heap -> Prop) :
  Q tt (mk_heap (next_id hp) (mem_log hp ++ [o])) -> hoare (log_op o) hp Q.
Proof. intros H tr. exact H. Qed.

Lemma hoare_malloc_h (s : cstring) (hp : heap) (Q : lbuf -> heap -> Prop) :
  Q (next_id hp, s) (mk_heap (S (next_id hp)) (mem_log hp ++ [OpMalloc (next_id hp)])) ->
  hoare (malloc_h s) hp Q.
Proof. intros H tr. exact H. Qed.

Lemma hoare_free_h (p : lptr) (hp : heap) (Q : unit -> heap -> Prop) :
  match p with
  | Some (id, _) => Q tt (mk_heap (next_id hp) (mem_log hp ++ [OpFree id]))
  | None => Q tt hp
  end ->
  hoare (free_h p) hp Q.
Proof. destruct p as [[id s]|]; intros H tr; exact H. Qed.

Lemma hoare_use_h (p : lptr) (hp : heap) (Q : unit -> heap -> Prop) :
  match p with
  | Some (id, _) => Q tt (mk_heap (next_id hp) (mem_log hp ++ [OpUse id]))
  | None => Q tt hp
  end ->
  hoare (use_h p) hp Q.
Proof. destruct p as [[id s]|]; intros H tr; exact H. Qed.

Lemma hoare_build_h (text : option cstring) (hp : heap) (Q : lbuf -> heap -> Prop) :
  (forall s, Q (next_id hp, s)
               (mk_heap (S (next_id hp)) (mem_log hp ++ [OpMalloc (next_id hp)]))) ->
  hoare (build_h text) hp Q.
Proof.
  intros H tr. unfold build_h, bindH, liftM, bind, malloc_h.
  destruct text as [s|]; cbn; [apply H|exact Logic.I].
Qed.

Lemma hoare_stolen_h (w : world) (c : call) (hp : heap) (Q : lptr -> heap -> Prop) :
  Q None hp ->
  (forall s, Q (Some (next_id hp, s))
               (mk_heap (S (next_id hp)) (mem_log hp ++ [OpMalloc (next_id hp)]))) ->
  hoare (stolen_h w c) hp Q.
Proof.
  intros Hnull Hsome tr. unfold stolen_h, bindH, liftM, bind, foreign.
  destruct (engine w tr c) as [s|]; cbn; [|exact Hnull].
  unfold bindH, liftM, bind, malloc. cbn.
  destruct (malloc_ok w (tr ++ [EvCall c (Some s)]) (strlen s + 1)); cbn;
    [apply Hsome|exact Hnull].
Qed.

(** A [printf] of the null pointer does not complete. *)
Lemma hoare_print_h (mk : cstring -> line) (r : lptr) (hp : heap) (Q : unit -> heap -> Prop) :
  match r with
  | Some (id, _) => Q tt (mk_heap (next_id hp) (mem_log hp ++ [OpUse id]))
  | None => True
  end ->
  hoare (print_h mk r) hp Q.
Proof.
  intros H tr. destruct r as [[id s]|]; cbn; [exact H|exact Logic.I].
Qed.

(** The parity block does not complete on a null pointer. *)
Lemma hoare_parity_h (w : world) (cpu_out gpu_out : lptr) (hp : heap)
      (Q : unit -> heap -> Prop) :
  match cpu_out, gpu_out with
  | Some (c, _), Some (g, _) =>
      Q tt (mk_heap (next_id hp) ((mem_log hp ++ [OpUse c]) ++ [OpUse g]))
  | _, _ => True
  end ->
  hoare (parity_h w cpu_out gpu_out) hp Q.
Proof.
  intros H tr. unfold parity_h, bindH, liftM, bind.
  destruct cpu_out as [[c sc]|]; destruct gpu_out as [[g sg]|];
    cbn [use_h log_op retH ret fst snd bytes option_map next_id mem_log].
  - rewrite parity_run. cbn [fst snd]. exact H.
  - cbn. exact Logic.I.
  - cbn. exact Logic.I.
  - cbn. exact Logic.I.
Qed.

Lemma hoare_conseq {A : Type} (mh : MH A) (hp : heap) (Q Q' : A -> heap -> Prop) :
  hoare mh hp Q -> (forall a hp', Q a hp' -> Q' a hp') -> hoare mh hp Q'.
Proof.
  intros H HQ tr. specialize (H tr). destruct (fst (mh hp tr)) as [x|]; [|exact Logic.I].
  now apply HQ.
Qed.

(** *** Replaying a log *)

Lemma replay_malloc (a : nat) (rest : list mem_op) (live : list nat) :
  (forall id, In id live -> (id < a)%nat) ->
  replay (OpMalloc a :: rest) live = replay rest (a :: live).
Proof.
  intros H. cbn [replay].
  destruct (existsb (Nat.eqb a) live) eqn:E; [|reflexivity].
  apply existsb_exists in E. destruct E as [x [Hin Hx]]. apply Nat.eqb_eq in Hx. subst x.
  specialize (H a Hin). lia.
Qed.

Lemma replay_use (a : nat) (rest : list mem_op) (live : list nat) :
  In a live -> replay (OpUse a :: rest) live = replay rest live.
Proof.
  intros H. cbn [replay].
  destruct (existsb (Nat.eqb a) live) eqn:E; [reflexivity|].
  assert (existsb (Nat.eqb a) live = true) as E'
    by (apply existsb_exists; exists a; split; [exact H|apply Nat.eqb_refl]).
  congruence.
Qed.

Lemma replay_free (a : nat) (rest : list mem_op) (live live' : list nat) :
  remove_one a live = Some live' -> replay (OpFree a :: rest) live = replay rest live'.
Proof. intros H. cbn [replay]. now rewrite H. Qed.

Lemma remove_one_head (a b : nat) (live : list nat) :
  a = b -> remove_one a (b :: live) = Some live.
Proof. intros ->. cbn [remove_one]. now rewrite Nat.eqb_refl. Qed.

Lemma remove_one_tail (a b : nat) (live live' : list nat) :
  b <> a -> remove_one a live = Some live' -> remove_one a (b :: live) = Some (b :: live').
Proof.
  intros Hne H. cbn [remove_one]. apply Nat.eqb_neq in Hne. now rewrite Hne, H.
Qed.

Lemma effect_nil (lo : nat) (needs : list nat) : effect lo needs [] [].
Proof. intros live rest _ _. reflexivity. Qed.

Lemma effect_app (lo mid : nat) (needs : list nat) (seg1 seg2 : list mem_op) :
  (lo <= mid)%nat ->
  effect lo needs seg1 [] -> effect mid needs seg2 [] -> effect lo needs (seg1 ++ seg2) [].
Proof.
  intros Hle H1 H2 live rest Hlive Hneeds. rewrite <- app_assoc.
  rewrite (H1 live (seg2 ++ rest) Hlive Hneeds). cbn [app].
  apply (H2 live rest); [|exact Hneeds].
  intros id Hin. specialize (Hlive id Hin). lia.
Qed.

Ltac solve_older Hlive :=
  let id := fresh "id" in
  let Hin := fresh "Hin" in
  intros id Hin; cbn [In app ids_of] in Hin;
  repeat (destruct Hin as [<- | Hin]; [lia|]);
  first [contradiction | apply Hlive in Hin; lia].

Ltac solve_in := cbn [In app ids_of]; repeat (first [left; lia | right]).

Ltac solve_remove :=
  repeat first [apply remove_one_head; lia | apply remove_one_tail; [lia|]].

Ltac replay_step Hlive :=
  first [ rewrite replay_malloc by solve_older Hlive
        | rewrite replay_use by solve_in
        | erewrite replay_free by solve_remove
        | match goal with
          | H : effect _ _ ?seg _ |- context [replay (?seg ++ ?rest) ?live] =>
              rewrite (H live rest);
              [cbn [ids_of app]
              | solve_older Hlive
              | let id := fresh "id" in
                let Hin := fresh "Hin" in
                intros id Hin; cbn [In] in Hin; destruct Hin as [<- | []]; solve_in]
          end ].

(** One [Forward] call: the copy of the answer is freed at once. *)
Lemma forward_once_h_effect (w : world) (h : Z) (input : lbuf) (hp : heap) :
  hoare (forward_once_h w h input) hp
        (fun _ hp' => exists seg,
             mem_log hp' = mem_log hp ++ seg /\ (next_id hp <= next_id hp')%nat /\
             effect (next_id hp) [fst input] seg []).
Proof.
  destruct input as [i s]. unfold forward_once_h.
  apply hoare_bind, hoare_use_h. cbn [fst snd next_id mem_log].
  apply hoare_bind, hoare_stolen_h; [|intros r]; apply hoare_free_h;
    cbn [fst snd next_id mem_log]; repeat rewrite <- app_assoc;
    (eexists; split; [reflexivity|]; split; [lia|]);
    intros live rest Hlive Hneeds; cbn [app];
    assert (In i live) as Hi by (apply Hneeds; now left).
  - now rewrite replay_use.
  - rewrite replay_use by assumption. rewrite replay_malloc by assumption.
    erewrite replay_free by (apply remove_one_head; reflexivity). reflexivity.
Qed.

Lemma repeat_forward_h_effect (w : world) (h : Z) (input : lbuf) (n : nat) :
  forall hp,
    hoare (repeat_H n (forward_once_h w h input)) hp
          (fun _ hp' => exists seg,
               mem_log hp' = mem_log hp ++ seg /\ (next_id hp <= next_id hp')%nat /\
               effect (next_id hp) [fst input] seg []).
Proof.
  induction n as [|n IH]; intros hp; cbn [repeat_H].
  - apply hoare_retH. exists []. rewrite app_nil_r.
    split; [reflexivity|]. split; [lia|apply effect_nil].
  - apply hoare_bind.
    apply (hoare_conseq _ _ _ _ (forward_once_h_effect w h input hp)).
    intros _ hp1 (seg1 & Hlog1 & Hn1 & He1).
    apply (hoare_conseq _ _ _ _ (IH hp1)).
    intros _ hp2 (seg2 & Hlog2 & Hn2 & He2).
    exists (seg1 ++ seg2). rewrite Hlog2, Hlog1, app_assoc.
    split; [reflexivity|]. split; [lia|].
    now apply (effect_app _ (next_id hp1)).
Qed.

(** A timed phase leaves one more buffer live: the copy of the output, if
    the answer is not null. *)
Lemma measure_h_effect (w : world) (h : Z) (input : lbuf) (runs : Z) (hp : heap) :
  hoare (measure_h w h input runs) hp
        (fun x hp' => exists seg,
             mem_log hp' = mem_log hp ++ seg /\ (next_id hp <= next_id hp')%nat /\
             effect (next_id hp) [fst input] seg (ids_of (snd x)) /\
             (forall id, In id (ids_of (snd x)) -> (next_id hp <= id < next_id hp')%nat)).
Proof.
  unfold measure_h.
  apply hoare_bind.
  apply (hoare_conseq _ _ _ _ (repeat_forward_h_effect w h input 10 hp)).
  intros _ hp1 (seg1 & Hlog1 & Hn1 & He1).
  apply hoare_bind, hoare_liftM. intros t0.
  apply hoare_bind.
  apply (hoare_conseq _ _ _ _ (repeat_forward_h_effect w h input (Z.to_nat runs) hp1)).
  intros _ hp2 (seg2 & Hlog2 & Hn2 & He2).
  apply hoare_bind, hoare_liftM. intros t1. cbv zeta.
  apply hoare_bind, hoare_stolen_h; [|intros r]; apply hoare_bind, hoare_liftM; intros _;
    apply hoare_retH; cbn [fst snd next_id mem_log ids_of].
  - exists (seg1 ++ seg2). rewrite Hlog2, Hlog1, app_assoc.
    split; [reflexivity|]. split; [lia|]. split; [|intros id []].
    now apply (effect_app _ (next_id hp1)).
  - exists (seg1 ++ seg2 ++ [OpMalloc (next_id hp2)]).
    rewrite Hlog2, Hlog1. repeat rewrite <- app_assoc.
    split; [reflexivity|]. split; [lia|]. split.
    + intros live rest Hlive Hneeds. repeat rewrite <- app_assoc.
      rewrite (He1 live _ Hlive Hneeds). cbn [app].
      rewrite (He2 live _); [|intros id Hin; specialize (Hlive id Hin); lia|exact Hneeds].
      cbn [app]. rewrite replay_malloc; [reflexivity|].
      intros id Hin. specialize (Hlive id Hin). lia.
    + intros id [<-|[]]. lia.
Qed.

Ltac hoare_step :=
  cbn [next_id mem_log fst snd];
  lazymatch goal with
  | |- True => exact Logic.I
  | |- hoare (bindH _ _) _ _ => apply hoare_bind
  | |- hoare (retH _) _ _ => apply hoare_retH
  | |- hoare (liftM _) _ _ => apply hoare_liftM; intros ?
  | |- hoare (build_h _) _ _ => apply hoare_build_h; intros ?
  | |- hoare (use_h _) _ _ => apply hoare_use_h
  | |- hoare (free_h _) _ _ => apply hoare_free_h
  | |- hoare (print_h _ _) _ _ => apply hoare_print_h
  | |- hoare (parity_h _ _ _) _ _ => apply hoare_parity_h
  | |- hoare (stolen_h _ _) _ _ => apply hoare_stolen_h; [|intros ?]
  | |- hoare (cleanup_h _ _ _) _ _ => unfold cleanup_h
  | |- hoare (compare_and_done_h _ _ _ _ _ _) _ _ => unfold compare_and_done_h
  | |- hoare (if ?b then _ else _) _ _ => destruct b
  | |- hoare (measure_h _ _ ?input _) ?hp _ =>
      let t := fresh "t" in
      let out := fresh "out" in
      let hp1 := fresh "hp" in
      let seg := fresh "seg" in
      let Hlog := fresh "Hlog" in
      let Hn := fresh "Hn" in
      let He := fresh "He" in
      let Hid := fresh "Hid" in
      apply (hoare_conseq _ _ _ _ (measure_h_effect _ _ input _ hp));
      intros [t out] hp1 (seg & Hlog & Hn & He & Hid);
      cbn [fst snd next_id mem_log] in Hlog, Hn, He, Hid |- *
  | |- match ?p with Some _ => _ | None => _ end =>
      is_var p; destruct p as [[? ?]|]; cbn [ids_of] in *;
      try match goal with
          | H : forall id, In id [?o] -> _ |- _ => specialize (H o (or_introl eq_refl))
          end
  end.

Ltac effect_leaf :=
  cbn [next_id mem_log];
  repeat match goal with H : mem_log _ = _ |- _ => rewrite H end;
  repeat rewrite <- app_assoc; cbn [app];
  eexists; split; [reflexivity|]; split; [lia|];
  let live := fresh "live" in
  let rest := fresh "rest" in
  let Hlive := fresh "Hlive" in
  intros live rest Hlive _;
  repeat (progress (cbn [app]; rewrite <- ?app_assoc));
  repeat replay_step Hlive;
  reflexivity.

(** What a case does to the allocator: every buffer it obtains is read and
    freed while it is live, and none is left. *)
Lemma run_case_mem_effect (w : world) (name : cstring)
      (in_dim hidden hidden_layers out_dim runs : Z) (hp : heap) :
  hoare (run_case_mem w name in_dim hidden hidden_layers out_dim runs) hp
        (fun _ hp' => exists seg,
             mem_log hp' = mem_log hp ++ seg /\ (next_id hp <= next_id hp')%nat /\
             effect (next_id hp) [] seg []).
Proof.
  unfold run_case_mem. destruct hp as [n0 log0].
  repeat hoare_step; effect_leaf.
Qed.

(** A case that completes has, with its buffers, the same trace, and its
    operations on the allocator leave the live buffers as they were. *)
Lemma run_case_mem_safe (w : world) (name : cstring)
      (in_dim hidden hidden_layers out_dim runs : Z) (hp : heap) (tr : list event) :
  fst (run_case w name in_dim hidden hidden_layers out_dim runs tr) = Some tt ->
  exists hp' added,
    run_case_mem w name in_dim hidden hidden_layers out_dim runs hp tr
    = (Some (tt, hp'), snd (run_case w name in_dim hidden hidden_layers out_dim runs tr)) /\
    mem_log hp' = mem_log hp ++ added /\
    (next_id hp <= next_id hp')%nat /\
    effect (next_id hp) [] added [].
Proof.
  intros Hdone.
  destruct (erases_run_case w name in_dim hidden hidden_layers out_dim runs hp tr)
    as [Htr Hres].
  pose proof (run_case_mem_effect w name in_dim hidden hidden_layers out_dim runs hp tr)
    as Heff.
  rewrite Hdone in Hres.
  destruct (run_case_mem w name in_dim hidden hidden_layers out_dim runs hp tr)
    as [[[[] hp']|] tr'] eqn:E; cbn [fst snd] in *; [|contradiction].
  destruct Heff as (added & Hlog & Hn & He).
  exists hp', added. rewrite Htr. repeat split; assumption.
Qed.

(** ** More on the parity check *)

Lemma count10_bounds (p : Z -> bool) : 0 <= count10 p <= 10.
Proof.
  unfold count10. pose proof (filter_length_le p indices10) as H.
  change (List.length indices10) with 10%nat in H. lia.
Qed.

(** The absolute difference does not depend on the order of its operands. *)
Lemma abs_diff_sym (x y : spec_float) : abs_diff x y = abs_diff y x.
Proof.
  unfold abs_diff, B32.sub.
  destruct x as [sx|sx| |sx mx ex], y as [sy|sy| |sy my ey]; cbn [SFsub SFabs];
    try reflexivity.
  - destruct sx, sy; reflexivity.
  - destruct sx, sy; reflexivity.
  - rewrite (Z.min_comm ey ex).
    rewrite <- SFabs_binary_normalize_opp. f_equal. f_equal. lia.
Qed.

(** An infinity or a NaN on either side is never within the tolerance. *)
Lemma abs_diff_special (x y : spec_float) :
  inf_or_nan x = true \/ inf_or_nan y = true -> within_tolerance (abs_diff x y) = false.
Proof.
  intros [H|H]; destruct x as [sx|sx| |sx mx ex], y as [sy|sy| |sy my ey];
    try discriminate H; try reflexivity; destruct sx, sy; reflexivity.
Qed.

(** A zero or finite value is within the tolerance of itself. *)
Lemma abs_diff_self (x : spec_float) :
  inf_or_nan x = false -> within_tolerance (abs_diff x x) = true.
Proof.
  destruct x as [s|s| |s m e]; try discriminate; intros _.
  - destruct s; reflexivity.
  - unfold abs_diff, B32.sub. cbn [SFsub]. rewrite Z.sub_diag. reflexivity.
Qed.

Lemma parity_ok_sym (c g : farray) : parity_ok c g = parity_ok g c.
Proof.
  rewrite !parity_ok_count. apply count10_ext. intros i. now rewrite abs_diff_sym.
Qed.

Lemma parity_ok_self (c : farray) :
  parity_ok c c = count10 (fun i => negb (inf_or_nan (c i))).
Proof.
  rewrite parity_ok_count. apply count10_ext. intros i.
  destruct (inf_or_nan (c i)) eqn:E; cbn [negb].
  - apply abs_diff_special. now left.
  - now apply abs_diff_self.
Qed.

(** Payloads without an output list leave both arrays at zero, and the
    check counts all ten indices. *)
Lemma parity_no_output (strtof : c_strtof) (cpu_js gpu_js : cstring) :
  strstr cpu_js (str "[[") = None -> strstr gpu_js (str "[[") = None ->
  parity_ok (fst (extract_first_n strtof cpu_js zeros 10))
            (fst (extract_first_n strtof gpu_js zeros 10)) = 10.
Proof.
  intros Hc Hg. unfold extract_first_n. rewrite Hc, Hg. reflexivity.
Qed.

(** ** More on the text of the input tensor *)

Lemma strlen_join_fmt_f6_exact (l : list spec_float) :
  Forall unit_binary32 l -> l <> [] ->
  strlen (join_items (map fmt_f6 l)) = 9 * Z.of_nat (List.length l) - 1.
Proof.
  induction 1 as [|v l Hv Hl IH]; [congruence|]. intros _.
  destruct l as [|w l].
  - cbn [map join_items List.length]. rewrite (fmt_f6_unit_length v Hv). reflexivity.
  - change (map fmt_f6 (v :: w :: l)) with (fmt_f6 v :: map fmt_f6 (w :: l)).
    rewrite join_items_cons by discriminate.
    repeat rewrite strlen_app. rewrite (fmt_f6_unit_length v Hv).
    change (strlen (str ",")) with 1. rewrite IH by discriminate.
    cbn [List.length]. lia.
Qed.

(** The text of the input tensor has nine characters per value and five
    more, and always leaves room in the buffer of [16 + 12 * in_dim]
    bytes. *)
Lemma make_input_length (g : c_rand) (in_dim : Z) :
  rand_conforms g -> 0 < in_dim <= INT_MAX ->
  exists s, make_input g in_dim = Some s /\
            strlen s = 9 * in_dim + 5 /\
            strlen s < 16 + 12 * in_dim.
Proof.
  intros Hg Hin. rewrite (make_input_ok g in_dim Hg) by lia. eexists. split; [reflexivity|].
  unfold input_values.
  pose proof (strlen_join_fmt_f6_exact _ (draw_values_unit g (Z.to_nat in_dim) (srand g 42) Hg))
    as HL.
  rewrite draw_values_length in HL.
  specialize (HL ltac:(intros E; apply (f_equal (@List.length spec_float)) in E;
                       rewrite draw_values_length in E; cbn in E; lia)).
  repeat rewrite strlen_app. rewrite HL.
  change (strlen (str "[[[")) with 3. change (strlen (str "]]]")) with 3. lia.
Qed.

Lemma make_input_empty (g : c_rand) : make_input g 0 = Some (str "[[[]]]").
Proof. reflexivity. Qed.

(** * The claims *)






(** C3, as the claim states it, fails: with a clock too coarse for the GPU
    phase the elapsed GPU time is zero, and the speed-up printed is the
    quotient by that zero, an infinity. *)
Lemma C3_counterexample :
  clock_readings (trace_S1 coarse_world)
  = [B64.of_int 45; B64.of_int 346; B64.of_int 1000000; B64.of_int 1000000] /\
  B64.sub (B64.of_int 1000000) (B64.of_int 1000000) = S754_zero false /\
  speedups (trace_S1 coarse_world)
  = [B64.div (B64.sub (B64.of_int 346) (B64.of_int 45))
             (B64.sub (B64.of_int 1000000) (B64.of_int 1000000))] /\
  speedups (trace_S1 coarse_world) = [S754_infinity false].
Proof.
  split; [|split; [|split]]; vm_compute; reflexivity.
Qed.

(** C3, amended.  A speed-up is printed only after [Paragon_EnableGPU]
    answered without an error, and it is the binary64 quotient of the CPU
    time by the GPU time, whatever these are: no test precedes the division,
    and a zero GPU time yields an infinity or a NaN. *)
Theorem C3_speedup_unguarded (w : world) (name : cstring)
        (in_dim hidden hidden_layers out_dim runs : Z) :
  let tr := trace_of w name in_dim hidden hidden_layers out_dim runs in
  (speedups tr = [] \/
   exists s t0 t1 t2 t3,
     enables tr = [Some s] /\ is_error (Some s) = false /\
     clock_readings tr = [t0; t1; t2; t3] /\
     speedups tr = [B64.div (B64.sub t1 t0) (B64.sub t3 t2)]) /\
  (forall cpu_t sg, inf_or_nan (B64.div cpu_t (S754_zero sg)) = true).
Proof.
  split.
  - exact (run_case_speedup w name in_dim hidden hidden_layers out_dim runs).
  - intros [| | |] sg; reflexivity.
Qed.

(** C7.  For positive [int] sizes and a number of hidden layers whose layer
    count [hidden_layers + 2] is an [int], each of the three descriptors
    the builders write reads back as a JSON array of [hidden_layers + 2]
    entries: the shapes, each with its width and the height 1, of which the
    first has the width [in_dim], those between the width [hidden] and the
    last the width [out_dim]; as many strings [relu]; and as many flags
    [true]. *)
Theorem C7_descriptors_well_formed (in_dim hidden hidden_layers out_dim : Z) :
  0 < in_dim <= INT_MAX -> 0 < hidden <= INT_MAX ->
  0 <= hidden_layers <= INT_MAX - 2 -> 0 < out_dim <= INT_MAX ->
  exists layers activ fully shapes kinds flags,
    build_layers_json in_dim hidden hidden_layers out_dim = Some layers /\
    build_activ_json (1 + hidden_layers + 1) = Some activ /\
    build_fully_json (1 + hidden_layers + 1) = Some fully /\
    read_shapes layers = Some shapes /\
    read_strings activ = Some kinds /\
    read_flags fully = Some flags /\
    Z.of_nat (List.length shapes) = hidden_layers + 2 /\
    Z.of_nat (List.length kinds) = hidden_layers + 2 /\
    Z.of_nat (List.length flags) = hidden_layers + 2 /\
    hd_error shapes = Some (in_dim, 1) /\
    last shapes (0, 0) = (out_dim, 1) /\
    shapes = (in_dim, 1) :: repeat (hidden, 1) (Z.to_nat hidden_layers) ++ [(out_dim, 1)] /\
    kinds = repeat (str "relu") (Z.to_nat (hidden_layers + 2)) /\
    flags = repeat true (Z.to_nat (hidden_layers + 2)).
Proof.
  intros Hin Hhid Hhl Hout.
  destruct (sizes_layers in_dim hidden hidden_layers out_dim) as (Hl & Ha & Hf);
    [repeat split; lia|].
  do 3 eexists.
  exists ((in_dim, 1) :: repeat (hidden, 1) (Z.to_nat hidden_layers) ++ [(out_dim, 1)]),
    (repeat (str "relu") (Z.to_nat (hidden_layers + 2))),
    (repeat true (Z.to_nat (hidden_layers + 2))).
  split; [exact Hl|]. split; [exact Ha|]. split; [exact Hf|].
  split; [|split; [|split; [|split; [|split; [|split; [|split; [|split]]]]]]].
  - rewrite read_shapes_json.
    + unfold layer_widths. cbn [map]. rewrite map_app, map_repeat. reflexivity.
    + unfold layer_widths. constructor; [lia|]. apply Forall_app. split.
      * apply Forall_forall. intros w Hw. apply repeat_spec in Hw. lia.
      * constructor; [lia|constructor].
    + discriminate.
  - apply read_strings_json. lia.
  - apply read_flags_json. lia.
  - cbn [List.length]. rewrite length_app, repeat_length. cbn [List.length]. lia.
  - rewrite repeat_length. lia.
  - rewrite repeat_length. lia.
  - reflexivity.
  - change ((in_dim, 1) :: repeat (hidden, 1) (Z.to_nat hidden_layers) ++ [(out_dim, 1)])
      with (((in_dim, 1) :: repeat (hidden, 1) (Z.to_nat hidden_layers)) ++ [(out_dim, 1)]).
    apply last_last.
  - repeat split.
Qed.

Lemma C7_descriptors_well_formed_witness :
  exists layers activ fully shapes kinds flags,
    build_layers_json 784 64 1 10 = Some layers /\
    build_activ_json (1 + 1 + 1) = Some activ /\
    build_fully_json (1 + 1 + 1) = Some fully /\
    read_shapes layers = Some shapes /\
    read_strings activ = Some kinds /\
    read_flags fully = Some flags /\
    Z.of_nat (List.length shapes) = 1 + 2 /\
    Z.of_nat (List.length kinds) = 1 + 2 /\
    Z.of_nat (List.length flags) = 1 + 2 /\
    hd_error shapes = Some (784, 1) /\
    last shapes (0, 0) = (10, 1) /\
    shapes = (784, 1) :: repeat (64, 1) (Z.to_nat 1) ++ [(10, 1)] /\
    kinds = repeat (str "relu") (Z.to_nat (1 + 2)) /\
    flags = repeat true (Z.to_nat (1 + 2)).
Proof.
  apply (C7_descriptors_well_formed 784 64 1 10); unfold INT_MAX; lia.
Defined.

(** C9, as the claim states it, fails: [extract_first_n] does not stop at
    the end of the list.  On a payload whose list holds two numbers and is
    followed by more text, the search for the next comma runs on into that
    text, and the number read there is stored at index 3: it enters the
    parity comparison as 2.0, not as 0.0, and one index of ten no longer
    matches the same list without the text. *)
Lemma C9_counterexample :
  let c := fst (extract_first_n strtof_dec payload_short_list zeros 10) in
  let c' := fst (extract_first_n strtof_dec payload_two_values zeros 10) in
  c 0 = S754_finite false 8388608 (-24) /\ c 1 = S754_finite false 8388608 (-25) /\
  c 2 = B32.zero /\
  c 3 = S754_finite false 8388608 (-22) /\ c 3 <> B32.zero /\
  (forall j, 2 <= j -> c' j = B32.zero) /\
  parity_ok c c' = 9.
Proof.
  cbv zeta. split; [vm_compute; reflexivity|]. split; [vm_compute; reflexivity|].
  split; [vm_compute; reflexivity|]. split; [vm_compute; reflexivity|].
  split; [vm_compute; discriminate|]. split; [|vm_compute; reflexivity].
  intros j Hj.
  pose proof (extract_first_n_frame strtof_dec payload_two_values zeros 10) as [_ Hframe].
  apply Hframe.
  assert (snd (extract_first_n strtof_dec payload_two_values zeros 10) = 2) as ->
    by (vm_compute; reflexivity).
  lia.
Qed.

(** C9, amended.  A payload without the ["handle"] marker parses to the
    handle 0.  Of the ten outputs read into a zeroed array: all are 0.0
    when the payload has no ["[["]; an output is 0.0 when its index is
    beyond the number of commas in all the text that follows the ["[["],
    the text after the list included; and the outputs that a list of fewer
    than ten numbers does not fill are 0.0 when no comma follows the
    list. *)
Theorem C9_zero_fallback (strtof : c_strtof) (js : cstring) :
  strtof_conforms strtof ->
  (strstr js (quoted "handle") = None -> parse_handle js = Some 0) /\
  let c := fst (extract_first_n strtof js zeros 10) in
  (strstr js (str "[[") = None -> forall j, c j = B32.zero) /\
  (forall p, strstr js (str "[[") = Some p ->
             forall j, commas (skipn 2 p) < j -> c j = B32.zero) /\
  (forall (pre post : cstring) (items : list (cstring * spec_float)),
      js = pre ++ str "[[" ++ join_items (map fst items) ++ str "]" ++ post ->
      lacks "["%char pre = true ->
      Forall (fun tv => reads strtof (fst tv) (snd tv)) items ->
      items <> [] ->
      strchr post ","%char = None ->
      forall j, Z.of_nat (List.length items) <= j -> c j = B32.zero).
Proof.
  intros Hconf. split; [|split; [|split]].
  - intros H. unfold parse_handle. now rewrite H.
  - intros H j. unfold extract_first_n. now rewrite H.
  - intros p Hp j Hj.
    pose proof (extract_first_n_frame strtof js zeros 10) as [Hw Hframe].
    apply Hframe. unfold extract_first_n in *. rewrite Hp in *.
    destruct (Z_lt_le_dec (commas (skipn 2 p)) 9) as [Hlt|Hge]; [|lia].
    pose proof (extract_loop_commas strtof Hconf (Z.to_nat 10) 0 10 (skipn 2 p) zeros
                                    ltac:(lia)). lia.
  - intros pre post items -> Hpre Hreads Hne Hpost j Hj.
    destruct (extract_first_n_decode strtof pre post items zeros 10 Hpre Hreads Hne
                                     ltac:(lia) (or_intror Hpost)) as [_ Hval].
    rewrite Hval. unfold stored_from. rewrite length_firstn, length_map.
    destruct (Z.leb_spec 0 j); [|reflexivity].
    destruct (Z.ltb_spec j (0 + Z.of_nat (Nat.min (Z.to_nat 10) (List.length items))));
      [lia|reflexivity].
Qed.

Lemma C9_zero_fallback_witness :
  let js := payload_two_values in
  (strstr js (quoted "handle") = None -> parse_handle js = Some 0) /\
  let c := fst (extract_first_n strtof_dec js zeros 10) in
  (strstr js (str "[[") = None -> forall j, c j = B32.zero) /\
  (forall p, strstr js (str "[[") = Some p ->
             forall j, commas (skipn 2 p) < j -> c j = B32.zero) /\
  (forall (pre post : cstring) (items : list (cstring * spec_float)),
      js = pre ++ str "[[" ++ join_items (map fst items) ++ str "]" ++ post ->
      lacks "["%char pre = true ->
      Forall (fun tv => reads strtof_dec (fst tv) (snd tv)) items ->
      items <> [] ->
      strchr post ","%char = None ->
      forall j, Z.of_nat (List.length items) <= j -> c j = B32.zero).
Proof.
  exact (C9_zero_fallback strtof_dec payload_two_values strtof_dec_conforms).
Defined.

(** C10.  For every text, array and count [n], [extract_first_n] stores only
    at the indices below the number of elements it read, which is at most
    [n]; every other element of the array keeps its value, all of them when
    the text has no ["[["]. *)
Theorem C10_extract_frame (strtof : c_strtof) (js : cstring) (out : farray) (n : Z) :
  let out' := fst (extract_first_n strtof js out n) in
  let stored := snd (extract_first_n strtof js out n) in
  0 <= stored <= Z.max 0 n /\
  (forall j, ~ (0 <= j < stored) -> out' j = out j) /\
  (forall j, ~ (0 <= j < n) -> out' j = out j) /\
  (strstr js (str "[[") = None -> stored = 0).
Proof.
  intros out' stored. destruct (extract_first_n_frame strtof js out n) as [Hw Hframe].
  split; [|split; [|split]]; try (subst stored; lia).
  - exact Hframe.
  - intros j Hj. apply Hframe. subst stored. lia.
  - intros H. subst stored. unfold extract_first_n. now rewrite H.
Qed.

(** C5, as the claim states it, fails: for the case S1 the estimate is
    25445/131072 MB, about 0.194, and does not agree with 0.206 to three
    decimals. *)
Lemma C5_counterexample :
  exists q, SF2Q (est_vram_mb_fc IN 64 1 OUT) = Some q /\
            ~ agrees_3_decimals q (206 # 1000).
Proof.
  eexists. split; [vm_compute; reflexivity|].
  unfold agrees_3_decimals, Qle, Qlt. cbn. lia.
Qed.

(** C5, amended.  The first case of the table is S1 with 64 hidden units in
    one hidden layer, run on 784 inputs and 10 outputs.  Its topology
    descriptor is the array of the three shapes of widths 784, 64 and 10,
    its activation descriptor is the array of three ["relu"], and its
    estimate is (784*64 + 64*10 + 64 + 10) * 4 / 2^20 = 25445/131072 MB,
    which is 0.194 to three decimals. *)
Theorem C5_case_S1 :
  nth_error cases 0 = Some (str "S1", 64, 1) /\ IN = 784 /\ OUT = 10 /\ RUNS = 100 /\
  build_layers_json IN 64 1 OUT
    = Some (json_array [shape_text 784; shape_text 64; shape_text 10]) /\
  build_activ_json (1 + 1 + 1)
    = Some (json_array [quoted "relu"; quoted "relu"; quoted "relu"]) /\
  exists q, SF2Q (est_vram_mb_fc IN 64 1 OUT) = Some q /\
            (q == (784 * 64 + 64 * 10 + 64 + 10) * 4 / inject_Z (2 ^ 20))%Q /\
            (q == 25445 # 131072)%Q /\
            agrees_3_decimals q (194 # 1000).
Proof.
  split; [reflexivity|]. split; [reflexivity|]. split; [reflexivity|]. split; [reflexivity|].
  split; [vm_compute; reflexivity|]. split; [vm_compute; reflexivity|].
  eexists. split; [vm_compute; reflexivity|].
  split; [|split].
  - vm_compute. reflexivity.
  - vm_compute. reflexivity.
  - unfold agrees_3_decimals, Qle, Qlt. cbn. lia.
Qed.

(** C6, as the claim states it, fails: for 2^27 inputs and 2^27 hidden
    units in one layer and 10 outputs, the parameter count does not fit the
    53 bits of a double, and the estimate is not the exact quotient. *)
Lemma C6_counterexample :
  exists q, SF2Q (est_vram_mb_fc 134217728 134217728 1 10) = Some q /\
            ~ (q == inject_Z (param_count 134217728 134217728 1 10 * 4) / inject_Z (2 ^ 20))%Q.
Proof.
  eexists. split; [vm_compute; reflexivity|].
  vm_compute. discriminate.
Qed.

(** C6, amended.  For positive sizes and a number of hidden layers that is
    not negative, when the parameter count
    in*h + max(0, hl-1)*h^2 + h*out + hl*h + out is below 2^53, the estimate
    is exactly that count times 4 divided by 2^20. *)
Theorem C6_vram_estimate_exact (in_dim hidden hidden_layers out_dim : Z) :
  0 < in_dim -> 0 < hidden -> 0 <= hidden_layers -> 0 < out_dim ->
  param_count in_dim hidden hidden_layers out_dim < 2 ^ 53 ->
  exists q, SF2Q (est_vram_mb_fc in_dim hidden hidden_layers out_dim) = Some q /\
            (q == inject_Z (param_count in_dim hidden hidden_layers out_dim * 4)
                  / inject_Z (2 ^ 20))%Q.
Proof.
  intros Hin Hhid Hhl Hout HT.
  rewrite est_vram_mb_fc_exact by assumption.
  assert (0 < param_count in_dim hidden hidden_layers out_dim) as Hpos
    by (unfold param_count; nia).
  destruct (SF2Q_dyadic 53 (Z.to_pos (param_count in_dim hidden hidden_layers out_dim)) (-18))
    as [q [Hq Hval]].
  { apply digits_below_53. rewrite Z2Pos.id; assumption. }
  exists q. split; [assumption|]. rewrite Hval, Z2Pos.id by assumption.
  rewrite inject_Z_mult. change (Qpower 2 (-18)) with (1 # 262144)%Q.
  change (inject_Z (2 ^ 20)) with (1048576 # 1)%Q. change (inject_Z 4) with (4 # 1)%Q.
  unfold Qdiv. rewrite <- Qmult_assoc. apply Qmult_comp; [reflexivity|].
  reflexivity.
Qed.

Lemma C6_vram_estimate_exact_witness :
  exists q, SF2Q (est_vram_mb_fc 784 2048 4 10) = Some q /\
            (q == inject_Z (param_count 784 2048 4 10 * 4) / inject_Z (2 ^ 20))%Q.
Proof.
  apply C6_vram_estimate_exact; try lia. vm_compute. reflexivity.
Defined.

(** C4, as the claim states it, fails: with the sample generator of the C
    standard, whose [RAND_MAX] is 32767, the 55399th draw after [srand(42)]
    is [RAND_MAX] itself, and the value stored is 1.0, printed as
    [1.000000]. *)
Lemma C4_counterexample :
  rand_conforms ansi_rand /\
  0 < 55399 /\
  nth_error (input_values ansi_rand 55399) (Z.to_nat 55398) = Some B32.one /\
  in_unit_half_open B32.one = false /\
  fmt_f6 B32.one = str "1.000000".
Proof.
  split; [apply ansi_rand_conforms|].
  split; [lia|].
  split; [vm_compute; reflexivity|].
  split; reflexivity.
Qed.

(** C4, amended.  For every [rand] that conforms to the C standard and every
    [in_dim > 0], [make_input] draws [in_dim] values, each of them lies in
    the closed interval from 0 to 1, and the text returned is the rank-3
    literal of these values. *)
Theorem C4_values_in_closed_unit (g : c_rand) (in_dim : Z) :
  rand_conforms g -> 0 < in_dim <= INT_MAX ->
  List.length (input_values g in_dim) = Z.to_nat in_dim /\
  Forall (fun v => in_unit_closed v = true) (input_values g in_dim) /\
  make_input g in_dim
  = Some (str "[[[" ++ join_items (map fmt_f6 (input_values g in_dim)) ++ str "]]]").
Proof.
  intros Hg Hin. split; [|split].
  - apply draw_values_length.
  - apply draw_values_closed. exact Hg.
  - apply make_input_ok; [exact Hg|lia].
Qed.

Lemma C4_values_in_closed_unit_witness :
  List.length (input_values ansi_rand 784) = Z.to_nat 784 /\
  Forall (fun v => in_unit_closed v = true) (input_values ansi_rand 784) /\
  make_input ansi_rand 784
  = Some (str "[[[" ++ join_items (map fmt_f6 (input_values ansi_rand 784)) ++ str "]]]").
Proof.
  apply (C4_values_in_closed_unit ansi_rand 784);
    [apply ansi_rand_conforms|unfold INT_MAX; lia].
Defined.

(** C8, as the claim states it, fails: the difference is compared with the
    constant [1e-4f], the binary32 value nearest to one ten-thousandth,
    which stands for a number below it.  The difference between [1e-4f]
    and zero is strictly below 1e-4, and it is not counted as a match. *)
Lemma C8_counterexample :
  exists q,
    SF2Q lit_1e_4f = Some q /\ SF2Q B32.zero = Some 0%Q /\
    (Qabs (q - 0) < 1 # 10000)%Q /\
    valid_binary B32.prec B32.emax lit_1e_4f = true /\
    within_tolerance (abs_diff lit_1e_4f B32.zero) = false /\
    parity_ok tolerance_cpu_out zeros = 9.
Proof.
  eexists. split; [reflexivity|]. split; [reflexivity|].
  split; [reflexivity|]. split; [reflexivity|]. split; vm_compute; reflexivity.
Qed.

(** C8, amended.  The parity check counts an index exactly when the
    difference [c[i] - g[i]] of the two binary32 values, rounded to the
    nearest binary32 value, is strictly below the constant [1e-4f], whose
    number is 13743895 / 2^37: that is, exactly when the absolute value of
    the exact difference is at most 27487789 / 2^38, the midpoint between
    that number and the binary32 number before it.  So a difference of at
    most 9.99e-5 is a match and one of at least 1.01e-4 is none; an index
    at which a value is an infinity or not a number is never counted. *)
Theorem C8_parity_tolerance (c g : farray) :
  (forall i, valid_binary B32.prec B32.emax (c i) = true) ->
  (forall i, valid_binary B32.prec B32.emax (g i) = true) ->
  (forall i, within_tolerance (abs_diff (c i) (g i)) = exact_match (c i) (g i)) /\
  parity_ok c g = count10 (fun i => exact_match (c i) (g i)) /\
  (forall i qc qg,
      SF2Q (c i) = Some qc -> SF2Q (g i) = Some qg ->
      ((Qabs (qc - qg) <= tolerance_bound)%Q ->
       within_tolerance (abs_diff (c i) (g i)) = true) /\
      ((tolerance_bound < Qabs (qc - qg))%Q ->
       within_tolerance (abs_diff (c i) (g i)) = false) /\
      ((Qabs (qc - qg) <= 999 # 10000000)%Q ->
       within_tolerance (abs_diff (c i) (g i)) = true) /\
      ((101 # 1000000 <= Qabs (qc - qg))%Q ->
       within_tolerance (abs_diff (c i) (g i)) = false)) /\
  (forall i, inf_or_nan (c i) = true \/ inf_or_nan (g i) = true ->
             within_tolerance (abs_diff (c i) (g i)) = false) /\
  SF2Q lit_1e_4f = Some (inject_Z 13743895 * Qpower 2 (-37))%Q /\
  (tolerance_value == 13743895 # 137438953472)%Q /\
  (tolerance_bound == tolerance_value - (1 # 274877906944))%Q /\
  (999 # 10000000 < tolerance_bound)%Q /\ (tolerance_value < 1 # 10000)%Q.
Proof.
  intros Hc Hg.
  assert (forall i, within_tolerance (abs_diff (c i) (g i)) = exact_match (c i) (g i))
    as Hexact by (intros i; apply within_tolerance_exact; [apply Hc|apply Hg]).
  split; [exact Hexact|].
  split; [rewrite parity_ok_count; apply count10_ext; exact Hexact|].
  split.
  - intros i qc qg Hqc Hqg. rewrite Hexact. unfold exact_match. rewrite Hqc, Hqg.
    split; [|split; [|split]].
    + intros H. now apply Qle_bool_iff.
    + intros H. apply not_true_iff_false. rewrite Qle_bool_iff. now apply Qlt_not_le.
    + intros H. apply Qle_bool_iff. apply Qle_trans with (1 := H). discriminate.
    + intros H. apply not_true_iff_false. rewrite Qle_bool_iff. apply Qlt_not_le.
      apply Qlt_le_trans with (2 := H). reflexivity.
  - split; [intros i; apply abs_diff_special|].
    split; [reflexivity|]. split; [reflexivity|]. split; [reflexivity|].
    split; reflexivity.
Qed.

(** At index 0 the values 1 and 1 + 2^-14 match and at index 1 the values 1
    and 1 + 2^-13 do not; the value nearest to 9.99e-5 matches zero and the
    one nearest to 1.01e-4 does not: eight of the ten indices match. *)
Lemma C8_parity_tolerance_witness :
  parity_ok sample_cpu_out sample_gpu_out = 8 /\
  within_tolerance (abs_diff (sample_cpu_out 0) (sample_gpu_out 0)) = true /\
  within_tolerance (abs_diff (sample_cpu_out 1) (sample_gpu_out 1)) = false /\
  within_tolerance (abs_diff (sample_cpu_out 2) (sample_gpu_out 2)) = true /\
  within_tolerance (abs_diff (sample_cpu_out 3) (sample_gpu_out 3)) = false.
Proof.
  assert (forall i, valid_binary B32.prec B32.emax (sample_cpu_out i) = true) as Hc.
  { intros i. unfold sample_cpu_out.
    destruct (i =? 0); [reflexivity|]. destruct (i =? 1); [reflexivity|].
    destruct (i =? 2); reflexivity. }
  assert (forall i, valid_binary B32.prec B32.emax (sample_gpu_out i) = true) as Hg.
  { intros i. unfold sample_gpu_out.
    destruct (i =? 0); [reflexivity|]. destruct (i =? 1); [reflexivity|].
    destruct (i =? 3); reflexivity. }
  destruct (C8_parity_tolerance sample_cpu_out sample_gpu_out Hc Hg) as [Hexact [Hcount _]].
  split; [rewrite Hcount; vm_compute; reflexivity|].
  repeat split; rewrite Hexact; vm_compute; reflexivity.
Defined.

(** * Further properties of the code *)

(** X1.  [is_error] holds exactly of the payloads in which the text
    ["error"], quotes included, occurs somewhere; the null pointer is not
    an error. *)
Theorem X1_is_error_marker (r : option cstring) :
  (is_error r = true <-> exists pre post, r = Some (pre ++ quoted "error" ++ post)) /\
  is_error None = false.
Proof. split; [apply is_error_iff|reflexivity]. Qed.

(** X2.  [parse_handle] returns the decimal number written after the first
    colon that follows the first occurrence of the text ["handle"], quotes
    included, wherever in the payload that occurrence stands: white space
    after the colon is skipped, and the number is saturated to the range of
    [long long].  The result is the handle when that first occurrence is
    the key of the handle; when the text occurs before it, as a value, the
    number after the next colon is returned instead. *)
Theorem X2_parse_handle_reads_back (pre mid blanks rest : cstring) (n : Z) :
  first_at (quoted "handle") pre (mid ++ str ":" ++ blanks ++ fmt_d n ++ rest) = true ->
  lacks ":"%char mid = true ->
  forallb isspace blanks = true ->
  ends_number rest = true ->
  parse_handle (pre ++ quoted "handle" ++ mid ++ str ":" ++ blanks ++ fmt_d n ++ rest)
  = Some (clamp_llong n) /\
  (LLONG_MIN <= n <= LLONG_MAX -> clamp_llong n = n) /\
  (LLONG_MAX <= n -> clamp_llong n = LLONG_MAX) /\
  (n <= LLONG_MIN -> clamp_llong n = LLONG_MIN).
Proof.
  intros Hpre Hmid Hblanks Hrest. split.
  - now apply parse_handle_payload.
  - unfold clamp_llong, LLONG_MIN, LLONG_MAX. repeat split; lia.
Qed.

(** The text ["handle"] as a value before the key: the number after the
    next colon, 5, is returned, not the handle 7. *)
Lemma X2_parse_handle_reads_back_witness :
  parse_handle payload_handle_as_value = Some (clamp_llong 5) /\
  (LLONG_MIN <= 5 <= LLONG_MAX -> clamp_llong 5 = 5) /\
  (LLONG_MAX <= 5 -> clamp_llong 5 = LLONG_MAX) /\
  (5 <= LLONG_MIN -> clamp_llong 5 = LLONG_MIN).
Proof.
  apply (X2_parse_handle_reads_back
           (str "{" ++ quoted "kind" ++ str ":") (str "," ++ quoted "n") [] 
           (str "," ++ quoted "handle" ++ str ":7}") 5); reflexivity.
Defined.

(** X3.  A handle that is not written as a number parses to 0: when the
    text after the first colon that follows the first ["handle"] marker,
    white space skipped, does not begin with a digit or with a sign and a
    digit, as for a string, [null] or the end of the payload,
    [parse_handle] returns 0, the value it also returns when the marker is
    missing. *)
Theorem X3_parse_handle_not_a_number (pre mid blanks rest : cstring) :
  first_at (quoted "handle") pre (mid ++ str ":" ++ blanks ++ rest) = true ->
  lacks ":"%char mid = true ->
  forallb isspace blanks = true ->
  no_number rest = true ->
  parse_handle (pre ++ quoted "handle" ++ mid ++ str ":" ++ blanks ++ rest) = Some 0.
Proof. apply parse_handle_no_number. Qed.

Lemma X3_parse_handle_not_a_number_witness : parse_handle payload_null_handle = Some 0.
Proof.
  apply (X3_parse_handle_not_a_number (str "{") [] (str " ") (str "null}")); reflexivity.
Defined.

(** X4.  On a payload whose first ["[["] opens a list of numbers separated
    by commas and closed by ["]"], [extract_first_n] stores the numbers in
    order from index 0: the first [n] of them when the list holds at least
    [n], and all of them, leaving the rest of the array as it was, when the
    list is shorter and no comma follows it. *)
Theorem X4_extract_reads_list (strtof : c_strtof) (pre post : cstring)
        (items : list (cstring * spec_float)) (out : farray) (n : Z) :
  lacks "["%char pre = true ->
  Forall (fun tv => reads strtof (fst tv) (snd tv)) items ->
  items <> [] ->
  0 <= n ->
  n <= Z.of_nat (List.length items) \/ strchr post ","%char = None ->
  let js := pre ++ str "[[" ++ join_items (map fst items) ++ str "]" ++ post in
  let r := extract_first_n strtof js out n in
  snd r = Z.min n (Z.of_nat (List.length items)) /\
  forall j, fst r j = stored_from out 0 (firstn (Z.to_nat n) (map snd items)) j.
Proof. apply extract_first_n_decode. Qed.

Lemma X4_extract_reads_list_witness :
  let js := (str "{" ++ quoted "output" ++ str ":")
            ++ str "[[" ++ join_items (map fst sample_items) ++ str "]" ++ str "]}" in
  let r := extract_first_n strtof_dec js ones 10 in
  snd r = Z.min 10 (Z.of_nat (List.length sample_items)) /\
  forall j, fst r j = stored_from ones 0 (firstn (Z.to_nat 10) (map snd sample_items)) j.
Proof.
  apply (X4_extract_reads_list strtof_dec (str "{" ++ quoted "output" ++ str ":") (str "]}")
                               sample_items ones 10).
  - reflexivity.
  - unfold sample_items.
    repeat (constructor; [intros c r [-> | ->]; vm_compute; reflexivity|]). constructor.
  - discriminate.
  - lia.
  - right. reflexivity.
Defined.

(** X5.  When the payload has a ["[["] and at least one value is asked for,
    element 0 is always overwritten with what [strtof] returns for the text
    after the brackets: with 0.0 when no number stands there. *)
Theorem X5_extract_first_element (strtof : c_strtof) (js p : cstring) (out : farray) (n : Z) :
  strtof_conforms strtof ->
  strstr js (str "[[") = Some p -> 1 <= n ->
  let r := extract_first_n strtof js out n in
  1 <= snd r /\
  fst r 0 = fst (strtof (skipn 2 p)) /\
  (snd (strtof (skipn 2 p)) = skipn 2 p -> fst r 0 = B32.zero).
Proof.
  intros Hconf Hp Hn r.
  destruct (extract_first_n_head strtof js p out n Hp Hn) as [Hs Hv].
  split; [exact Hs|]. split; [exact Hv|].
  intros Hnone. subst r. rewrite Hv. now apply (Hconf (skipn 2 p)).
Qed.

Lemma X5_extract_first_element_witness :
  let r := extract_first_n strtof_dec payload_empty_output ones 10 in
  1 <= snd r /\
  fst r 0 = fst (strtof_dec (skipn 2 (str "[[]]}"))) /\
  (snd (strtof_dec (skipn 2 (str "[[]]}"))) = skipn 2 (str "[[]]}") -> fst r 0 = B32.zero).
Proof.
  apply (X5_extract_first_element strtof_dec payload_empty_output (str "[[]]}") ones 10).
  - apply strtof_dec_conforms.
  - vm_compute. reflexivity.
  - lia.
Defined.

(** X6.  The engine calls of a benchmark case that runs to its end, in
    order: the creation call with the three descriptors; when its answer is
    an error, nothing more.  Otherwise [Paragon_PerturbWeights] on the handle
    parsed, with 0.1 and 42; when that answer is an error, nothing more.
    Otherwise [Paragon_DisableGPU], whose answer is not examined, ten
    warm-up and [runs] timed [Forward] calls on the input text and one
    [ExtractOutput] call, then [Paragon_EnableGPU], and, unless that answer
    is an error, the same [Forward] and [ExtractOutput] calls again. *)
Theorem X6_call_protocol (w : world) (name : cstring)
        (in_dim hidden hidden_layers out_dim runs : Z) :
  fst (run_case w name in_dim hidden hidden_layers out_dim runs []) = Some tt ->
  let tr := trace_of w name in_dim hidden hidden_layers out_dim runs in
  exists layers activ fully s,
    build_layers_json in_dim hidden hidden_layers out_dim = Some layers /\
    build_activ_json (1 + hidden_layers + 1) = Some activ /\
    build_fully_json (1 + hidden_layers + 1) = Some fully /\
    creations tr = [Some s] /\
    let cnew := Paragon_NewNetworkFloat32 layers activ fully true false in
    if is_error (Some s) then calls tr = [cnew]
    else
      exists h s2,
        parse_handle s = Some h /\ perturbs tr = [Some s2] /\
        let cpert := Paragon_PerturbWeights h lit_0_1 42 in
        if is_error (Some s2) then calls tr = [cnew; cpert]
        else
          exists input s4,
            make_input (c_gen w) in_dim = Some input /\
            enables tr = [Some s4] /\
            calls tr = [cnew; cpert; Paragon_DisableGPU h]
                       ++ phase_calls h input runs
                       ++ [Paragon_EnableGPU h]
                       ++ (if is_error (Some s4) then [] else phase_calls h input runs).
Proof.
  intros Hdone tr. subst tr.
  destruct (run_case_outcome_trace w name in_dim hidden hidden_layers out_dim runs Hdone)
    as (layers & activ & fully & s & Hl & Ha & Hf & Hcre & Hrest).
  exists layers, activ, fully, s. repeat (split; [assumption|]).
  cbv zeta in *. destruct (is_error (Some s)); [apply Hrest|].
  destruct Hrest as (h & s2 & Hh & Hp & _ & Hrest).
  exists h, s2. split; [exact Hh|]. split; [exact Hp|].
  destruct (is_error (Some s2)); [apply Hrest|].
  destruct Hrest as (input & s3 & s4 & t0 & t1 & Hin & Hen & Hrest).
  exists input, s4. split; [exact Hin|]. split; [exact Hen|].
  destruct (is_error (Some s4)).
  - destruct Hrest as (Hc & _). rewrite Hc. cbn [app].
    now rewrite ?app_nil_r, <- ?app_assoc.
  - destruct Hrest as (t2 & t3 & cj & gj & Hc & _). rewrite Hc. cbn [app].
    now rewrite ?app_nil_r, <- ?app_assoc.
Qed.

Lemma X6_call_protocol_witness :
  let tr := trace_of (sample_world gpu_fails) (str "S1") IN 64 1 OUT RUNS in
  exists layers activ fully s,
    build_layers_json IN 64 1 OUT = Some layers /\
    build_activ_json (1 + 1 + 1) = Some activ /\
    build_fully_json (1 + 1 + 1) = Some fully /\
    creations tr = [Some s] /\
    let cnew := Paragon_NewNetworkFloat32 layers activ fully true false in
    if is_error (Some s) then calls tr = [cnew]
    else
      exists h s2,
        parse_handle s = Some h /\ perturbs tr = [Some s2] /\
        let cpert := Paragon_PerturbWeights h lit_0_1 42 in
        if is_error (Some s2) then calls tr = [cnew; cpert]
        else
          exists input s4,
            make_input (c_gen (sample_world gpu_fails)) IN = Some input /\
            enables tr = [Some s4] /\
            calls tr = [cnew; cpert; Paragon_DisableGPU h]
                       ++ phase_calls h input RUNS
                       ++ [Paragon_EnableGPU h]
                       ++ (if is_error (Some s4) then [] else phase_calls h input RUNS).
Proof.
  apply (X6_call_protocol (sample_world gpu_fails) (str "S1") IN 64 1 OUT RUNS).
  vm_compute. reflexivity.
Defined.

(** X7.  What a benchmark case that runs to its end prints, in order: the
    case and shape lines and the creation answer; unless that is an error,
    the answer to [Paragon_PerturbWeights]; unless that is an error, the CPU
    heading, the answer to [Paragon_DisableGPU], the time line of the CPU
    phase, the GPU heading and the answer to [Paragon_EnableGPU]; unless
    that is an error, the time line of the GPU phase, the speed-up and the
    parity block.  A time line gives the difference of the two clock
    readings of its phase and [runs] divided by that difference; the clock
    is read twice in each phase that runs. *)
Theorem X7_report (w : world) (name : cstring)
        (in_dim hidden hidden_layers out_dim runs : Z) :
  fst (run_case w name in_dim hidden hidden_layers out_dim runs []) = Some tt ->
  let tr := trace_of w name in_dim hidden hidden_layers out_dim runs in
  exists s s2 s3 s4 t0 t1 t2 t3 cpu_js gpu_js,
    creations tr = [Some s] /\
    prints tr
    = [PrCase name;
       PrShape in_dim hidden hidden_layers out_dim
               (est_vram_mb_fc in_dim hidden hidden_layers out_dim);
       PrNewNetwork s]
      ++ (if is_error (Some s) then []
          else PrPerturbWeights s2
               :: if is_error (Some s2) then []
                  else [PrCpu; PrDisableGPU s3; time_line runs t0 t1; PrGpu; PrEnableGPU s4]
                       ++ if is_error (Some s4) then []
                          else [time_line runs t2 t3;
                                PrSpeedup (B64.div (B64.sub t1 t0) (B64.sub t3 t2))]
                               ++ parity_lines (strtof w) cpu_js gpu_js) /\
    clock_readings tr
    = (if is_error (Some s) then []
       else if is_error (Some s2) then []
            else [t0; t1] ++ if is_error (Some s4) then [] else [t2; t3]).
Proof.
  intros Hdone tr. subst tr.
  destruct (run_case_outcome_trace w name in_dim hidden hidden_layers out_dim runs Hdone)
    as (layers & activ & fully & s & _ & _ & _ & Hcre & Hrest).
  cbv zeta in Hrest. destruct (is_error (Some s)) eqn:Es.
  - destruct Hrest as (_ & Hp & _ & Hck).
    exists s, [], [], [], B64.zero, B64.zero, B64.zero, B64.zero, [], [].
    rewrite Es, Hp, Hck. repeat split; first [exact Hcre | cbn [app]; now rewrite ?app_nil_r, <- ?app_assoc].
  - destruct Hrest as (h & s2 & _ & _ & _ & Hrest). destruct (is_error (Some s2)) eqn:Es2.
    + destruct Hrest as (_ & Hp & Hck).
      exists s, s2, [], [], B64.zero, B64.zero, B64.zero, B64.zero, [], [].
      rewrite Es, Es2, Hp, Hck. repeat split; first [exact Hcre | cbn [app]; now rewrite ?app_nil_r, <- ?app_assoc].
    + destruct Hrest as (input & s3 & s4 & t0 & t1 & _ & _ & Hrest).
      destruct (is_error (Some s4)) eqn:Es4.
      * destruct Hrest as (_ & Hp & Hck).
        exists s, s2, s3, s4, t0, t1, B64.zero, B64.zero, [], [].
        rewrite Es, Es2, Es4, Hp, Hck. repeat split; first [exact Hcre | cbn [app]; now rewrite ?app_nil_r, <- ?app_assoc].
      * destruct Hrest as (t2 & t3 & cj & gj & _ & Hck & Hp).
        exists s, s2, s3, s4, t0, t1, t2, t3, cj, gj.
        rewrite Es, Es2, Es4, Hp, Hck. repeat split; first [exact Hcre | cbn [app]; now rewrite ?app_nil_r, <- ?app_assoc].
Qed.

Lemma X7_report_witness :
  let w := sample_world perturb_fails in
  let tr := trace_of w (str "S1") IN 64 1 OUT RUNS in
  exists s s2 s3 s4 t0 t1 t2 t3 cpu_js gpu_js,
    creations tr = [Some s] /\
    prints tr
    = [PrCase (str "S1"); PrShape IN 64 1 OUT (est_vram_mb_fc IN 64 1 OUT); PrNewNetwork s]
      ++ (if is_error (Some s) then []
          else PrPerturbWeights s2
               :: if is_error (Some s2) then []
                  else [PrCpu; PrDisableGPU s3; time_line RUNS t0 t1; PrGpu; PrEnableGPU s4]
                       ++ if is_error (Some s4) then []
                          else [time_line RUNS t2 t3;
                                PrSpeedup (B64.div (B64.sub t1 t0) (B64.sub t3 t2))]
                               ++ parity_lines (strtof w) cpu_js gpu_js) /\
    clock_readings tr
    = (if is_error (Some s) then []
       else if is_error (Some s2) then []
            else [t0; t1] ++ if is_error (Some s4) then [] else [t2; t3]).
Proof.
  apply (X7_report (sample_world perturb_fails) (str "S1") IN 64 1 OUT RUNS).
  vm_compute. reflexivity.
Defined.

(** X8.  With positive [int] sizes, a number of hidden layers of at most
    [INT_MAX - 2] so that the layer count is an [int], an engine that never
    answers with the null pointer and whose creation answers can be read by
    [parse_handle], a [malloc] that returns a buffer for every copy (the
    buffers of the descriptors and of the input text are taken to be
    allocated), and a [rand] that conforms to the C standard, a benchmark
    case runs to its end: no buffer is overrun and no null pointer is
    printed or parsed, whatever the answers say. *)
Theorem X8_case_completes (w : world) (name : cstring)
        (in_dim hidden hidden_layers out_dim runs : Z) :
  sizes_ok in_dim hidden hidden_layers out_dim ->
  engine_answers w ->
  malloc_succeeds w ->
  rand_conforms (c_gen w) ->
  fst (run_case w name in_dim hidden hidden_layers out_dim runs []) = Some tt.
Proof. apply run_case_completes. Qed.

Lemma X8_case_completes_witness :
  fst (run_case (sample_world gpu_fails) (str "XL2") IN 2048 4 OUT RUNS []) = Some tt.
Proof.
  apply (X8_case_completes (sample_world gpu_fails) (str "XL2") IN 2048 4 OUT RUNS).
  - unfold sizes_ok, IN, OUT, INT_MAX. lia.
  - apply sample_engine_answers.
  - intros tr n. reflexivity.
  - apply ansi_rand_conforms.
Defined.

(** X9.  When [main] runs to its end, it has printed the banner first and
    run the ten cases of its table in order: their names are announced in
    the order of the table, the creation calls are those of the table with
    784 inputs and 10 outputs, each case has one creation answer, and the
    handles released are, in order, those of the answers that are not
    errors. *)
Theorem X9_main_cases (w : world) :
  fst (main w []) = Some tt ->
  let tr := snd (main w []) in
  hd_error tr = Some (EvPrint PrBanner) /\
  case_names tr = map (fun c => fst (fst c)) cases /\
  new_calls tr = map case_call cases /\
  exists answers,
    List.length answers = 10%nat /\
    creations tr = map Some answers /\
    frees tr = flat_map (fun s => if is_error (Some s) then [] else [handle_of s]) answers.
Proof.
  intros Hdone tr. subst tr.
  destruct (main_summary w Hdone) as (es & answers & -> & Hlen & Hcre & Hfr & Hnew & Hnames).
  change (EvPrint PrBanner :: es) with ([EvPrint PrBanner] ++ es).
  rewrite case_names_app, new_calls_app, Hnames, Hnew.
  split; [reflexivity|]. split; [reflexivity|]. split; [reflexivity|].
  exists answers. split; [exact Hlen|].
  unfold creations, frees in *. rewrite !flat_map_app, Hcre, Hfr. split; reflexivity.
Qed.

Lemma X9_main_cases_witness :
  let tr := snd (main (sample_world no_failure) []) in
  hd_error tr = Some (EvPrint PrBanner) /\
  case_names tr = map (fun c => fst (fst c)) cases /\
  new_calls tr = map case_call cases /\
  exists answers,
    List.length answers = 10%nat /\
    creations tr = map Some answers /\
    frees tr = flat_map (fun s => if is_error (Some s) then [] else [handle_of s]) answers.
Proof.
  apply (X9_main_cases (sample_world no_failure)).
  vm_compute. reflexivity.
Defined.

(** X10.  With an engine that never answers with the null pointer and whose
    creation answers can be read, a [malloc] that returns a buffer for every
    copy (the buffers of the descriptors and of the input text are taken to
    be allocated), and a [rand] that conforms to the C standard, [main] runs
    all ten cases of its table to the end. *)
Theorem X10_main_completes (w : world) :
  engine_answers w -> malloc_succeeds w -> rand_conforms (c_gen w) ->
  fst (main w []) = Some tt.
Proof. apply main_completes. Qed.

Lemma X10_main_completes_witness : fst (main (sample_world create_fails) []) = Some tt.
Proof.
  apply (X10_main_completes (sample_world create_fails)).
  - apply sample_engine_answers.
  - intros tr n. reflexivity.
  - apply ansi_rand_conforms.
Defined.

(** X11.  The match count of the parity check lies between 0 and 10 and
    does not depend on which of the two arrays is the CPU's. *)
Theorem X11_parity_count (c g : farray) :
  0 <= parity_ok c g <= 10 /\ parity_ok c g = parity_ok g c.
Proof.
  split; [rewrite parity_ok_count; apply count10_bounds|apply parity_ok_sym].
Qed.

(** X12.  An index at which either output is an infinity or a NaN is never
    counted as a match. *)
Theorem X12_parity_special (x y : spec_float) :
  inf_or_nan x = true \/ inf_or_nan y = true -> within_tolerance (abs_diff x y) = false.
Proof. apply abs_diff_special. Qed.

Lemma X12_parity_special_witness :
  within_tolerance (abs_diff S754_nan S754_nan) = false /\
  within_tolerance (abs_diff (S754_infinity false) (S754_infinity false)) = false.
Proof.
  split.
  - apply (X12_parity_special S754_nan S754_nan). left. reflexivity.
  - apply (X12_parity_special (S754_infinity false) (S754_infinity false)). left. reflexivity.
Defined.

(** X13.  An array compared with itself matches at exactly the indices whose
    value is a zero or a finite number. *)
Theorem X13_parity_self (c : farray) :
  parity_ok c c = count10 (fun i => negb (inf_or_nan (c i))).
Proof. apply parity_ok_self. Qed.

(** X14.  When neither output payload has a ["[["], both arrays stay at
    zero and the parity check counts ten matches: payloads that carry no
    output, such as two error answers, compare as equal. *)
Theorem X14_parity_no_output (strtof : c_strtof) (cpu_js gpu_js : cstring) :
  strstr cpu_js (str "[[") = None -> strstr gpu_js (str "[[") = None ->
  parity_ok (fst (extract_first_n strtof cpu_js zeros 10))
            (fst (extract_first_n strtof gpu_js zeros 10)) = 10.
Proof. apply parity_no_output. Qed.

Lemma X14_parity_no_output_witness :
  parity_ok (fst (extract_first_n strtof_dec payload_error zeros 10))
            (fst (extract_first_n strtof_dec payload_ack zeros 10)) = 10.
Proof.
  apply (X14_parity_no_output strtof_dec payload_error payload_ack); reflexivity.
Defined.

(** X15.  For a [rand] that conforms to the C standard and a positive
    [in_dim], the text [make_input] returns has nine characters for each
    value and five more, and is shorter than the [16 + 12 * in_dim] bytes
    allocated for it. *)
Theorem X15_input_length (g : c_rand) (in_dim : Z) :
  rand_conforms g -> 0 < in_dim <= INT_MAX ->
  exists s, make_input g in_dim = Some s /\
            strlen s = 9 * in_dim + 5 /\
            strlen s < 16 + 12 * in_dim.
Proof. apply make_input_length. Qed.

Lemma X15_input_length_witness :
  exists s, make_input ansi_rand 784 = Some s /\
            strlen s = 9 * 784 + 5 /\
            strlen s < 16 + 12 * 784.
Proof.
  apply (X15_input_length ansi_rand 784); [apply ansi_rand_conforms|unfold INT_MAX; lia].
Defined.

(** X16.  Over the whole of [main], every buffer an engine call returns is
    released through [Paragon_FreeCString] exactly once and before anything
    else happens: in the second step after the call when the [malloc] of
    the copy returned a buffer, the copy being the first step, and in the
    first step, uncopied, when it returned none.  No buffer is copied or
    released anywhere else. *)
Theorem X16_main_buffers (w : world) (i : nat) (c : call) (s : cstring) :
  let tr := snd (main w []) in
  nth_error tr i = Some (EvCall c (Some s)) ->
  let copied := malloc_ok w (firstn (S i) tr) (strlen s + 1) in
  nth_error tr (if copied then S (S i) else S i) = Some (EvFreeCString i) /\
  (forall j, nth_error tr j = Some (EvFreeCString i) -> j = if copied then S (S i) else S i) /\
  (copied = true -> nth_error tr (S i) = Some (EvCopy i)) /\
  (forall j, nth_error tr j = Some (EvCopy i) -> copied = true /\ j = S i).
Proof.
  intros tr Hcall.
  exact (Bracketed_release w tr i c s (main_Bracketed w) Hcall).
Qed.

Lemma X16_main_buffers_witness :
  let tr := snd (main starved_world []) in
  let copied := malloc_ok starved_world (firstn 4 tr) (strlen payload_handle + 1) in
  nth_error tr (if copied then 5%nat else 4%nat) = Some (EvFreeCString 3) /\
  (forall j, nth_error tr j = Some (EvFreeCString 3) -> j = if copied then 5%nat else 4%nat) /\
  (copied = true -> nth_error tr 4 = Some (EvCopy 3)) /\
  (forall j, nth_error tr j = Some (EvCopy 3) -> copied = true /\ j = 4%nat).
Proof.
  apply (X16_main_buffers starved_world 3 (case_call (str "S1", 64, 1)) payload_handle).
  vm_compute. reflexivity.
Defined.

(** X17.  When the engine answers the creation call with the null pointer,
    [steal] copies and releases nothing, and the case leaves defined
    behaviour at the [printf] of the answer: after the case and shape lines
    and the call, nothing more happens, and no handle is released. *)
Theorem X17_null_creation (w : world) (name : cstring)
        (in_dim hidden hidden_layers out_dim runs : Z) :
  sizes_ok in_dim hidden hidden_layers out_dim ->
  (forall tr layers activ fully f1 f2,
      engine w tr (Paragon_NewNetworkFloat32 layers activ fully f1 f2) = None) ->
  exists layers activ fully,
    build_layers_json in_dim hidden hidden_layers out_dim = Some layers /\
    build_activ_json (1 + hidden_layers + 1) = Some activ /\
    build_fully_json (1 + hidden_layers + 1) = Some fully /\
    run_case w name in_dim hidden hidden_layers out_dim runs []
    = (None,
       [EvPrint (PrCase name);
        EvPrint (PrShape in_dim hidden hidden_layers out_dim
                         (est_vram_mb_fc in_dim hidden hidden_layers out_dim));
        EvCall (Paragon_NewNetworkFloat32 layers activ fully true false) None]).
Proof.
  intros Hsizes Hnull.
  exact (run_case_null_creation w name in_dim hidden hidden_layers out_dim runs []
                                Hsizes Hnull).
Qed.

Lemma X17_null_creation_witness :
  exists layers activ fully,
    build_layers_json IN 64 1 OUT = Some layers /\
    build_activ_json (1 + 1 + 1) = Some activ /\
    build_fully_json (1 + 1 + 1) = Some fully /\
    run_case null_world (str "S1") IN 64 1 OUT RUNS []
    = (None,
       [EvPrint (PrCase (str "S1"));
        EvPrint (PrShape IN 64 1 OUT (est_vram_mb_fc IN 64 1 OUT));
        EvCall (Paragon_NewNetworkFloat32 layers activ fully true false) None]).
Proof.
  apply (X17_null_creation null_world (str "S1") IN 64 1 OUT RUNS).
  - unfold sizes_ok, IN, OUT, INT_MAX. lia.
  - reflexivity.
Defined.

(** X18.  A benchmark case that runs to its end leaks no buffer and misuses
    none.  Run with the buffers it obtains from [malloc] (the three
    descriptors, the input text and the copy of every answer), the case
    prints and calls what [run_case] does, and from any allocator state its
    allocations, reads and calls of [free] are accepted in order: every read
    and every [free] is of a buffer that is live at that point, so nothing
    is read after its [free] or freed twice, and at the end the live
    buffers are those that were live before the case. *)
Theorem X18_buffers_freed (w : world) (name : cstring)
        (in_dim hidden hidden_layers out_dim runs : Z) (hp : heap) (tr : list event) :
  fst (run_case w name in_dim hidden hidden_layers out_dim runs tr) = Some tt ->
  exists hp' added,
    run_case_mem w name in_dim hidden hidden_layers out_dim runs hp tr
    = (Some (tt, hp'), snd (run_case w name in_dim hidden hidden_layers out_dim runs tr)) /\
    mem_log hp' = mem_log hp ++ added /\
    forall live,
      (forall id, In id live -> (id < next_id hp)%nat) ->
      replay added live = Some live.
Proof.
  intros Hdone.
  destruct (run_case_mem_safe w name in_dim hidden hidden_layers out_dim runs hp tr Hdone)
    as (hp' & added & Hrun & Hlog & _ & He).
  exists hp', added. split; [exact Hrun|]. split; [exact Hlog|].
  intros live Hlive.
  specialize (He live [] Hlive (incl_nil_l live)).
  now rewrite app_nil_r in He.
Qed.

Lemma X18_buffers_freed_witness :
  exists hp' added,
    run_case_mem (sample_world gpu_fails) (str "S1") IN 64 1 OUT RUNS (mk_heap 0 []) []
    = (Some (tt, hp'),
       snd (run_case (sample_world gpu_fails) (str "S1") IN 64 1 OUT RUNS [])) /\
    mem_log hp' = mem_log (mk_heap 0 []) ++ added /\
    forall live,
      (forall id, In id live -> (id < next_id (mk_heap 0 []))%nat) ->
      replay added live = Some live.
Proof.
  apply (X18_buffers_freed (sample_world gpu_fails) (str "S1") IN 64 1 OUT RUNS
                           (mk_heap 0 []) []).
  vm_compute. reflexivity.
Defined.
